(** * Deduplication and text normalisation utilities: a shallow embedding

    The development follows [src/utils/text_normalization.py] and
    [src/utils/deduplication.py].  Python strings are sequences of Unicode
    code points, pandas data frames are mutable objects living in a store,
    and the library routines the two modules call ([re], [hashlib], the
    Unicode tables behind [str.lower] and friends, scikit-learn's TF-IDF
    vectoriser) are either written out ([re], [hashlib.md5],
    [hashlib.sha256]) or taken as parameters ([UCD], [Sklearn]). *)

From Stdlib Require Import ZArith NArith QArith Ascii String List Lia.
From stdpp Require Import base option list sorting gmap strings.

Close Scope Q_scope.
Local Open Scope N_scope.

(** ** Python values *)

Module Py.

(** A character is a Unicode code point; a [str] is a list of them. *)
Definition char := N.
Definition pystr := list char.

(** ASCII literals are written as Rocq strings. *)
Definition str (s : string) : pystr :=
  map N_of_ascii (list_ascii_of_string s).

(** The exceptions that the two modules can let escape. *)
Inductive exn : Type :=
| KeyError (column : string)
| ValueError (message : pystr)
| ZeroDivisionError
| UnicodeEncodeError
| LibraryError (name : string).

Inductive result (A : Type) : Type :=
| Ok (a : A)
| Raise (e : exn).
Arguments Ok {A} a.
Arguments Raise {A} e.

(** The values found in the cells of a data frame. *)
Inductive pyval : Type :=
| PyStr (s : pystr)
| PyNone
| PyNaN
| PyInt (z : Z).

#[export] Instance pyval_eq_dec : EqDecision pyval.
Proof. solve_decision. Defined.

(** [a / b] on two non-negative Python integers, as an exact fraction *)
Definition py_div (a b : nat) : result Q :=
  match b with
  | O => Raise ZeroDivisionError
  | S _ => Ok (Qmake (Z.of_nat a) (Pos.of_nat b))
  end.

(** [isinstance(v, str)] *)
Definition isinstance_str (v : pyval) : bool :=
  match v with PyStr _ => true | _ => false end.

(** [s.encode('utf-8')]: lone surrogates cannot be encoded. *)
Definition utf8_char (c : char) : option (list N) :=
  if c <? 0x80 then Some [c]
  else if c <? 0x800 then
    Some [N.lor 0xC0 (N.shiftr c 6); N.lor 0x80 (N.land c 0x3F)]
  else if c <? 0x10000 then
    if (0xD800 <=? c) && (c <=? 0xDFFF) then None
    else Some [N.lor 0xE0 (N.shiftr c 12);
               N.lor 0x80 (N.land (N.shiftr c 6) 0x3F);
               N.lor 0x80 (N.land c 0x3F)]
  else
    Some [N.lor 0xF0 (N.land (N.shiftr c 18) 0x07);
          N.lor 0x80 (N.land (N.shiftr c 12) 0x3F);
          N.lor 0x80 (N.land (N.shiftr c 6) 0x3F);
          N.lor 0x80 (N.land c 0x3F)].

Fixpoint encode_utf8 (s : pystr) : result (list N) :=
  match s with
  | [] => Ok []
  | c :: s' =>
      match utf8_char c, encode_utf8 s' with
      | Some bs, Ok rest => Ok (bs ++ rest)
      | None, _ => Raise UnicodeEncodeError
      | _, Raise e => Raise e
      end
  end.

(** *** The Unicode character database

    [str.lower], [str.split], [re]'s [\w] and [\s], [unicodedata] and
    [html.unescape] consult tables that are not part of the repository.  Their
    behaviour on ASCII is written out below; on the rest of Unicode it is
    read from a [UCD] record, which every definition takes as a parameter. *)
Record UCD : Type := {
  ucd_isspace : char -> bool;        (* Py_UNICODE_ISSPACE *)
  ucd_isalnum : char -> bool;        (* Py_UNICODE_ISALNUM *)
  ucd_isupper : char -> bool;        (* Py_UNICODE_ISUPPER *)
  ucd_tolower : char -> list char;   (* _PyUnicode_ToLowerFull *)
  ucd_totitle : char -> list char;   (* _PyUnicode_ToTitleFull *)
  ucd_cased : char -> bool;          (* _PyUnicode_IsCased *)
  ucd_case_ignorable : char -> bool; (* _PyUnicode_IsCaseIgnorable *)
  ucd_category_C : char -> bool;     (* unicodedata.category(c)[0] == 'C' *)
  ucd_nfkc : pystr -> pystr;         (* unicodedata.normalize('NFKC', s) *)
  html_charrefs : pystr -> pystr     (* html.unescape on a text with '&' *)
}.

Definition in_range (lo hi c : char) : bool := (lo <=? c) && (c <=? hi).
Definition is_ascii (c : char) : bool := c <? 128.

Section Builtins.
Context (U : UCD).

Definition isspace (c : char) : bool :=
  if is_ascii c then in_range 9 13 c || in_range 28 32 c
  else ucd_isspace U c.

Definition isalnum (c : char) : bool :=
  if is_ascii c then in_range 48 57 c || in_range 65 90 c || in_range 97 122 c
  else ucd_isalnum U c.

(** [c.isupper()] for a single character *)
Definition isupper (c : char) : bool :=
  if is_ascii c then in_range 65 90 c else ucd_isupper U c.

Definition tolower (c : char) : list char :=
  if is_ascii c then [if in_range 65 90 c then c + 32 else c]
  else ucd_tolower U c.

Definition totitle (c : char) : list char :=
  if is_ascii c then [if in_range 97 122 c then c - 32 else c]
  else ucd_totitle U c.

(** CPython's [handle_capital_sigma]: U+03A3 becomes a final sigma when it
    follows a cased letter and is not followed by one, case-ignorable
    characters being skipped on both sides. *)
Fixpoint skip_ignorable (s : pystr) : pystr :=
  match s with
  | c :: s' => if ucd_case_ignorable U c then skip_ignorable s' else s
  | [] => []
  end.

Definition final_sigma (before_rev after : pystr) : bool :=
  match skip_ignorable before_rev with
  | c :: _ =>
      ucd_cased U c &&
      match skip_ignorable after with
      | d :: _ => negb (ucd_cased U d)
      | [] => true
      end
  | [] => false
  end.

(** CPython's [lower_ucs4] *)
Definition lower_ucs4 (before_rev : pystr) (c : char) (after : pystr)
  : list char :=
  if c =? 0x3A3 then [if final_sigma before_rev after then 0x3C2 else 0x3C3]
  else tolower c.

Fixpoint lower_from (before_rev : pystr) (s : pystr) : pystr :=
  match s with
  | [] => []
  | c :: s' => lower_ucs4 before_rev c s' ++ lower_from (c :: before_rev) s'
  end.

(** [s.lower()] *)
Definition lower (s : pystr) : pystr := lower_from [] s.

(** [s.capitalize()]: title-case the first character, lower-case the rest. *)
Definition capitalize (s : pystr) : pystr :=
  match s with
  | [] => []
  | c :: s' => totitle c ++ lower_from [c] s'
  end.

(** [s.split()]: the maximal runs of non-whitespace characters. *)
Fixpoint split_from (word_rev : pystr) (s : pystr) : list pystr :=
  match s with
  | [] => match word_rev with [] => [] | _ => [rev word_rev] end
  | c :: s' =>
      if isspace c then
        match word_rev with
        | [] => split_from [] s'
        | _ => rev word_rev :: split_from [] s'
        end
      else split_from (c :: word_rev) s'
  end.
Definition split (s : pystr) : list pystr := split_from [] s.

(** [s.strip()] *)
Fixpoint lstrip (s : pystr) : pystr :=
  match s with
  | c :: s' => if isspace c then lstrip s' else s
  | [] => []
  end.
Definition rstrip (s : pystr) : pystr := rev (lstrip (rev s)).
Definition strip (s : pystr) : pystr := rstrip (lstrip s).

End Builtins.

(** [sep.join(words)] *)
Fixpoint join (sep : pystr) (words : list pystr) : pystr :=
  match words with
  | [] => []
  | [w] => w
  | w :: ws => w ++ sep ++ join sep ws
  end.

(** [old in s] and [s.replace(old, new)] for a non-empty [old]; occurrences
    are replaced from left to right and do not overlap. *)
Definition startswith (old s : pystr) : bool :=
  bool_decide (take (length old) s = old).

Fixpoint contains (old s : pystr) : bool :=
  startswith old s || match s with [] => false | _ :: s' => contains old s' end.

Fixpoint replace_from (old new : pystr) (skip : nat) (s : pystr) : pystr :=
  match s with
  | [] => []
  | c :: s' =>
      match skip with
      | S k => replace_from old new k s'
      | O =>
          if startswith old s
          then new ++ replace_from old new (length old - 1) s'
          else c :: replace_from old new 0 s'
      end
  end.
Definition replace (old new s : pystr) : pystr := replace_from old new 0 s.

End Py.
Export Py.

(** ** hashlib *)

Module Hashlib.

Definition w32 (x : N) : N := N.land x 0xFFFFFFFF.
Definition add32 (x y : N) : N := w32 (x + y).
Definition not32 (x : N) : N := N.lxor (w32 x) 0xFFFFFFFF.
Definition rotl32 (x n : N) : N :=
  w32 (N.lor (N.shiftl x n) (N.shiftr (w32 x) (32 - n))).
Definition rotr32 (x n : N) : N :=
  w32 (N.lor (N.shiftr (w32 x) n) (N.shiftl x (32 - n))).

(** Split a byte string into chunks of [k] bytes. *)
Fixpoint chunks (k : nat) (fuel : nat) (bs : list N) : list (list N) :=
  match fuel with
  | O => []
  | S fuel' =>
      match bs with
      | [] => []
      | _ => take k bs :: chunks k fuel' (drop k bs)
      end
  end.

Definition le_bytes (k : nat) (x : N) : list N :=
  map (fun i => N.land (N.shiftr x (8 * N.of_nat i)) 0xFF) (seq 0 k).
Definition be_bytes (k : nat) (x : N) : list N := rev (le_bytes k x).
Definition le_word (bs : list N) : N :=
  foldr (fun b acc => b + 256 * acc) 0 bs.
Definition be_word (bs : list N) : N :=
  foldl (fun acc b => 256 * acc + b) 0 bs.

(** Merkle–Damgård padding shared by MD5 and SHA-256: a [0x80] byte, zeros up
    to 56 modulo 64, then the bit length on eight bytes. *)
Definition pad (len_bytes : nat -> N -> list N) (msg : list N) : list N :=
  let n := length msg in
  let zeros := ((119 - n mod 64) mod 64)%nat in
  msg ++ [0x80] ++ repeat 0 zeros
      ++ len_bytes 8%nat (N.land (8 * N.of_nat n) 0xFFFFFFFFFFFFFFFF).

Definition hex_digit (d : N) : char :=
  if d <? 10 then 48 + d else 87 + d.
Definition hex_byte (b : N) : pystr :=
  [hex_digit (N.shiftr b 4); hex_digit (N.land b 0xF)].
Definition hexlify (bs : list N) : pystr := flat_map hex_byte bs.

(** *** MD5 (RFC 1321) *)

Definition md5_K : list N :=
  [ 0xd76aa478; 0xe8c7b756; 0x242070db; 0xc1bdceee;
    0xf57c0faf; 0x4787c62a; 0xa8304613; 0xfd469501;
    0x698098d8; 0x8b44f7af; 0xffff5bb1; 0x895cd7be;
    0x6b901122; 0xfd987193; 0xa679438e; 0x49b40821;
    0xf61e2562; 0xc040b340; 0x265e5a51; 0xe9b6c7aa;
    0xd62f105d; 0x02441453; 0xd8a1e681; 0xe7d3fbc8;
    0x21e1cde6; 0xc33707d6; 0xf4d50d87; 0x455a14ed;
    0xa9e3e905; 0xfcefa3f8; 0x676f02d9; 0x8d2a4c8a;
    0xfffa3942; 0x8771f681; 0x6d9d6122; 0xfde5380c;
    0xa4beea44; 0x4bdecfa9; 0xf6bb4b60; 0xbebfbc70;
    0x289b7ec6; 0xeaa127fa; 0xd4ef3085; 0x04881d05;
    0xd9d4d039; 0xe6db99e5; 0x1fa27cf8; 0xc4ac5665;
    0xf4292244; 0x432aff97; 0xab9423a7; 0xfc93a039;
    0x655b59c3; 0x8f0ccc92; 0xffeff47d; 0x85845dd1;
    0x6fa87e4f; 0xfe2ce6e0; 0xa3014314; 0x4e0811a1;
    0xf7537e82; 0xbd3af235; 0x2ad7d2bb; 0xeb86d391 ].

Definition md5_S : list N :=
  [ 7; 12; 17; 22; 7; 12; 17; 22; 7; 12; 17; 22; 7; 12; 17; 22;
    5; 9; 14; 20; 5; 9; 14; 20; 5; 9; 14; 20; 5; 9; 14; 20;
    4; 11; 16; 23; 4; 11; 16; 23; 4; 11; 16; 23; 4; 11; 16; 23;
    6; 10; 15; 21; 6; 10; 15; 21; 6; 10; 15; 21; 6; 10; 15; 21 ].

Definition md5_state : Type := N * N * N * N.

Definition md5_round (M : list N) (st : md5_state) (i : nat) : md5_state :=
  let '(A, B, C, D) := st in
  let '(F, g) :=
    if (i <? 16)%nat then
      (N.lor (N.land B C) (N.land (not32 B) D), i)
    else if (i <? 32)%nat then
      (N.lor (N.land D B) (N.land (not32 D) C), ((5 * i + 1) mod 16)%nat)
    else if (i <? 48)%nat then
      (N.lxor B (N.lxor C D), ((3 * i + 5) mod 16)%nat)
    else
      (N.lxor C (N.lor B (not32 D)), ((7 * i) mod 16)%nat) in
  let F' := add32 (add32 (add32 F A) (nth i md5_K 0)) (nth g M 0) in
  (D, add32 B (rotl32 F' (nth i md5_S 0)), B, C).

Definition md5_block (st : md5_state) (block : list N) : md5_state :=
  let M := map le_word (chunks 4 16 block) in
  let '(a0, b0, c0, d0) := st in
  let '(A, B, C, D) := foldl (md5_round M) st (seq 0 64) in
  (add32 a0 A, add32 b0 B, add32 c0 C, add32 d0 D).

Definition md5_digest (msg : list N) : list N :=
  let padded := pad le_bytes msg in
  let '(a, b, c, d) :=
    foldl md5_block (0x67452301, 0xefcdab89, 0x98badcfe, 0x10325476)
          (chunks 64 (length padded) padded) in
  le_bytes 4 a ++ le_bytes 4 b ++ le_bytes 4 c ++ le_bytes 4 d.

(** [hashlib.md5(bs).hexdigest()] *)
Definition md5_hexdigest (bs : list N) : pystr := hexlify (md5_digest bs).

(** *** SHA-256 (FIPS 180-4); the round constants are given in decimal. *)

Definition sha256_K : list N :=
  [ 1116352408; 1899447441; 3049323471; 3921009573; 961987163; 1508970993;
    2453635748; 2870763221; 3624381080; 310598401; 607225278; 1426881987;
    1925078388; 2162078206; 2614888103; 3248222580; 3835390401; 4022224774;
    264347078; 604807628; 770255983; 1249150122; 1555081692; 1996064986;
    2554220882; 2821834349; 2952996808; 3210313671; 3336571891; 3584528711;
    113926993; 338241895; 666307205; 773529912; 1294757372; 1396182291;
    1695183700; 1986661051; 2177026350; 2456956037; 2730485921; 2820302411;
    3259730800; 3345764771; 3516065817; 3600352804; 4094571909; 275423344;
    430227734; 506948616; 659060556; 883997877; 958139571; 1322822218;
    1537002063; 1747873779; 1955562222; 2024104815; 2227730452; 2361852424;
    2428436474; 2756734187; 3204031479; 3329325298 ].

Definition sha256_H0 : list N :=
  [ 1779033703; 3144134277; 1013904242; 2773480762;
    1359893119; 2600822924; 528734635; 1541459225 ].

Definition xor3 (x y z : N) : N := N.lxor x (N.lxor y z).

Definition sha256_extend (W : list N) (t : nat) : list N :=
  let w15 := nth (t - 15) W 0 in
  let w2 := nth (t - 2) W 0 in
  let s0 := xor3 (rotr32 w15 7) (rotr32 w15 18) (N.shiftr w15 3) in
  let s1 := xor3 (rotr32 w2 17) (rotr32 w2 19) (N.shiftr w2 10) in
  W ++ [add32 (add32 (nth (t - 16) W 0) s0) (add32 (nth (t - 7) W 0) s1)].

Definition sha256_round (W : list N) (v : list N) (t : nat) : list N :=
  match v with
  | [a; b; c; d; e; f; g; h] =>
      let S1 := xor3 (rotr32 e 6) (rotr32 e 11) (rotr32 e 25) in
      let ch := N.lxor (N.land e f) (N.land (not32 e) g) in
      let t1 := add32 (add32 (add32 h S1) (add32 ch (nth t sha256_K 0)))
                      (nth t W 0) in
      let S0 := xor3 (rotr32 a 2) (rotr32 a 13) (rotr32 a 22) in
      let maj := xor3 (N.land a b) (N.land a c) (N.land b c) in
      [add32 t1 (add32 S0 maj); a; b; c; add32 d t1; e; f; g]
  | _ => v
  end.

Definition sha256_block (H : list N) (block : list N) : list N :=
  let W := foldl sha256_extend (map be_word (chunks 4 16 block)) (seq 16 48) in
  zip_with add32 H (foldl (sha256_round W) H (seq 0 64)).

Definition sha256_digest (msg : list N) : list N :=
  let padded := pad be_bytes msg in
  flat_map (be_bytes 4)
           (foldl sha256_block sha256_H0 (chunks 64 (length padded) padded)).

(** [hashlib.sha256(bs).hexdigest()] *)
Definition sha256_hexdigest (bs : list N) : pystr :=
  hexlify (sha256_digest bs).

End Hashlib.

(** ** re: a backtracking matcher

    Patterns are matched the way [re] does it: alternatives are tried from
    left to right, repetitions are greedy and give characters back on
    failure.  No pattern of the two modules can match the empty string, so
    [sub] and [findall] only deal with non-empty matches. *)

Module Re.

Inductive regex : Type :=
| Cls (p : char -> bool)     (* one character of a class *)
| Bnd                        (* \b *)
| Cat (r1 r2 : regex)
| Alt (r1 r2 : regex)        (* r1|r2 *)
| Opt (r : regex)            (* r? *)
| Rep (m : nat) (r : regex). (* r{m,} ; r+ is r{1,} *)

Definition one_of (cs : string) (c : char) : bool :=
  bool_decide (c ∈ str cs).

Fixpoint Lit_chars (cs : pystr) : regex :=
  match cs with
  | [] => Rep 0 (Cls (fun _ => false))
  | [c] => Cls (N.eqb c)
  | c :: cs' => Cat (Cls (N.eqb c)) (Lit_chars cs')
  end.
Definition Lit (cs : string) : regex := Lit_chars (str cs).

Section Engine.
Context (U : UCD).

(** [\w]: alphanumeric or underscore *)
Definition isword (c : char) : bool := isalnum U c || (c =? 95).

Definition at_boundary (prev : option char) (s : pystr) : bool :=
  xorb (from_option isword false prev) (from_option isword false (head s)).

(** A greedy repetition: iterate [body] as long as it consumes text, then
    fall back, one iteration at a time, to [k] once [m] iterations are done. *)
Fixpoint rep_loop
         (body : option char -> pystr ->
                 (option char -> pystr -> option pystr) -> option pystr)
         (m : nat) (k : option char -> pystr -> option pystr)
         (fuel cnt : nat) (prev : option char) (s : pystr) : option pystr :=
  match fuel with
  | O => None
  | S fuel' =>
      match body prev s
              (fun prev' s' =>
                 if (length s' <? length s)%nat
                 then rep_loop body m k fuel' (S cnt) prev' s' else None) with
      | Some rest => Some rest
      | None => if (m <=? cnt)%nat then k prev s else None
      end
  end.

(** [exec r prev s k] matches [r] at the front of [s] ([prev] is the
    character before it) and hands the rest of the text to [k]. *)
Fixpoint exec (r : regex) (prev : option char) (s : pystr)
         (k : option char -> pystr -> option pystr) {struct r}
  : option pystr :=
  match r with
  | Cls p =>
      match s with
      | c :: s' => if p c then k (Some c) s' else None
      | [] => None
      end
  | Bnd => if at_boundary prev s then k prev s else None
  | Cat r1 r2 => exec r1 prev s (fun prev' s' => exec r2 prev' s' k)
  | Alt r1 r2 =>
      match exec r1 prev s k with
      | Some rest => Some rest
      | None => exec r2 prev s k
      end
  | Opt r1 =>
      match exec r1 prev s k with
      | Some rest => Some rest
      | None => k prev s
      end
  | Rep m r1 => rep_loop (exec r1) m k (S (length s)) 0%nat prev s
  end.

(** The text left after the match of [r] that starts here, if there is one. *)
Definition match_at (r : regex) (prev : option char) (s : pystr)
  : option pystr :=
  exec r prev s (fun _ rest => Some rest).

(** [re.sub(r, repl, s)]; [repl] receives the matched text, which is how
    the group references of the replacement templates are resolved. *)
Fixpoint sub_from (r : regex) (repl : pystr -> pystr) (fuel : nat)
         (prev : option char) (s : pystr) : pystr :=
  match fuel, s with
  | S fuel', c :: s' =>
      match match_at r prev s with
      | Some rest =>
          let matched := take (length s - length rest) s in
          match matched with
          | [] => c :: sub_from r repl fuel' (Some c) s'
          | _ => repl matched ++ sub_from r repl fuel' (last matched) rest
          end
      | None => c :: sub_from r repl fuel' (Some c) s'
      end
  | _, _ => s
  end.
Definition sub (r : regex) (repl : pystr -> pystr) (s : pystr) : pystr :=
  sub_from r repl (length s) None s.

(** [re.findall(r, s)] for a pattern without groups *)
Fixpoint findall_from (r : regex) (fuel : nat) (prev : option char)
         (s : pystr) : list pystr :=
  match fuel, s with
  | S fuel', c :: s' =>
      match match_at r prev s with
      | Some rest =>
          let matched := take (length s - length rest) s in
          match matched with
          | [] => findall_from r fuel' (Some c) s'
          | _ => matched :: findall_from r fuel' (last matched) rest
          end
      | None => findall_from r fuel' (Some c) s'
      end
  | _, _ => []
  end.
Definition findall (r : regex) (s : pystr) : list pystr :=
  findall_from r (length s) None s.

End Engine.
End Re.
Export Re.

(** ** src/utils/text_normalization.py *)

Module TextNormalization.

(** The entries of the [HINDI_ROMANIZED_NORMALIZATIONS] literal, in source
    order; a key written twice keeps its last value, as in a Python dict. *)
Definition HINDI_ROMANIZED_entries : list (string * string) :=
  [
    ("namaste", "namaste"); ("namaskar", "namaskar");
    ("dhanyavaad", "dhanyavad"); ("dhanyavad", "dhanyavad");
    ("thanks", "thanks"); ("shukriya", "shukriya"); ("shukria", "shukriya");
    ("bhai", "bhai"); ("bhaii", "bhai"); ("bhaiya", "bhaiya");
    ("bhaiyya", "bhaiya"); ("yaar", "yaar"); ("yar", "yaar");
    ("yaara", "yara"); ("hai", "hai"); ("he", "hai"); ("hain", "hain");
    ("hoon", "hoon"); ("hun", "hoon"); ("hu", "hoon"); ("nahi", "nahi");
    ("nahin", "nahi"); ("nai", "nahi"); ("nhi", "nahi"); ("kya", "kya");
    ("kia", "kya"); ("kyaa", "kya"); ("mein", "mein"); ("main", "mein");
    ("me", "mein"); ("aap", "aap"); ("aapka", "aapka"); ("aapki", "aapki");
    ("kar", "kar"); ("karo", "karo"); ("karna", "karna"); ("karta", "karta");
    ("tha", "tha"); ("thi", "thi"); ("the", "the"); ("thee", "the");
    ("koi", "koi"); ("kisi", "kisi"); ("kisiko", "kisiko"); ("bhi", "bhi");
    ("b", "bhi"); ("toh", "toh"); ("to", "toh"); ("kuch", "kuch");
    ("kuchh", "kuch"); ("kucch", "kuch"); ("bahut", "bahut");
    ("bohot", "bahut"); ("bhot", "bahut"); ("acha", "acha");
    ("accha", "acha"); ("achha", "acha"); ("achchha", "acha");
    ("bura", "bura"); ("buraa", "bura"); ("matlab", "matlab");
    ("mtlb", "matlab"); ("matlb", "matlab"); ("yeh", "yeh"); ("ye", "yeh");
    ("yee", "yeh"); ("woh", "woh"); ("wo", "woh"); ("vo", "woh");
    ("kahan", "kahan"); ("kaha", "kaha"); ("kahaan", "kahan");
    ("kaise", "kaise"); ("kese", "kaise"); ("kaese", "kaise");
    ("kyun", "kyun"); ("kyu", "kyun"); ("kyon", "kyun"); ("why", "kyun");
    ("abhi", "abhi"); ("abi", "abhi"); ("abhee", "abhi"); ("log", "log");
    ("lok", "log"); ("loog", "log"); ("loag", "log"); ("sahi", "sahi");
    ("sahee", "sahi"); ("shi", "sahi"); ("galat", "galat");
    ("ghalat", "galat"); ("glat", "galat"); ("dekho", "dekho");
    ("dekh", "dekh"); ("dekhna", "dekhna"); ("suno", "suno"); ("sun", "sun");
    ("sunna", "sunna"); ("sunna", "sunna"); ("samjho", "samajho");
    ("samajh", "samajh"); ("smjho", "samajho"); ("dost", "dost");
    ("dosth", "dost"); ("doost", "dost"); ("pakka", "pakka");
    ("paka", "pakka"); ("pukka", "pakka"); ("chalo", "chalo");
    ("chal", "chal"); ("chlo", "chalo"); ("theek", "theek");
    ("thik", "theek"); ("thek", "theek"); ("accha", "acha");
    ("achha", "acha") ].

Definition dict_of (entries : list (string * string)) : gmap pystr pystr :=
  foldl (fun m kv => <[str kv.1 := str kv.2]> m) ∅ entries.

Definition HINDI_ROMANIZED_NORMALIZATIONS : gmap pystr pystr :=
  dict_of HINDI_ROMANIZED_entries.

Definition lower_az : char -> bool := in_range 97 122.
Definition upper_AZ : char -> bool := in_range 65 90.
Definition digit_09 : char -> bool := in_range 48 57.
Definition hex_class (c : char) : bool :=
  digit_09 c || in_range 97 102 c || in_range 65 70 c.

(** [(?:[a-zA-Z]|[0-9]|[$-_@.&+]|[!*\\(\\),]|(?:%[0-9a-fA-F][0-9a-fA-F]))] *)
Definition url_char : regex :=
  Alt (Cls (fun c => lower_az c || upper_AZ c))
 (Alt (Cls digit_09)
 (Alt (Cls (fun c => in_range 36 95 c || one_of "@.&+" c))
 (Alt (Cls (one_of "!*\(\),"))
      (Cat (Lit "%") (Cat (Cls hex_class) (Cls hex_class)))))).

Definition URL_PATTERN : regex :=
  Alt (Cat (Lit "http") (Cat (Opt (Cls (one_of "s")))
            (Cat (Lit "://") (Rep 1 url_char))))
      (Cat (Lit "www.") (Rep 1 url_char)).

(** [\b[A-Za-z0-9._%+-]+@[A-Za-z0-9.-]+\.[A-Z|a-z]{2,}\b] *)
Definition EMAIL_PATTERN : regex :=
  Cat Bnd
 (Cat (Rep 1 (Cls (fun c => upper_AZ c || lower_az c || digit_09 c
                            || one_of "._%+-" c)))
 (Cat (Lit "@")
 (Cat (Rep 1 (Cls (fun c => upper_AZ c || lower_az c || digit_09 c
                            || one_of ".-" c)))
 (Cat (Lit ".")
 (Cat (Rep 2 (Cls (fun c => upper_AZ c || one_of "|" c || lower_az c)))
      Bnd))))).

Definition punct_class : char -> bool := one_of "!?.;,".

Definition emoji_class (c : char) : bool :=
  in_range 0x1F600 0x1F64F c || in_range 0x1F300 0x1F5FF c
  || in_range 0x1F680 0x1F6FF c || in_range 0x1F1E0 0x1F1FF c
  || in_range 0x2702 0x27B0 c || in_range 0x24C2 0x1F251 c.

Section Normalizer.
Context (U : UCD).

(** [@\w+] and [#\w+] *)
Definition MENTION_PATTERN : regex := Cat (Lit "@") (Rep 1 (Cls (isword U))).
Definition HASHTAG_PATTERN : regex := Cat (Lit "#") (Rep 1 (Cls (isword U))).
(** [([!?.;,]){2,}] and [\s+] *)
Definition MULTI_PUNCT_PATTERN : regex := Rep 2 (Cls punct_class).
Definition MULTI_SPACE_PATTERN : regex := Rep 1 (Cls (isspace U)).

(** [html.unescape] returns its argument when it holds no ['&']. *)
Definition html_unescape (text : pystr) : pystr :=
  if contains (str "&") text then html_charrefs U text else text.

Definition remove_html (text : pystr) : pystr :=
  let text := html_unescape text in
  (* re.sub(r'<[^>]+>', '', text) *)
  sub U (Cat (Lit "<") (Cat (Rep 1 (Cls (fun c => negb (c =? 62)))) (Lit ">")))
      (fun _ => []) text.

Definition remove_urls (text replace_with : pystr) : pystr :=
  sub U URL_PATTERN (fun _ => replace_with) text.

Definition remove_emails (text replace_with : pystr) : pystr :=
  sub U EMAIL_PATTERN (fun _ => replace_with) text.

Definition remove_mentions (text replace_with : pystr) : pystr :=
  sub U MENTION_PATTERN (fun _ => replace_with) text.

Definition remove_hashtags (text : pystr) (keep_text : bool) : pystr :=
  if keep_text then
    (* re.sub(r'#(\w+)', r'\1', text): group 1 is the match without '#' *)
    sub U HASHTAG_PATTERN (drop 1) text
  else sub U HASHTAG_PATTERN (fun _ => []) text.

Definition normalize_punctuation (text : pystr) : pystr :=
  (* MULTI_PUNCT_PATTERN.sub(r'\1', text): group 1 is the last mark matched *)
  let text := sub U MULTI_PUNCT_PATTERN
                  (fun m => drop (length m - 1) m) text in
  (* the two quote lines, with the literals that the file holds: the first
     replaces an ASCII double quote by itself, twice; the second is one call,
     whose first argument is the triple-quoted literal [, "'").replace(] *)
  let text := replace [34] [34] (replace [34] [34] text) in
  let text := replace ([44; 32; 34; 39; 34; 41] ++ str ".replace(") [39] text in
  let text := replace [0x2014] (str "-") (replace [0x2013] (str "-") text) in
  replace [0x2026] (str "...") text.

Definition normalize_whitespace (text : pystr) : pystr :=
  strip U (sub U MULTI_SPACE_PATTERN (fun _ => str " ") text).

(** ASCII text is returned as it is by [unicodedata.normalize]. *)
Definition normalize_unicode (text : pystr) : pystr :=
  if forallb is_ascii text then text else ucd_nfkc U text.

Definition category_C (c : char) : bool :=
  if is_ascii c then (c <? 32) || (c =? 127) else ucd_category_C U c.

Definition remove_control_characters (text : pystr) : pystr :=
  filter (fun c => negb (category_C c) || bool_decide (c ∈ [10; 13; 9])) text.

Definition normalize_word (word_dict : gmap pystr pystr) (word : pystr)
  : pystr :=
  let clean_word :=
    sub U (Cls (fun c => negb (isword U c))) (fun _ => []) (lower U word) in
  match word_dict !! clean_word with
  | Some normalized =>
      (* word[0] exists: split() yields no empty token *)
      let normalized :=
        if from_option (isupper U) false (head word)
        then capitalize U normalized else normalized in
      let punct := findall U (Rep 1 (Cls (fun c => negb (isword U c)))) word in
      match punct with
      | p0 :: _ => normalized ++ p0
      | [] => normalized
      end
  | None => word
  end.

Definition normalize_romanized_hindi (text : pystr)
           (word_dict : option (gmap pystr pystr)) : pystr :=
  let word_dict := default HINDI_ROMANIZED_NORMALIZATIONS word_dict in
  let words := split U text in
  join (str " ") (map (normalize_word word_dict) words).

Definition normalize_emoji (text : pystr) (keep : bool) : pystr :=
  if keep then text
  else sub U (Rep 1 (Cls emoji_class)) (fun _ => []) text.

Record NormalizationConfig : Type := {
  remove_html_tags : bool;
  remove_url : bool;
  remove_email : bool;
  remove_mention : bool;
  normalize_hashtag : bool;
  normalize_punct : bool;
  normalize_ws : bool;
  normalize_unicode_chars : bool;
  normalize_hindi : bool;
  keep_emoji : bool;
  lowercase : bool
}.

(** The default values of [normalize_text]'s keyword arguments *)
Definition default_config : NormalizationConfig :=
  {| remove_html_tags := true; remove_url := true; remove_email := true;
     remove_mention := true; normalize_hashtag := true;
     normalize_punct := true; normalize_ws := true;
     normalize_unicode_chars := true; normalize_hindi := true;
     keep_emoji := true; lowercase := false |}.

Definition step (enabled : bool) (f : pystr -> pystr) (text : pystr) : pystr :=
  if enabled then f text else text.

Definition normalize_text (text : pyval) (cfg : NormalizationConfig) : pystr :=
  match text with
  | PyStr text =>
      let text := step (remove_html_tags cfg) remove_html text in
      let text := step (remove_url cfg)
                       (fun t => remove_urls t (str "[URL]")) text in
      let text := step (remove_email cfg)
                       (fun t => remove_emails t (str "[EMAIL]")) text in
      let text := step (remove_mention cfg)
                       (fun t => remove_mentions t (str "[MENTION]")) text in
      let text := step (normalize_hashtag cfg)
                       (fun t => remove_hashtags t true) text in
      let text := step (normalize_unicode_chars cfg)
                       (fun t => remove_control_characters
                                   (normalize_unicode t)) text in
      let text := normalize_emoji text (keep_emoji cfg) in
      let text := step (normalize_punct cfg) normalize_punctuation text in
      let text := step (normalize_hindi cfg)
                       (fun t => normalize_romanized_hindi t None) text in
      let text := step (normalize_ws cfg) normalize_whitespace text in
      step (lowercase cfg) (lower U) text
  | _ => []
  end.

(** The default gold list of [validate_normalizations] *)
Definition default_gold_list : list (pystr * pystr) :=
  (fun io : string * string => (str io.1, str io.2)) <$>
  [ ("bhai", "bhai"); ("bhaii", "bhai"); ("yar", "yaar"); ("nai", "nahi");
    ("kia", "kya"); ("main", "mein"); ("bohot", "bahut"); ("achha", "acha");
    ("kese", "kaise"); ("kyu", "kyun");
    ("Check https://example.com here", "Check [URL] here");
    ("www.example.com is good", "[URL] is good");
    ("What!!!!!", "What!"); ("Really???", "Really?");
    ("#bollywood rocks", "bollywood rocks");
    ("Too   many    spaces", "Too many spaces");
    ("Yar  kya   baat  hai!!!", "yaar kya baat hai!") ]%string.

(** [validate_normalizations]: the share of entries, in per cent, that
    [normalize_text] maps to the expected text *)
Definition validate_normalizations (gold_list : option (list (pystr * pystr)))
  : result Q :=
  let gold_list := default default_gold_list gold_list in
  let correct :=
    length (filter (fun io => normalize_text (PyStr io.1) default_config = io.2)
                   gold_list) in
  let total := length gold_list in
  match py_div correct total with
  | Ok share => Ok (Qmult share (Qmake 100 1))
  | Raise e => Raise e
  end.

(** The presets of [get_normalizer], keyed by name *)
Definition presets : gmap pystr NormalizationConfig :=
  <[str "code_mixed" :=
      {| remove_html_tags := true; remove_url := true; remove_email := true;
         remove_mention := true; normalize_hashtag := true;
         normalize_punct := true; normalize_ws := true;
         normalize_unicode_chars := true; normalize_hindi := true;
         keep_emoji := true; lowercase := false |}]>
  (<[str "minimal" :=
      {| remove_html_tags := true; remove_url := false; remove_email := false;
         remove_mention := false; normalize_hashtag := false;
         normalize_punct := true; normalize_ws := true;
         normalize_unicode_chars := true; normalize_hindi := false;
         keep_emoji := true; lowercase := false |}]>
  (<[str "strict" :=
      {| remove_html_tags := true; remove_url := true; remove_email := true;
         remove_mention := true; normalize_hashtag := false;
         normalize_punct := true; normalize_ws := true;
         normalize_unicode_chars := true; normalize_hindi := true;
         keep_emoji := false; lowercase := true |}]>
  (<[str "default" :=
      {| remove_html_tags := true; remove_url := true; remove_email := true;
         remove_mention := true; normalize_hashtag := true;
         normalize_punct := true; normalize_ws := true;
         normalize_unicode_chars := true; normalize_hindi := true;
         keep_emoji := true; lowercase := false |}]> ∅))).

(** [get_normalizer(preset)]: [presets.get(preset, presets['default'])],
    then the closure over [normalize_text] *)
Definition get_normalizer (preset : pystr) : result (pyval -> pystr) :=
  match presets !! str "default" with
  | Some fallback =>
      let config := default fallback (presets !! preset) in
      Ok (fun text => normalize_text text config)
  | None => Raise (KeyError "default")
  end.

End Normalizer.
End TextNormalization.
Export TextNormalization.

(** A table that knows nothing beyond ASCII, for running the code on ASCII
    inputs, where the table is never consulted. *)
Definition ascii_only : UCD :=
  {| ucd_isspace := fun _ => false; ucd_isalnum := fun _ => false;
     ucd_isupper := fun _ => false; ucd_tolower := fun c => [c];
     ucd_totitle := fun c => [c]; ucd_cased := fun _ => false;
     ucd_case_ignorable := fun _ => false; ucd_category_C := fun _ => false;
     ucd_nfkc := fun s => s; html_charrefs := fun s => s |}.

(** ** pandas: data frames as objects in a store *)

Module Pandas.

(** A frame has named columns and labelled rows; the labels are those of
    [df.index].  A frame built without an index gets the labels 0, 1, 2, ...;
    a frame obtained by filtering keeps the labels of the rows it retains. *)
Record DataFrame : Type := {
  df_columns : list string;
  df_rows : list (Z * gmap string pyval)
}.

(** [len(df)] *)
Definition len (df : DataFrame) : nat := length (df_rows df).

Definition df_index (df : DataFrame) : list Z := fst <$> df_rows df.

(** [pd.DataFrame({...})]: default [RangeIndex] *)
Definition range_index (n : nat) : list Z := Z.of_nat <$> seq 0 n.

(** [df[col]] *)
Definition get_column (df : DataFrame) (col : string) : result (list pyval) :=
  if bool_decide (col ∈ df_columns df)
  then Ok ((fun r => default PyNaN (r.2 !! col)) <$> df_rows df)
  else Raise (KeyError col).

(** [df[col] = values], the values carrying the index of [df] *)
Definition set_column (df : DataFrame) (col : string) (values : list pyval)
  : DataFrame :=
  {| df_columns := if bool_decide (col ∈ df_columns df) then df_columns df
                   else df_columns df ++ [col];
     df_rows := zip_with (fun r v => (r.1, <[col := v]> r.2))
                         (df_rows df) values |}.

(** [df.drop(columns=[col])] *)
Definition drop_column (df : DataFrame) (col : string) : DataFrame :=
  {| df_columns := filter (fun c => c ≠ col) (df_columns df);
     df_rows := (fun r => (r.1, delete col r.2)) <$> df_rows df |}.

(** [df[mask]] for a boolean mask *)
Fixpoint select {A : Type} (mask : list bool) (xs : list A) : list A :=
  match mask, xs with
  | b :: mask', x :: xs' => if b then x :: select mask' xs' else select mask' xs'
  | _, _ => []
  end.
Definition df_select (mask : list bool) (df : DataFrame) : DataFrame :=
  {| df_columns := df_columns df; df_rows := select mask (df_rows df) |}.

(** The [keep] argument: ['first'], ['last'] or [False] *)
Inductive Keep : Type := keep_first | keep_last | keep_False.

(** [Series.duplicated(keep=...)] *)
Fixpoint duplicated_first (seen : list pyval) (values : list pyval)
  : list bool :=
  match values with
  | [] => []
  | v :: vs => bool_decide (v ∈ seen) :: duplicated_first (v :: seen) vs
  end.
Fixpoint duplicated_all (seen : list pyval) (values : list pyval)
  : list bool :=
  match values with
  | [] => []
  | v :: vs => bool_decide (v ∈ seen ∨ v ∈ vs) :: duplicated_all (v :: seen) vs
  end.
Definition duplicated (keep : Keep) (values : list pyval) : list bool :=
  match keep with
  | keep_first => duplicated_first [] values
  | keep_last => rev (duplicated_first [] (rev values))
  | keep_False => duplicated_all [] values
  end.

(** [mask.sum()] *)
Definition sum_mask (mask : list bool) : nat := length (filter (eq true) mask).

(** [df.drop_duplicates(subset=[col], keep=keep)] *)
Definition drop_duplicates (df : DataFrame) (col : string) (keep : Keep)
  : result DataFrame :=
  match get_column df col with
  | Ok values => Ok (df_select (negb <$> duplicated keep values) df)
  | Raise e => Raise e
  end.

(** [df.index.isin(labels)] for a set of non-negative integers *)
Definition index_isin (df : DataFrame) (labels : gset nat) : list bool :=
  (fun l => bool_decide (0 <= l)%Z && bool_decide (Z.to_nat l ∈ labels))
    <$> df_index df.

(** *** The store

    Frames are objects: a variable holds a reference, assignment to a
    column updates the object in place, and [copy], [drop], [df[mask]] and
    [drop_duplicates] build new objects. *)
Abbreviation store := (list DataFrame).
Definition ref := nat.

Definition M (A : Type) : Type := store -> store * result A.

Definition ret {A} (a : A) : M A := fun h => (h, Ok a).
Definition raise {A} (e : exn) : M A := fun h => (h, Raise e).
Definition bind {A B} (m : M A) (k : A -> M B) : M B :=
  fun h => match m h with
           | (h', Ok a) => k a h'
           | (h', Raise e) => (h', Raise e)
           end.
Definition lift {A} (r : result A) : M A := fun h => (h, r).

Definition load (l : ref) : M DataFrame :=
  fun h => match h !! l with
           | Some df => (h, Ok df)
           | None => (h, Raise (LibraryError "dangling reference"))
           end.
Definition store_at (l : ref) (df : DataFrame) : M unit :=
  fun h => (<[l := df]> h, Ok tt).
Definition new (df : DataFrame) : M ref :=
  fun h => (h ++ [df], Ok (length h)).

(** [df.copy()] *)
Definition copy (l : ref) : M ref := bind (load l) new.

End Pandas.
Export Pandas.

Notation "'let*' x ':=' m 'in' k" := (Pandas.bind m (fun x => k))
  (at level 10, x binder, m at level 100, k at level 200,
   format "'[v' 'let*'  x  ':='  m  'in' '/' k ']'").

(** ** src/utils/deduplication.py *)

Module Deduplication.

(** scikit-learn is outside the repository.  [tfidf_cosine texts] stands for
    [TfidfVectorizer(...).fit_transform(texts)] followed by
    [cosine_similarity(batch, tfidf_matrix)]: it is the exception raised by
    the vectoriser, or else the similarity of documents [i] and [j].
    Similarities are finite floating-point numbers, taken here as the
    rationals they denote. *)
Record Sklearn : Type := {
  tfidf_cosine : list pyval -> result (nat -> nat -> Q)
}.

Fixpoint mapM {A B} (f : A -> result B) (xs : list A) : result (list B) :=
  match xs with
  | [] => Ok []
  | x :: xs' =>
      match f x with
      | Ok y => match mapM f xs' with
                | Ok ys => Ok (y :: ys)
                | Raise e => Raise e
                end
      | Raise e => Raise e
      end
  end.

Section Dedup.
Context (U : UCD) (SK : Sklearn).

Definition compute_text_hash (text : pyval) (algorithm : pystr)
  : result pystr :=
  match text with
  | PyStr text =>
      let normalized := join (str " ") (split U (lower U text)) in
      if bool_decide (algorithm = str "md5") then
        match encode_utf8 normalized with
        | Ok bytes => Ok (Hashlib.md5_hexdigest bytes)
        | Raise e => Raise e
        end
      else if bool_decide (algorithm = str "sha256") then
        match encode_utf8 normalized with
        | Ok bytes => Ok (Hashlib.sha256_hexdigest bytes)
        | Raise e => Raise e
        end
      else Raise (ValueError (str "Unknown algorithm: " ++ algorithm))
  | _ => Ok []
  end.

Definition remove_exact_duplicates (df : ref) (text_col : string)
           (keep : Keep) : M (ref * nat) :=
  (* df['_text_hash'] = df[text_col].apply(compute_text_hash) *)
  let* d := load df in
  let* texts := lift (get_column d text_col) in
  let* hashes := lift (mapM (fun t => compute_text_hash t (str "md5")) texts) in
  let* _ := store_at df (set_column d "_text_hash" (PyStr <$> hashes)) in
  (* n_duplicates = df['_text_hash'].duplicated(keep=keep).sum() *)
  let* d := load df in
  let* column := lift (get_column d "_text_hash") in
  let n_duplicates := sum_mask (duplicated keep column) in
  (* df_dedup = df.drop_duplicates(subset=['_text_hash'], keep=keep).copy() *)
  let* dropped := lift (drop_duplicates d "_text_hash" keep) in
  let* tmp := new dropped in
  let* df_dedup := copy tmp in
  (* df_dedup = df_dedup.drop(columns=['_text_hash']) *)
  let* d' := load df_dedup in
  let* df_dedup := new (drop_column d' "_text_hash") in
  (* n_duplicates/len(df)*100 divides a numpy integer: nan when len(df) is 0,
     not an exception *)
  ret (df_dedup, n_duplicates).

(** The state of the scan of [find_near_duplicates].  Each cluster is
    recorded together with the index whose row of similarities formed it. *)
Record scan_state : Type := {
  duplicate_clusters : list (nat * gset nat);
  processed : gset nat;
  n_comparisons : nat
}.

Definition batch_size : nat := 1000.

(** [range(0, n, step)] *)
Definition range_step (n step : nat) : list nat :=
  (fun k => k * step)%nat <$> seq 0 ((n + step - 1) / step)%nat.

(** The body of the inner loop; [similarities] is the block computed for
    the current batch. *)
Definition visit (similarities : nat -> nat -> Q) (threshold : Q)
           (n_samples : nat) (st : scan_state) (idx : nat * nat) : scan_state :=
  let '(local_idx, global_idx) := idx in
  if bool_decide (global_idx ∈ processed st) then st
  else
    (* np.where(similarities[local_idx] >= threshold)[0] *)
    let similar_indices :=
      filter (fun j => Qle_bool threshold (similarities local_idx j) = true)
             (seq 0 n_samples) in
    let similar_indices :=
      filter (fun j => j ≠ global_idx ∧ j ∉ processed st) similar_indices in
    match similar_indices with
    | [] => st
    | _ =>
        let cluster := {[global_idx]} ∪ list_to_set similar_indices in
        {| duplicate_clusters :=
             duplicate_clusters st ++ [(global_idx, cluster)];
           processed := processed st ∪ cluster;
           n_comparisons := n_comparisons st + length similar_indices |}
    end.

Definition scan_batch (sim : nat -> nat -> Q) (threshold : Q)
           (n_samples : nat) (st : scan_state) (i : nat) : scan_state :=
  let end_i := Nat.min (i + batch_size) n_samples in
  (* cosine_similarity(tfidf_matrix[i:end_i], tfidf_matrix) *)
  let similarities := fun local_idx j => sim (i + local_idx)%nat j in
  (* enumerate(range(i, end_i)) *)
  foldl (visit similarities threshold n_samples) st
        (zip (seq 0 (end_i - i)) (seq i (end_i - i))).

Definition scan (sim : nat -> nat -> Q) (threshold : Q) (n_samples : nat)
  : scan_state :=
  foldl (scan_batch sim threshold n_samples)
        {| duplicate_clusters := []; processed := ∅; n_comparisons := 0 |}
        (range_step n_samples batch_size).

(** [find_near_duplicates], keeping the query index of each cluster *)
Definition find_near_duplicates_trace (texts : list pyval) (threshold : Q)
  : result (list (nat * gset nat)) :=
  match texts with
  | [] => Ok []
  | _ =>
      match tfidf_cosine SK texts with
      | Raise (ValueError _) => Ok []
      | Raise e => Raise e
      | Ok sim => Ok (duplicate_clusters (scan sim threshold (length texts)))
      end
  end.

Definition find_near_duplicates (texts : list pyval) (threshold : Q)
  : result (list (gset nat)) :=
  match find_near_duplicates_trace texts threshold with
  | Ok clusters => Ok (snd <$> clusters)
  | Raise e => Raise e
  end.

(** [sorted(cluster)] *)
Definition sorted (cluster : gset nat) : list nat :=
  merge_sort Nat.le (elements cluster).

(** The indices one cluster contributes to [indices_to_remove] *)
Definition to_remove (keep : Keep) (cluster : gset nat) : list nat :=
  let sorted_cluster := sorted cluster in
  match keep with
  | keep_first => drop 1 sorted_cluster
  | keep_last => take (length sorted_cluster - 1) sorted_cluster
  | keep_False => []
  end.

Definition indices_to_remove (keep : Keep) (clusters : list (gset nat))
  : gset nat :=
  foldl (fun acc cluster => acc ∪ list_to_set (to_remove keep cluster))
        ∅ clusters.

Definition remove_near_duplicates (df : ref) (text_col : string)
           (threshold : Q) (keep : Keep) : M (ref * nat) :=
  let* d := load df in
  let* texts := lift (get_column d text_col) in
  let* clusters := lift (find_near_duplicates texts threshold) in
  let removed := indices_to_remove keep clusters in
  (* mask = ~df.index.isin(indices_to_remove); df_dedup = df[mask].copy() *)
  let mask := negb <$> index_isin d removed in
  let* tmp := new (df_select mask d) in
  let* df_dedup := copy tmp in
  (* len(indices_to_remove)/len(df)*100 *)
  let* _ := lift (py_div (size removed) (len d)) in
  ret (df_dedup, size removed).

Record Stats : Type := {
  original_size : nat;
  exact_duplicates_removed : nat;
  near_duplicates_removed : nat;
  final_size : nat;
  total_removed : Z;
  dedup_rate : Q
}.

Definition deduplicate_dataframe (df : ref) (text_col : string)
           (exact near : bool) (near_threshold : Q) (keep : Keep)
  : M (ref * Stats) :=
  let* d := load df in
  let original := len d in
  let* df_dedup := copy df in
  let* '(df_dedup, n_exact) :=
    if exact then remove_exact_duplicates df_dedup text_col keep
    else ret (df_dedup, 0%nat) in
  let* '(df_dedup, n_near) :=
    if near then remove_near_duplicates df_dedup text_col near_threshold keep
    else ret (df_dedup, 0%nat) in
  let* d' := load df_dedup in
  let final := len d' in
  let total := (Z.of_nat original - Z.of_nat final)%Z in
  (* (stats['total_removed'] / stats['original_size']) * 100 *)
  let* rate :=
    match original with
    | O => raise ZeroDivisionError
    | S _ => ret (Qmult (Qmake total (Pos.of_nat original)) (Qmake 100 1))
    end in
  ret (df_dedup,
       {| original_size := original; exact_duplicates_removed := n_exact;
          near_duplicates_removed := n_near; final_size := final;
          total_removed := total; dedup_rate := rate |}).

End Dedup.
End Deduplication.
Export Deduplication.

(** [pd.DataFrame({'text': texts})] *)
Definition text_frame (texts : list pyval) : DataFrame :=
  {| df_columns := ["text"%string];
     df_rows := zip (range_index (length texts))
                    ((fun t => {["text"%string := t]}) <$> texts) |}.

(** A vectoriser outcome in which every pair of documents has similarity 1,
    as it is for documents made of the same terms ("hello world" and
    "hello world!" both tokenise to hello, world, hello world). *)
Definition same_terms : Sklearn :=
  {| tfidf_cosine := fun _ => Ok (fun _ _ => Qmake 1 1) |}.

(** What exact deduplication leaves of the texts "hello world",
    "Hello   world", "hello world!": the rows labelled 0 and 2. *)
Definition frame_0_2 : DataFrame :=
  {| df_columns := ["text"%string];
     df_rows := [ (0%Z, {["text"%string := PyStr (str "hello world")]});
                  (2%Z, {["text"%string := PyStr (str "hello world!")]}) ] |}.

(** What exact deduplication leaves of the texts "hello world",
    "hello world", "goodbye moon", "hello world!": the rows labelled 0, 2
    and 3. *)
Definition frame_0_2_3 : DataFrame :=
  {| df_columns := ["text"%string];
     df_rows := [ (0%Z, {["text"%string := PyStr (str "hello world")]});
                  (2%Z, {["text"%string := PyStr (str "goodbye moon")]});
                  (3%Z, {["text"%string := PyStr (str "hello world!")]}) ] |}.

(** The vectoriser outcome for three documents of which the first and the
    third are made of the same terms and the second shares no term with
    them: similarity 1 between positions 0 and 2, 0 with position 1. *)
Definition first_third_alike : Sklearn :=
  {| tfidf_cosine := fun _ =>
       Ok (fun i j => if bool_decide (i = j) then Qmake 1 1
                      else if bool_decide ((i = 0 \/ i = 2)%nat
                                           /\ (j = 0 \/ j = 2)%nat)
                           then Qmake 1 1 else Qmake 0 1) |}.

(** What exact deduplication leaves of the texts "hello world",
    "hello world", "hello world!", "goodbye moon", "goodbye moon!": the
    rows labelled 0, 2, 3 and 4. *)
Definition frame_0_2_3_4 : DataFrame :=
  {| df_columns := ["text"%string];
     df_rows := [ (0%Z, {["text"%string := PyStr (str "hello world")]});
                  (2%Z, {["text"%string := PyStr (str "hello world!")]});
                  (3%Z, {["text"%string := PyStr (str "goodbye moon")]});
                  (4%Z, {["text"%string := PyStr (str "goodbye moon!")]}) ] |}.

(** The vectoriser outcome for documents that come in pairs made of the
    same terms, a pair sharing no term with another one: similarity 1
    between positions 2k and 2k+1, 0 between two pairs. *)
Definition pairs_alike : Sklearn :=
  {| tfidf_cosine := fun _ =>
       Ok (fun i j => if bool_decide (i `div` 2 = j `div` 2)%nat
                      then Qmake 1 1 else Qmake 0 1) |}.

(** Two rows in reverse order of their labels, as [df.iloc[::-1]] or a
    sort leaves them. *)
Definition frame_1_0 : DataFrame :=
  {| df_columns := ["text"%string];
     df_rows := [ (1%Z, {["text"%string := PyStr (str "hello world")]});
                  (0%Z, {["text"%string := PyStr (str "hello world!")]}) ] |}.

(** ** Vocabulary of the statements *)

(** Three documents, the first two alike and the third apart. *)
Definition two_alike : Sklearn :=
  {| tfidf_cosine := fun _ =>
       Ok (fun i j => if bool_decide (i = j) then Qmake 1 1
                      else if bool_decide ((i < 2)%nat /\ (j < 2)%nat)
                           then Qmake 1 1 else Qmake 0 1) |}.

(** A matrix that no cosine similarity produces: document 1 is similar to
    document 0, but not the other way round, nor to itself. *)
Definition one_sided : Sklearn :=
  {| tfidf_cosine := fun _ =>
       Ok (fun i j => if bool_decide (i = 1%nat /\ j = 0%nat)
                      then Qmake 1 1 else Qmake 0 1) |}.

(** Pairwise disjoint clusters: no index is in two of them. *)
Fixpoint pairwise_disjoint (cs : list (gset nat)) : Prop :=
  match cs with
  | [] => True
  | c :: cs' => Forall (fun c' => c ## c') cs' /\ pairwise_disjoint cs'
  end.

(** The inner loop body on row [g], with the similarities of the whole
    matrix rather than of a batch. *)
Definition visit_at (sim : nat -> nat -> Q) (thr : Q) (n : nat)
           (st : scan_state) (g : nat) : scan_state :=
  visit sim thr n st (g, g).

Section ScanVocabulary.
Context (sim : nat -> nat -> Q) (thr : Q) (n : nat).

(** [similarities[g][j] >= threshold] *)
Definition above (i j : nat) : Prop := (thr <= sim i j)%Q.

(** What holds after the rows below [k] have been visited. *)
Record scan_inv (k : nat) (st : scan_state) : Prop := {
  inv_processed :
    forall x, x ∈ processed st
              <-> exists q c, (q, c) ∈ duplicate_clusters st /\ x ∈ c;
  inv_disjoint : pairwise_disjoint (snd <$> duplicate_clusters st);
  inv_cluster :
    forall q c, (q, c) ∈ duplicate_clusters st ->
      q ∈ c /\ (q < k)%nat /\ (exists x, x ∈ c /\ x <> q)
      /\ forall x, x ∈ c -> x <> q -> (x < n)%nat /\ above q x;
  inv_visited :
    forall v, (v < k)%nat ->
      v ∈ processed st
      \/ forall j, (j < n)%nat -> j <> v -> above v j -> j ∈ processed st
}.

Definition candidates (st : scan_state) (g : nat) : list nat :=
  filter (fun j => j <> g /\ j ∉ processed st)
         (filter (fun j => Qle_bool thr (sim g j) = true) (seq 0 n)).

End ScanVocabulary.

(** The query row of every cluster is its smallest member. *)
Definition query_is_min (st : scan_state) : Prop :=
  forall q c x, (q, c) ∈ duplicate_clusters st -> x ∈ c -> (q <= x)%nat.

(** The longest prefix of [s] made of characters of the class, and what
    follows it. *)
Fixpoint run_of (p : char -> bool) (s : pystr) : pystr :=
  match s with
  | c :: s' => if p c then c :: run_of p s' else []
  | [] => []
  end.
Fixpoint after_run (p : char -> bool) (s : pystr) : pystr :=
  match s with
  | c :: s' => if p c then after_run p s' else s
  | [] => []
  end.

Definition head_is (p : char -> bool) (s : pystr) : bool :=
  from_option p false (head s).

(** Every run of the class shrinks to [emit] of its last character. *)
Fixpoint collapse (p : char -> bool) (emit : char -> pystr) (s : pystr)
  : pystr :=
  match s with
  | [] => []
  | c :: s' =>
      if p c then
        if head_is p s' then collapse p emit s'
        else emit c ++ collapse p emit s'
      else c :: collapse p emit s'
  end.

(** Every character of the class stands alone and is its own replacement. *)
Fixpoint settled (p : char -> bool) (emit : char -> pystr) (s : pystr)
  : Prop :=
  match s with
  | [] => True
  | c :: s' =>
      (p c = true -> emit c = [c] /\ head_is p s' = false)
      /\ settled p emit s'
  end.

(** A character that [str.lower] leaves alone. *)
Definition lower_fixed (U : UCD) (d : char) : Prop :=
  d <> 0x3A3 /\ tolower U d = [d].

(** What the proof of idempotence uses of the Unicode table: the lower-case
    mapping of a character consists of characters that are their own lower
    case, and so do the two small sigmas. *)
Definition lower_closed (U : UCD) : Prop :=
  (forall c, is_ascii c = false -> c <> 0x3A3 ->
             Forall (lower_fixed U) (ucd_tolower U c))
  /\ lower_fixed U 0x3C2 /\ lower_fixed U 0x3C3.

(** The dashes become hyphens. *)
Definition hyphenate (s : pystr) : pystr :=
  map (fun c => if c =? 0x2014 then 45 else c)
      (map (fun c => if c =? 0x2013 then 45 else c) s).


(** A computation that only adds objects to the store: every frame that
    existed before the call is the same after it. *)
Definition extends {A} (m : M A) : Prop :=
  forall h : store, exists ext, fst (m h) = h ++ ext.

(** A token as [str.split] yields them: not empty, no whitespace inside. *)
Definition wordy (U : UCD) (w : pystr) : Prop :=
  w <> [] /\ Forall (fun c => isspace U c = false) w.

(** The characters of [hexdigest()]: the digits and a to f. *)
Definition is_hex (c : char) : bool := in_range 48 57 c || in_range 97 102 c.

(** Three texts, the first two alike up to case and spacing, with the md5
    digests of "a b" and "c". *)
Definition sample_texts : list pyval :=
  [PyStr (str "a b"); PyStr (str "A  b"); PyStr (str "c")].
Definition sample_hashes : list pystr :=
  [str "0cc9cd4dd26c5137b675a0d819cb9ab0";
   str "0cc9cd4dd26c5137b675a0d819cb9ab0";
   str "4a8a08f09d37b73795649038408b5f33"].

(** Every row similar to the query row of a cluster is in that cluster or
    in one formed by the same or an earlier row. *)
Definition query_covers (sim : nat -> nat -> Q) (thr : Q) (n : nat)
           (st : scan_state) : Prop :=
  forall q c x,
    (q, c) ∈ duplicate_clusters st -> (x < n)%nat -> x <> q ->
    (thr <= sim q x)%Q ->
    exists q' c', (q', c') ∈ duplicate_clusters st /\ x ∈ c' /\ (q' <= q)%nat.

(** A vectoriser that finds no term in the documents, as for a corpus of
    stop words *)
Definition empty_vocabulary : Sklearn :=
  {| tfidf_cosine := fun _ =>
       Raise (ValueError
                (str "empty vocabulary; perhaps the documents only contain stop words"))
    |}.

(** [str.lower] on one ASCII character *)
Definition ascii_lower (c : char) : char :=
  if in_range 65 90 c then c + 32 else c.

(** The text without the '#' characters that stand directly before a word
    character *)
Fixpoint strip_hash_marks (U : UCD) (s : pystr) : pystr :=
  match s with
  | [] => []
  | c :: s' =>
      if (c =? 35) && head_is (isword U) s' then strip_hash_marks U s'
      else c :: strip_hash_marks U s'
  end.

(** * Test vectors for the hash functions *)

Example md5_empty :
  Hashlib.md5_hexdigest [] = str "d41d8cd98f00b204e9800998ecf8427e".
Proof. vm_compute. reflexivity. Qed.

Example md5_abc :
  Hashlib.md5_hexdigest (map N_of_ascii (list_ascii_of_string "abc"))
  = str "900150983cd24fb0d6963f7d28e17f72".
Proof. vm_compute. reflexivity. Qed.

Example md5_two_blocks :
  Hashlib.md5_hexdigest
    (str "12345678901234567890123456789012345678901234567890123456789012345678901234567890")
  = str "57edf4a22be3c955ac49da2e2107b67a".
Proof. vm_compute. reflexivity. Qed.

Example sha256_empty :
  Hashlib.sha256_hexdigest []
  = str "e3b0c44298fc1c149afbf4c8996fb92427ae41e4649b934ca495991b7852b855".
Proof. vm_compute. reflexivity. Qed.

Example sha256_abc :
  Hashlib.sha256_hexdigest (map N_of_ascii (list_ascii_of_string "abc"))
  = str "ba7816bf8f01cfea414140de5dae2223b00361a396177a9cb410ff61f20015ad".
Proof. vm_compute. reflexivity. Qed.

Example sha256_two_blocks :
  Hashlib.sha256_hexdigest
    (str "abcdbcdecdefdefgefghfghighijhijkijkljklmklmnlmnomnopnopq")
  = str "248d6a61d20638b8e5c026930c3e6039a33ce45964ff2167f6ecedd419db06c1".
Proof. vm_compute. reflexivity. Qed.

(** U+00E9, U+20AC and U+1F600 on two, three and four bytes; a lone
    surrogate is refused. *)
Example encode_utf8_multibyte :
  encode_utf8 [0xE9; 0x20AC; 0x1F600]
  = Ok [0xC3; 0xA9; 0xE2; 0x82; 0xAC; 0xF0; 0x9F; 0x98; 0x80]
  /\ encode_utf8 [0x61; 0xD800] = Raise UnicodeEncodeError.
Proof. split; vm_compute; reflexivity. Qed.

(** * The store *)

Section StoreSteps.
Context {A B : Type}.
Implicit Types (h : store) (k : A -> M B).

Lemma bind_ret (a : A) k h : bind (ret a) k h = k a h.
Proof. reflexivity. Qed.

Lemma bind_lift_Ok (a : A) k h : bind (lift (Ok a)) k h = k a h.
Proof. reflexivity. Qed.

Lemma bind_lift_Raise e k h : bind (lift (Raise e)) k h = (h, Raise e).
Proof. reflexivity. Qed.

Lemma bind_load l d (k : DataFrame -> M B) h :
  h !! l = Some d -> bind (load l) k h = k d h.
Proof. intros Hl. unfold bind, load. by rewrite Hl. Qed.

Lemma bind_new d (k : ref -> M B) h :
  bind (new d) k h = k (length h) (h ++ [d]).
Proof. reflexivity. Qed.

Lemma bind_store_at l d (k : unit -> M B) h :
  bind (store_at l d) k h = k tt (<[l := d]> h).
Proof. reflexivity. Qed.

Lemma bind_copy l d (k : ref -> M B) h :
  h !! l = Some d -> bind (copy l) k h = k (length h) (h ++ [d]).
Proof. intros Hl. unfold copy, bind, load, new. by rewrite Hl. Qed.

End StoreSteps.

Lemma lookup_new (h : store) (d : DataFrame) : (h ++ [d]) !! length h = Some d.
Proof. by rewrite lookup_app_r, Nat.sub_diag. Qed.

Lemma lookup_old (h : store) (d : DataFrame) (l : ref) :
  (l < length h)%nat -> (h ++ [d]) !! l = h !! l.
Proof. intros. by rewrite lookup_app_l. Qed.

(** * The normaliser on the gold list *)

(** C5. On "Yar  kya   baat  hai!!!" the default pipeline returns
    "Yaar kya baat hai!" with a capital Y, because the first token starts
    with an upper-case letter and the dictionary step capitalises its
    replacement.  The gold list of [validate_normalizations] expects
    "yaar kya baat hai!" for this input, its last entry, and this is the one
    entry of the seventeen that the function gets wrong. *)
Theorem normalize_text_gold_mixed (U : UCD) :
  normalize_text U (PyStr (str "Yar  kya   baat  hai!!!")) default_config
  = str "Yaar kya baat hai!"
  /\ last default_gold_list
     = Some (str "Yar  kya   baat  hai!!!", str "yaar kya baat hai!")
  /\ filter (fun io => normalize_text U (PyStr io.1) default_config <> io.2)
            default_gold_list
     = [(str "Yar  kya   baat  hai!!!", str "yaar kya baat hai!")]
  /\ validate_normalizations U None = Ok (Qmake 1600 17).
Proof. repeat split; vm_compute; reflexivity. Qed.

(** The patterns that the gold list does not exercise, on values obtained
    from [re]. *)
Example remove_emails_run (U : UCD) :
  remove_emails U (str "mail me at john.doe@example.co.uk now") (str "[EMAIL]")
  = str "mail me at [EMAIL] now".
Proof. vm_compute. reflexivity. Qed.

Example remove_html_run (U : UCD) :
  remove_html U (str "a <b>bold</b> <> x < y > z") = str "a bold <> x  z".
Proof. vm_compute. reflexivity. Qed.

Example remove_mentions_hashtags_run (U : UCD) :
  remove_hashtags U (remove_mentions U (str "hi @user_1, see #tag!")
                                     (str "[MENTION]")) true
  = str "hi [MENTION], see tag!".
Proof. vm_compute. reflexivity. Qed.

(** C8. A leading punctuation run is what gets attached when the token has
    one: "!yar" becomes "yaar!", and the quoted token ["Yar"] loses its
    opening quote and its capital. *)
Theorem normalize_romanized_hindi_leading_punct (U : UCD) :
  normalize_romanized_hindi U (str "!yar") None = str "yaar!"
  /\ normalize_romanized_hindi U ([34] ++ str "Yar" ++ [34]) None
     = str "yaar" ++ [34].
Proof. split; vm_compute; reflexivity. Qed.

(** * Exact deduplication *)

Lemma get_set_column (d : DataFrame) (col : string) (values : list pyval) :
  length values = len d ->
  get_column (set_column d col values) col = Ok values.
Proof.
  intros Hlen. unfold get_column, set_column; simpl.
  rewrite bool_decide_true.
  2:{ case_bool_decide; [done | set_solver]. }
  f_equal. unfold len in Hlen. revert values Hlen.
  induction (df_rows d) as [|r rows IH]; intros [|v values] Hlen;
    simplify_eq/=; [done|].
  rewrite lookup_insert_eq. simpl. f_equal. by apply IH.
Qed.

Lemma mapM_length {A B} (f : A -> result B) xs ys :
  mapM f xs = Ok ys -> length ys = length xs.
Proof.
  revert ys. induction xs as [|x xs IH]; intros ys; simpl.
  - by intros [= <-].
  - destruct (f x); [|done]. destruct (mapM f xs); [|done].
    intros [= <-]. simpl. f_equal. by apply IH.
Qed.

Lemma get_column_length d col vs :
  get_column d col = Ok vs -> length vs = len d.
Proof.
  unfold get_column. case_bool_decide; [|done]. intros [= <-].
  by rewrite length_fmap.
Qed.

Lemma get_column_Ok d col :
  col ∈ df_columns d -> exists vs, get_column d col = Ok vs.
Proof. intros Hc. unfold get_column. rewrite bool_decide_true by done. eauto. Qed.

(** One run of [remove_exact_duplicates], step by step: the hash column is
    written into the caller's frame, and three new frames are built. *)
Lemma remove_exact_duplicates_run U (h : store) df d text_col keep texts hashes :
  h !! df = Some d ->
  get_column d text_col = Ok texts ->
  mapM (fun t => compute_text_hash U t (str "md5")) texts = Ok hashes ->
  let d1 := set_column d "_text_hash" (PyStr <$> hashes) in
  let mask := duplicated keep (PyStr <$> hashes) in
  let kept := df_select (negb <$> mask) d1 in
  remove_exact_duplicates U df text_col keep h
  = (<[df := d1]> h ++ [kept; kept; drop_column kept "_text_hash"],
     Ok (length h + 2, sum_mask mask))%nat.
Proof.
  intros Hdf Htexts Hhashes d1 mask kept.
  assert (Hcol : get_column d1 "_text_hash" = Ok (PyStr <$> hashes)).
  { apply get_set_column. rewrite length_fmap.
    rewrite (mapM_length _ _ _ Hhashes). by apply get_column_length in Htexts. }
  assert (Hd1 : <[df := d1]> h !! df = Some d1).
  { apply list_lookup_insert_eq. by eapply lookup_lt_Some. }
  unfold remove_exact_duplicates.
  rewrite (bind_load _ _ _ _ Hdf), Htexts, bind_lift_Ok, Hhashes, bind_lift_Ok.
  rewrite bind_store_at. fold d1.
  rewrite (bind_load _ _ _ _ Hd1), Hcol, bind_lift_Ok.
  unfold drop_duplicates. rewrite Hcol, bind_lift_Ok, bind_new.
  fold mask kept.
  rewrite (bind_copy _ kept) by apply lookup_new.
  rewrite (bind_load _ kept) by apply lookup_new.
  rewrite bind_new. unfold ret.
  rewrite !length_app, length_insert. simpl.
  rewrite <- !app_assoc. simpl. do 2 f_equal. f_equal. lia.
Qed.

(** C2. [remove_exact_duplicates] writes a [_text_hash] column into the
    frame it is given and never takes it out again: after the call the
    caller's frame holds the hashes, so it is not the frame that was passed
    in whenever that one had no such column. *)
Theorem remove_exact_duplicates_mutates_input
        U (h : store) df d text_col keep texts hashes :
  h !! df = Some d ->
  get_column d text_col = Ok texts ->
  mapM (fun t => compute_text_hash U t (str "md5")) texts = Ok hashes ->
  "_text_hash"%string ∉ df_columns d ->
  exists h' r,
    remove_exact_duplicates U df text_col keep h = (h', Ok r)
    /\ h' !! df = Some (set_column d "_text_hash" (PyStr <$> hashes))
    /\ h' !! df <> h !! df.
Proof.
  intros Hdf Htexts Hhashes Hfresh.
  rewrite (remove_exact_duplicates_run U h df d text_col keep texts hashes)
    by done.
  set (d1 := set_column d "_text_hash" (PyStr <$> hashes)).
  eexists _, _. split; [reflexivity|].
  assert (Hlt : (df < length h)%nat) by by eapply lookup_lt_Some.
  rewrite lookup_app_l by (by rewrite length_insert).
  rewrite list_lookup_insert_eq by done.
  split; [reflexivity|].
  rewrite Hdf. intros [= Heq].
  apply Hfresh. rewrite <- Heq. unfold d1. simpl.
  rewrite bool_decide_false by done.
  apply elem_of_app. right. apply list_elem_of_here.
Qed.

Lemma remove_exact_duplicates_mutates_input_witness :
  let h := [text_frame [PyStr (str "a")]] in
  exists h' r,
    remove_exact_duplicates ascii_only 0%nat "text" keep_first h = (h', Ok r)
    /\ h' !! 0%nat
       = Some (set_column (text_frame [PyStr (str "a")]) "_text_hash"
                 [PyStr (str "0cc175b9c0f1b6a831c399e269772661")])
    /\ h' !! 0%nat <> h !! 0%nat.
Proof.
  apply (remove_exact_duplicates_mutates_input
           ascii_only [text_frame [PyStr (str "a")]] 0%nat
           (text_frame [PyStr (str "a")]) "text" keep_first
           [PyStr (str "a")] [str "0cc175b9c0f1b6a831c399e269772661"]).
  - reflexivity.
  - reflexivity.
  - vm_compute. reflexivity.
  - simpl. rewrite list_elem_of_singleton. discriminate.
Defined.

(** * Empty frames *)

Lemma get_column_empty d col :
  df_rows d = [] -> col ∈ df_columns d -> get_column d col = Ok [].
Proof.
  intros Hrows Hcol. unfold get_column.
  by rewrite bool_decide_true, Hrows by done.
Qed.

Lemma remove_near_duplicates_empty SK (h : store) df d col thr keep :
  h !! df = Some d -> df_rows d = [] -> col ∈ df_columns d ->
  remove_near_duplicates SK df col thr keep h
  = (h ++ [df_select [] d; df_select [] d], Raise ZeroDivisionError).
Proof.
  intros Hdf Hrows Hcol. unfold remove_near_duplicates.
  rewrite (bind_load _ _ _ _ Hdf), (get_column_empty _ _ Hrows Hcol).
  rewrite bind_lift_Ok. unfold find_near_duplicates at 1. simpl.
  rewrite bind_lift_Ok. unfold index_isin, df_index, len.
  rewrite Hrows. simpl. rewrite bind_new.
  rewrite (bind_copy _ (df_select [] d)) by apply lookup_new.
  rewrite bind_lift_Raise. by rewrite <- app_assoc.
Qed.

(** C3. On a frame without rows both [remove_near_duplicates] and
    [deduplicate_dataframe] end in [ZeroDivisionError]: the first divides
    the number of removed rows by [len(df)] for its progress message, the
    second divides by [original_size] for [dedup_rate]. *)
Theorem dedup_empty_frame_raises
        U SK (h : store) df d col exact near thr keep :
  h !! df = Some d -> df_rows d = [] -> col ∈ df_columns d ->
  col <> "_text_hash"%string ->
  snd (remove_near_duplicates SK df col thr keep h) = Raise ZeroDivisionError
  /\ snd (deduplicate_dataframe U SK df col exact near thr keep h)
     = Raise ZeroDivisionError.
Proof.
  intros Hdf Hrows Hcol Hne. split.
  { by erewrite remove_near_duplicates_empty. }
  unfold deduplicate_dataframe.
  rewrite (bind_load _ _ _ _ Hdf), (bind_copy _ _ _ _ Hdf).
  assert (Hlen : len d = 0%nat) by (unfold len; by rewrite Hrows).
  destruct exact.
  - unfold bind at 1.
    erewrite (remove_exact_duplicates_run U (h ++ [d]) (length h) d col keep [] []);
      [|apply lookup_new|by apply get_column_empty|done].
    simpl.
    set (d1 := set_column d "_text_hash" []).
    set (kept := df_select (negb <$> duplicated keep []) d1).
    set (h1 := <[length h:=d1]> (h ++ [d]) ++ [kept; kept; drop_column kept "_text_hash"]).
    assert (Hout : h1 !! (length (h ++ [d]) + 2)%nat
                   = Some (drop_column kept "_text_hash")).
    { unfold h1. rewrite lookup_app_r by (rewrite length_insert; lia).
      rewrite length_insert.
      by replace (length (h ++ [d]) + 2 - length (h ++ [d]))%nat with 2%nat by lia. }
    assert (Hrows' : df_rows (drop_column kept "_text_hash") = []).
    { unfold kept, d1. simpl. rewrite Hrows. by destruct keep. }
    destruct near.
    + unfold bind at 1.
      erewrite remove_near_duplicates_empty; [done|exact Hout|exact Hrows'|].
      simpl. apply list_elem_of_filter. split; [done|].
      case_bool_decide; set_solver.
    + rewrite bind_ret. rewrite (bind_load _ _ _ _ Hout). by rewrite Hlen.
  - rewrite bind_ret. destruct near.
    + unfold bind at 1.
      erewrite remove_near_duplicates_empty; [done|apply lookup_new|done..].
    + rewrite bind_ret. rewrite (bind_load _ d) by apply lookup_new.
      by rewrite Hlen.
Qed.

Lemma dedup_empty_frame_raises_witness :
  let h := [text_frame []] in
  snd (remove_near_duplicates same_terms 0%nat "text" (Qmake 95 100)
         keep_first h) = Raise ZeroDivisionError
  /\ snd (deduplicate_dataframe ascii_only same_terms 0%nat "text" true false
            (Qmake 95 100) keep_first h) = Raise ZeroDivisionError.
Proof.
  apply (dedup_empty_frame_raises ascii_only same_terms [text_frame []] 0%nat
           (text_frame []) "text" true false (Qmake 95 100) keep_first).
  - reflexivity.
  - reflexivity.
  - simpl. apply list_elem_of_singleton. reflexivity.
  - discriminate.
Defined.


(** * Row labels and positions *)

(** C1. [find_near_duplicates] numbers the rows by position, and
    [remove_near_duplicates] removes the rows whose label is one of these
    numbers.  On the frame that exact deduplication leaves of "hello world",
    "Hello   world", "hello world!" (labels 0 and 2) the second row is found
    to duplicate the first, the count returned is 1, and no row is removed:
    the output has 2 rows, and 2 + 1 is not the input length 2. *)
Theorem remove_near_duplicates_miscounts :
  remove_near_duplicates same_terms 0%nat "text" (Qmake 95 100) keep_first
                         [frame_0_2]
  = ([frame_0_2; frame_0_2; frame_0_2], Ok (2%nat, 1%nat))
  /\ (len frame_0_2 + 1 <> len frame_0_2)%nat.
Proof. split; [vm_compute; reflexivity | vm_compute; discriminate]. Qed.

(** The same inside the combined pipeline, on a frame with default labels:
    one exact and one near duplicate are reported, one row is gone. *)
Example deduplicate_dataframe_miscounts :
  snd (deduplicate_dataframe ascii_only same_terms 0%nat "text" true true
         (Qmake 95 100) keep_first
         [text_frame [PyStr (str "hello world"); PyStr (str "Hello   world");
                      PyStr (str "hello world!")]])
  = Ok (6%nat,
        {| original_size := 3; exact_duplicates_removed := 1;
           near_duplicates_removed := 1; final_size := 2;
           total_removed := 1; dedup_rate := Qmake 100 3 |}).
Proof. vm_compute. reflexivity. Qed.

(** * Hashing values that are not strings *)

(** C7 (counterexample). The hash of [None] is not the hash of the empty
    string, and a frame holding [None] and [""] has no exact duplicate. *)
Lemma compute_text_hash_None_vs_empty :
  compute_text_hash ascii_only PyNone (str "md5")
  <> compute_text_hash ascii_only (PyStr []) (str "md5")
  /\ snd (remove_exact_duplicates ascii_only 0%nat "text" keep_first
            [text_frame [PyNone; PyStr []]]) = Ok (3%nat, 0%nat).
Proof. split; [vm_compute; discriminate | vm_compute; reflexivity]. Qed.

(** C7. A value that is not a string hashes to the empty string, whatever
    the algorithm name, and nothing is raised; the empty string hashes to
    its MD5 digest, which is another value.  So two records whose text is
    not a string are exact duplicates of each other, and neither is a
    duplicate of a record with empty text. *)
Theorem compute_text_hash_non_string U (v w : pyval) (alg : pystr) :
  isinstance_str v = false -> isinstance_str w = false ->
  compute_text_hash U v alg = Ok []
  /\ compute_text_hash U v (str "md5") = compute_text_hash U w (str "md5")
  /\ compute_text_hash U (PyStr []) (str "md5")
     = Ok (str "d41d8cd98f00b204e9800998ecf8427e")
  /\ compute_text_hash U v (str "md5")
     <> compute_text_hash U (PyStr []) (str "md5").
Proof.
  intros Hv Hw.
  assert (Hnon : forall x a, isinstance_str x = false ->
                             compute_text_hash U x a = Ok []).
  { intros [] a Hx; [discriminate Hx | reflexivity..]. }
  assert (Hempty : compute_text_hash U (PyStr []) (str "md5")
                   = Ok (str "d41d8cd98f00b204e9800998ecf8427e")).
  { vm_compute. reflexivity. }
  split; [by apply Hnon|]. split; [by rewrite !Hnon|].
  split; [exact Hempty|]. rewrite Hempty, Hnon by done. discriminate.
Qed.

Lemma compute_text_hash_non_string_witness :
  isinstance_str PyNone = false /\ isinstance_str PyNaN = false
  /\ compute_text_hash ascii_only PyNone (str "sha256") = Ok []
  /\ compute_text_hash ascii_only PyNone (str "md5")
     = compute_text_hash ascii_only PyNaN (str "md5")
  /\ compute_text_hash ascii_only (PyStr []) (str "md5")
     = Ok (str "d41d8cd98f00b204e9800998ecf8427e")
  /\ compute_text_hash ascii_only PyNone (str "md5")
     <> compute_text_hash ascii_only (PyStr []) (str "md5").
Proof.
  split; [reflexivity|]. split; [reflexivity|].
  apply (compute_text_hash_non_string ascii_only PyNone PyNaN (str "sha256"));
    reflexivity.
Defined.

(** Two records without a string text: the second is dropped. *)
Example remove_exact_duplicates_None_NaN :
  snd (remove_exact_duplicates ascii_only 0%nat "text" keep_first
         [text_frame [PyNone; PyNaN]]) = Ok (3%nat, 1%nat).
Proof. vm_compute. reflexivity. Qed.

(** * Configuration values *)

(** C4 (counterexample). A threshold of 3/2 is outside (0, 1] and is
    accepted: the call returns a frame and a count. *)
Lemma threshold_out_of_range_accepted :
  remove_near_duplicates same_terms 0%nat "text" (Qmake 3 2) keep_first
    [text_frame [PyStr (str "hello world"); PyStr (str "hello world!")]]
  = ([text_frame [PyStr (str "hello world"); PyStr (str "hello world!")];
      text_frame [PyStr (str "hello world"); PyStr (str "hello world!")];
      text_frame [PyStr (str "hello world"); PyStr (str "hello world!")]],
     Ok (2%nat, 0%nat)).
Proof. vm_compute. reflexivity. Qed.

(** C4. An algorithm name other than md5 and sha256 makes
    [compute_text_hash] raise [ValueError] on every string, while a value
    that is not a string yields [""] before the name is looked at.  The
    threshold is never compared with a bound: whatever its value,
    [remove_near_duplicates] on a frame with at least one row returns
    normally, provided the vectoriser raises nothing but [ValueError]. *)
Theorem unknown_algorithm_raises_threshold_unchecked
        U SK (t alg : pystr) (v : pyval) (h : store) df d col texts
        (thr : Q) keep :
  alg <> str "md5" -> alg <> str "sha256" -> isinstance_str v = false ->
  h !! df = Some d -> df_rows d <> [] -> get_column d col = Ok texts ->
  (forall e, tfidf_cosine SK texts = Raise e -> exists m, e = ValueError m) ->
  compute_text_hash U (PyStr t) alg
  = Raise (ValueError (str "Unknown algorithm: " ++ alg))
  /\ compute_text_hash U v alg = Ok []
  /\ exists h' out n,
       remove_near_duplicates SK df col thr keep h = (h', Ok (out, n)).
Proof.
  intros Hmd5 Hsha Hv Hdf Hrows Hcol Hsk. split; [|split].
  { unfold compute_text_hash. by rewrite !bool_decide_false. }
  { by destruct v. }
  unfold remove_near_duplicates.
  rewrite (bind_load _ _ _ _ Hdf), Hcol, bind_lift_Ok.
  assert (Hfind : exists cs, find_near_duplicates SK texts thr = Ok cs).
  { unfold find_near_duplicates, find_near_duplicates_trace.
    destruct texts as [|t0 texts']; [eauto|].
    destruct (tfidf_cosine SK (t0 :: texts')) as [sim|e] eqn:Hsim; [eauto|].
    destruct (Hsk e eq_refl) as [m ->]. eauto. }
  destruct Hfind as [cs ->]. rewrite bind_lift_Ok, bind_new.
  erewrite bind_copy by apply lookup_new.
  unfold len. destruct (df_rows d) as [|r rows] eqn:Hr; [done|].
  simpl. rewrite bind_lift_Ok. unfold ret. eauto.
Qed.

Lemma unknown_algorithm_raises_threshold_unchecked_witness :
  let d := text_frame [PyStr (str "hello world")] in
  str "sha1" <> str "md5" /\ str "sha1" <> str "sha256"
  /\ isinstance_str PyNone = false
  /\ [d] !! 0%nat = Some d /\ df_rows d <> []
  /\ get_column d "text" = Ok [PyStr (str "hello world")]
  /\ compute_text_hash ascii_only (PyStr (str "abc")) (str "sha1")
     = Raise (ValueError (str "Unknown algorithm: " ++ str "sha1"))
  /\ compute_text_hash ascii_only PyNone (str "sha1") = Ok []
  /\ exists h' out n,
       remove_near_duplicates same_terms 0%nat "text" (Qmake 3 2) keep_first [d]
       = (h', Ok (out, n)).
Proof.
  intros d.
  split; [discriminate|]. split; [discriminate|]. split; [reflexivity|].
  split; [reflexivity|]. split; [discriminate|]. split; [reflexivity|].
  apply (unknown_algorithm_raises_threshold_unchecked
           ascii_only same_terms (str "abc") (str "sha1") PyNone [d] 0%nat d
           "text" [PyStr (str "hello world")] (Qmake 3 2) keep_first);
    try discriminate; try reflexivity.
Defined.

(** * The scan of [find_near_duplicates] *)

Lemma foldl_ext {A B} (f g : A -> B -> A) a l :
  (forall a b, f a b = g a b) -> foldl f a l = foldl g a l.
Proof.
  intros Hfg. revert a. induction l as [|b l IH]; intros a; [done|].
  simpl. by rewrite Hfg, IH.
Qed.

Lemma foldl_flat_map {A B C} (f : A -> B -> A) (g : C -> list B) a cs :
  foldl (fun a c => foldl f a (g c)) a cs = foldl f a (flat_map g cs).
Proof.
  revert a. induction cs as [|c cs IH]; intros a; [done|].
  simpl. by rewrite foldl_app, IH.
Qed.

Section Scan.
Context (sim : nat -> nat -> Q) (thr : Q) (n : nat).

Lemma scan_batch_flat st i :
  scan_batch sim thr n st i
  = foldl (visit_at sim thr n) st (seq i (Nat.min (i + batch_size) n - i)).
Proof.
  unfold scan_batch. generalize (Nat.min (i + batch_size) n - i)%nat as len.
  intros len.
  enough (Hgen : forall a st,
             foldl (visit (fun l j => sim (i + l)%nat j) thr n) st
                   (zip (seq a len) (seq (i + a) len))
             = foldl (visit_at sim thr n) st (seq (i + a) len)).
  { specialize (Hgen 0%nat st). by rewrite Nat.add_0_r in Hgen. }
  induction len as [|len IH]; intros a st'; [done|].
  simpl. replace (S (i + a)) with (i + S a)%nat by lia.
  rewrite IH. reflexivity.
Qed.

Lemma batches_cover (b m : nat) :
  (0 < b)%nat ->
  flat_map (fun i => seq i (Nat.min (i + b) n - i))
           ((fun k => k * b)%nat <$> seq 0 m)
  = seq 0 (Nat.min (m * b) n).
Proof.
  intros Hb. induction m as [|m IH]; [done|].
  rewrite seq_S, fmap_app, flat_map_app, IH. simpl.
  rewrite app_nil_r.
  destruct (decide (n <= m * b)%nat) as [Hle|Hgt].
  - replace (Nat.min (m * b + b) n - m * b)%nat with 0%nat by lia.
    simpl. rewrite app_nil_r. f_equal. lia.
  - replace (Nat.min (m * b) n) with (m * b)%nat by lia.
    replace (Nat.min (b + m * b) n)
      with (m * b + (Nat.min (m * b + b) n - m * b))%nat by lia.
    by rewrite seq_app.
Qed.

(** The batches are visited in order and cover every row once: the scan is
    one pass over the rows 0, 1, ..., n-1. *)
Lemma scan_flat :
  scan sim thr n
  = foldl (visit_at sim thr n)
          {| duplicate_clusters := []; processed := ∅; n_comparisons := 0 |}
          (seq 0 n).
Proof.
  unfold scan.
  rewrite (foldl_ext _ (fun st i => foldl (visit_at sim thr n) st
               (seq i (Nat.min (i + batch_size) n - i))))
    by (intros; apply scan_batch_flat).
  rewrite (foldl_flat_map (visit_at sim thr n)
             (fun i => seq i (Nat.min (i + batch_size) n - i))).
  unfold range_step.
  assert (Hb : (0 < batch_size)%nat) by (unfold batch_size; lia).
  rewrite batches_cover by done.
  f_equal. f_equal.
  generalize dependent batch_size. intros b Hb.
  pose proof (Nat.div_mod_eq (n + b - 1) b) as Hdiv.
  pose proof (Nat.mod_upper_bound (n + b - 1) b ltac:(lia)) as Hmod.
  nia.
Qed.

End Scan.

Lemma pairwise_disjoint_snoc (cs : list (gset nat)) (c : gset nat) :
  pairwise_disjoint cs -> Forall (fun c' => c' ## c) cs ->
  pairwise_disjoint (cs ++ [c]).
Proof.
  induction cs as [|c0 cs IH]; simpl; [done|].
  intros [Hc0 Hcs] Hall. inversion_clear Hall as [|? ? Hc0c Hrest].
  split; [|by apply IH].
  apply Forall_app. split; [done|]. by constructor.
Qed.


Section ScanInvariant.
Context (sim : nat -> nat -> Q) (thr : Q) (n : nat).

Lemma elem_of_candidates st g x :
  x ∈ candidates sim thr n st g
  <-> (x < n)%nat /\ above sim thr g x /\ x <> g /\ x ∉ processed st.
Proof.
  unfold candidates, above.
  rewrite !list_elem_of_filter, elem_of_seq, Qle_bool_iff. intuition lia.
Qed.

Lemma visit_at_cases st g :
  visit_at sim thr n st g =
  if decide (g ∈ processed st) then st
  else match candidates sim thr n st g with
       | [] => st
       | _ =>
           {| duplicate_clusters :=
                duplicate_clusters st
                  ++ [(g, {[g]} ∪ list_to_set (candidates sim thr n st g))];
              processed :=
                processed st ∪ ({[g]} ∪ list_to_set (candidates sim thr n st g));
              n_comparisons := n_comparisons st + length (candidates sim thr n st g) |}
       end.
Proof.
  unfold visit_at, visit. fold (candidates sim thr n st g).
  destruct (decide (g ∈ processed st)).
  - by rewrite bool_decide_true.
  - by rewrite bool_decide_false.
Qed.

Lemma scan_inv_init :
  scan_inv sim thr n 0 {| duplicate_clusters := []; processed := ∅; n_comparisons := 0 |}.
Proof.
  split; simpl.
  - intros x. split; [set_solver|]. intros (q & c & Hin & _). set_solver.
  - done.
  - intros q c Hin. set_solver.
  - intros v Hv. lia.
Qed.

Lemma scan_inv_step k st :
  scan_inv sim thr n k st -> scan_inv sim thr n (S k) (visit_at sim thr n st k).
Proof.
  intros [Hproc Hdisj Hclus Hvis]. rewrite visit_at_cases.
  destruct (decide (k ∈ processed st)) as [Hk|Hk].
  { split; [done|done| |].
    - intros q c Hin. destruct (Hclus q c Hin) as (? & ? & ? & ?).
      split_and!; [done|lia|done|done].
    - intros v Hv. destruct (decide (v = k)) as [->|]; [by left|].
      apply Hvis. lia. }
  destruct (candidates sim thr n st k) as [|x0 xs] eqn:Hcand.
  { split; [done|done| |].
    - intros q c Hin. destruct (Hclus q c Hin) as (? & ? & ? & ?).
      split_and!; [done|lia|done|done].
    - intros v Hv. destruct (decide (v = k)) as [->|]; [|apply Hvis; lia].
      right. intros j Hj Hjk Hab.
      destruct (decide (j ∈ processed st)) as [|Hnp]; [done|].
      assert (Hin : j ∈ candidates sim thr n st k) by by apply elem_of_candidates.
      rewrite Hcand in Hin. by apply elem_of_nil in Hin. }
  rewrite <- Hcand. set (c := {[k]} ∪ list_to_set (candidates sim thr n st k)).
  assert (Hc : forall x, x ∈ c <-> x = k \/ x ∈ candidates sim thr n st k).
  { intros x. unfold c.
    by rewrite elem_of_union, elem_of_singleton, elem_of_list_to_set. }
  split; simpl.
  - intros x. rewrite elem_of_union, Hproc, Hc. split.
    + intros [(q & c' & Hin & Hx)|Hx].
      * exists q, c'. split; [|done]. apply elem_of_app. by left.
      * exists k, c. split; [|by apply Hc]. apply elem_of_app. right.
        by apply list_elem_of_singleton.
    + intros (q & c' & Hin & Hx). apply elem_of_app in Hin as [Hin|Hin].
      * left. eauto.
      * apply list_elem_of_singleton in Hin. simplify_eq. right. by apply Hc.
  - rewrite fmap_app. apply pairwise_disjoint_snoc; [done|].
    apply Forall_forall. intros c' Hc'.
    apply list_elem_of_fmap in Hc' as [[q c''] [-> Hin]]. simpl.
    apply elem_of_disjoint. intros x Hx1 Hx2.
    assert (Hxp : x ∈ processed st) by (apply Hproc; eauto).
    apply Hc in Hx2 as [->|Hx2]; [done|].
    apply elem_of_candidates in Hx2. tauto.
  - intros q c' Hin. apply elem_of_app in Hin as [Hin|Hin].
    + destruct (Hclus q c' Hin) as (? & ? & ? & ?).
      split_and!; [done|lia|done|done].
    + apply list_elem_of_singleton in Hin. simplify_eq.
      split; [apply Hc; by left|]. split; [lia|]. split.
      * exists x0. assert (Hx0 : x0 ∈ candidates sim thr n st k)
          by (rewrite Hcand; apply list_elem_of_here).
        split; [apply Hc; by right|].
        apply elem_of_candidates in Hx0. tauto.
      * intros x Hx Hne. apply Hc in Hx as [->|Hx]; [done|].
        apply elem_of_candidates in Hx. tauto.
  - intros v Hv. destruct (decide (v = k)) as [->|Hvk].
    + left. apply elem_of_union. right. apply Hc. by left.
    + destruct (Hvis v ltac:(lia)) as [Hp|Hall].
      * left. apply elem_of_union. by left.
      * right. intros j Hj Hjv Hab. apply elem_of_union. left. by apply Hall.
Qed.

Lemma scan_inv_prefix k :
  scan_inv sim thr n k (foldl (visit_at sim thr n)
                {| duplicate_clusters := []; processed := ∅;
                   n_comparisons := 0 |} (seq 0 k)).
Proof.
  induction k as [|k IH]; [apply scan_inv_init|].
  rewrite seq_S, foldl_snoc. simpl. by apply scan_inv_step.
Qed.

Lemma scan_inv_scan : scan_inv sim thr n n (scan sim thr n).
Proof. rewrite scan_flat. apply scan_inv_prefix. Qed.

End ScanInvariant.

(** Under a symmetric similarity the row that forms a cluster is its
    smallest member: a smaller similar row would have formed the cluster
    itself when it was visited. *)
Section ScanSymmetric.
Context (sim : nat -> nat -> Q) (thr : Q) (n : nat).
Hypothesis sim_sym : forall i j, (sim i j == sim j i)%Q.

Lemma query_is_min_step k st :
  (k < n)%nat -> scan_inv sim thr n k st -> query_is_min st ->
  query_is_min (visit_at sim thr n st k).
Proof.
  intros Hk [Hproc _ _ Hvis] Hmin. rewrite visit_at_cases.
  destruct (decide (k ∈ processed st)) as [|Hkp]; [done|].
  destruct (candidates sim thr n st k) as [|x0 xs] eqn:Hcand; [done|].
  rewrite <- Hcand. intros q c x Hin Hx. simpl in Hin.
  apply elem_of_app in Hin as [Hin|Hin]; [by eapply Hmin|].
  apply list_elem_of_singleton in Hin. simplify_eq.
  rewrite elem_of_union, elem_of_singleton, elem_of_list_to_set in Hx.
  destruct Hx as [->|Hx]; [done|].
  apply elem_of_candidates in Hx as (Hxn & Hab & Hne & Hxp).
  destruct (decide (k <= x)%nat) as [|Hlt]; [done|]. exfalso.
  destruct (Hvis x ltac:(lia)) as [|Hall]; [done|].
  apply Hkp, Hall; [done|done|].
  unfold above in *. by rewrite sim_sym.
Qed.

Lemma query_is_min_prefix k :
  (k <= n)%nat ->
  query_is_min (foldl (visit_at sim thr n)
                  {| duplicate_clusters := []; processed := ∅;
                     n_comparisons := 0 |} (seq 0 k)).
Proof.
  induction k as [|k IH]; intros Hk.
  - intros q c x Hin. simpl in Hin. by apply elem_of_nil in Hin.
  - rewrite seq_S, foldl_snoc. simpl.
    apply query_is_min_step; [lia|apply scan_inv_prefix|apply IH; lia].
Qed.

Lemma query_is_min_scan : query_is_min (scan sim thr n).
Proof. rewrite scan_flat. by apply query_is_min_prefix. Qed.

End ScanSymmetric.

(** ** Which indices are marked for removal *)

Lemma elem_of_indices_to_remove keep (cs : list (gset nat)) x :
  x ∈ indices_to_remove keep cs
  <-> exists c, c ∈ cs /\ x ∈ to_remove keep c.
Proof.
  unfold indices_to_remove.
  enough (Hgen : forall acc : gset nat,
             x ∈ foldl (fun acc c => acc ∪ list_to_set (to_remove keep c))
                       acc cs
             <-> x ∈ acc \/ exists c, c ∈ cs /\ x ∈ to_remove keep c).
  { rewrite Hgen. split; [intros [Hx|Hx]; [set_solver|done]|by right]. }
  induction cs as [|c cs IH]; intros acc; simpl.
  - split; [by left|]. intros [|(c & Hc & _)]; [done|].
    by apply elem_of_nil in Hc.
  - rewrite IH, elem_of_union, elem_of_list_to_set. split.
    + intros [[Hx|Hx]|(c' & Hc' & Hx)]; [by left| |].
      * right. exists c. split; [apply list_elem_of_here|done].
      * right. exists c'. split; [by apply list_elem_of_further|done].
    + intros [Hx|(c' & Hc' & Hx)]; [left; by left|].
      apply elem_of_cons in Hc' as [->|Hc']; [left; by right|].
      right. eauto.
Qed.

Lemma elem_of_sorted (c : gset nat) x : x ∈ sorted c <-> x ∈ c.
Proof. unfold sorted. by rewrite merge_sort_Permutation, elem_of_elements. Qed.

Lemma NoDup_sorted (c : gset nat) : NoDup (sorted c).
Proof.
  unfold sorted. rewrite merge_sort_Permutation. apply NoDup_elements.
Qed.

Lemma to_remove_subseteq keep (c : gset nat) x :
  x ∈ to_remove keep c -> x ∈ c.
Proof.
  intros Hx. apply elem_of_sorted. revert Hx. unfold to_remove.
  destruct keep; [apply subseteq_drop|apply subseteq_take|].
  intros Hx. by apply elem_of_nil in Hx.
Qed.

Lemma sorted_min (c : gset nat) q :
  q ∈ c -> (forall x, x ∈ c -> (q <= x)%nat) ->
  exists rest, sorted c = q :: rest /\ (q ∉ rest)
               /\ forall x, x ∈ c -> x <> q -> x ∈ rest.
Proof.
  intros Hq Hmin.
  pose proof (NoDup_sorted c) as Hnd.
  assert (Hss : StronglySorted Nat.le (sorted c)).
  { unfold sorted. apply (StronglySorted_merge_sort Nat.le). }
  assert (Hmem : forall x, x ∈ sorted c <-> x ∈ c) by apply elem_of_sorted.
  destruct (sorted c) as [|a rest].
  { apply Hmem in Hq. by apply elem_of_nil in Hq. }
  inversion_clear Hss as [|? ? Hrest Hall].
  inversion_clear Hnd as [|? ? Hnotin Hnd'].
  assert (a = q) as ->.
  { assert (Ha : a ∈ c) by (apply Hmem; apply list_elem_of_here).
    apply Hmin in Ha. apply Hmem in Hq.
    apply elem_of_cons in Hq as [->|Hq]; [done|].
    rewrite Forall_forall in Hall. specialize (Hall _ Hq).
    unfold Nat.le in Hall. lia. }
  exists rest. split; [done|]. split; [done|].
  intros x Hx Hne. apply Hmem in Hx.
  by apply elem_of_cons in Hx as [->|Hx].
Qed.

(** ** The clusters returned *)

Lemma find_near_duplicates_trace_Ok SK texts thr sim :
  tfidf_cosine SK texts = Ok sim ->
  find_near_duplicates_trace SK texts thr
  = Ok (duplicate_clusters (scan sim thr (length texts)))
  /\ find_near_duplicates SK texts thr
     = Ok (snd <$> duplicate_clusters (scan sim thr (length texts))).
Proof.
  intros Hsim. unfold find_near_duplicates, find_near_duplicates_trace.
  rewrite Hsim. destruct texts; [|done].
  split; reflexivity.
Qed.

(** When the vectoriser gives up with [ValueError] there is no cluster. *)
Lemma find_near_duplicates_ValueError SK texts thr m :
  tfidf_cosine SK texts = Raise (ValueError m) ->
  find_near_duplicates SK texts thr = Ok [].
Proof.
  intros Hsim. unfold find_near_duplicates, find_near_duplicates_trace.
  rewrite Hsim. by destruct texts.
Qed.



Example find_near_duplicates_two_alike :
  find_near_duplicates_trace two_alike
    [PyStr (str "this is a test message");
     PyStr (str "this is a test message!!!");
     PyStr (str "completely different text")] (Qmake 9 10)
  = Ok [(0%nat, {[0%nat; 1%nat]})].
Proof. vm_compute. reflexivity. Qed.

(** The hypothesis on the matrix is used: on a matrix that is not one of
    cosine similarities the second row can form a cluster with the first,
    and is then a query that is neither the smallest member nor similar to
    itself. *)
Example find_near_duplicates_one_sided :
  find_near_duplicates_trace one_sided [PyStr (str "a"); PyStr (str "b")]
                             (Qmake 9 10)
  = Ok [(1%nat, {[1%nat; 0%nat]})].
Proof. vm_compute. reflexivity. Qed.

Lemma two_le_size (c : gset nat) x y : x ∈ c -> y ∈ c -> x <> y -> (2 <= size c)%nat.
Proof.
  intros Hx Hy Hne.
  assert (Hsub : ({[x]} ∪ {[y]} : gset nat) ⊆ c).
  { intros z. rewrite elem_of_union, !elem_of_singleton. by intros [->| ->]. }
  apply subseteq_size in Hsub.
  rewrite size_union, !size_singleton in Hsub; [exact Hsub|].
  apply disjoint_singleton_l. by rewrite elem_of_singleton.
Qed.



(** ** The rows that are dropped *)

(** C9. The positions marked for removal are similar to the query of their
    cluster, but line 200 drops the rows whose label is one of these
    positions.  On the frame that exact deduplication leaves of
    "hello world", "hello world", "goodbye moon", "hello world!" (labels 0,
    2, 3) the one cluster holds the positions 0 and 2 and position 2 is
    marked; the row dropped is the one labelled 2, "goodbye moon", which is
    in no cluster and has similarity 0 with both other rows, while the near
    duplicate "hello world!" stays. *)
Theorem remove_near_duplicates_drops_unrelated :
  get_column frame_0_2_3 "text"
  = Ok [PyStr (str "hello world"); PyStr (str "goodbye moon");
        PyStr (str "hello world!")]
  /\ find_near_duplicates_trace first_third_alike
       [PyStr (str "hello world"); PyStr (str "goodbye moon");
        PyStr (str "hello world!")] (Qmake 95 100)
     = Ok [(0%nat, {[0%nat; 2%nat]})]
  /\ indices_to_remove keep_first [{[0%nat; 2%nat]}] = {[2%nat]}
  /\ (exists sim,
        tfidf_cosine first_third_alike
          [PyStr (str "hello world"); PyStr (str "goodbye moon");
           PyStr (str "hello world!")] = Ok sim
        /\ (sim 0%nat 1%nat < Qmake 95 100)%Q
        /\ (sim 2%nat 1%nat < Qmake 95 100)%Q
        /\ (Qmake 95 100 <= sim 0%nat 2%nat)%Q)
  /\ remove_near_duplicates first_third_alike 0%nat "text" (Qmake 95 100)
       keep_first [frame_0_2_3]
     = (let kept :=
          {| df_columns := ["text"%string];
             df_rows :=
               [ (0%Z, {["text"%string := PyStr (str "hello world")]});
                 (3%Z, {["text"%string := PyStr (str "hello world!")]}) ] |}
        in [frame_0_2_3; kept; kept],
        Ok (2%nat, 1%nat)).
Proof.
  split; [vm_compute; reflexivity|].
  split; [vm_compute; reflexivity|].
  split; [vm_compute; reflexivity|].
  split; [|vm_compute; reflexivity].
  eexists. split; [reflexivity|]. by vm_compute.
Qed.

(** The same inside the combined pipeline, on a frame with default labels:
    of "hello world", its copy, "goodbye moon" and "hello world!" the
    result holds "hello world" and "hello world!". *)
Example deduplicate_dataframe_drops_unrelated :
  match deduplicate_dataframe ascii_only first_third_alike 0%nat "text"
          true true (Qmake 95 100) keep_first
          [text_frame [PyStr (str "hello world"); PyStr (str "hello world");
                       PyStr (str "goodbye moon");
                       PyStr (str "hello world!")]]
  with
  | (h, Ok (out, stats)) =>
      (h !! out, exact_duplicates_removed stats,
       near_duplicates_removed stats)
  | (_, Raise _) => (None, 0%nat, 0%nat)
  end
  = (Some {| df_columns := ["text"%string];
             df_rows :=
               [ (0%Z, {["text"%string := PyStr (str "hello world")]});
                 (3%Z, {["text"%string := PyStr (str "hello world!")]}) ] |},
     1%nat, 1%nat).
Proof. vm_compute. reflexivity. Qed.

(** C10. Under [keep='first'] the position that is not marked is the query
    of the cluster, but the record that is retained is decided by the row
    labels.  On the frame that exact deduplication leaves of "hello world",
    "hello world", "hello world!", "goodbye moon", "goodbye moon!" (labels
    0, 2, 3, 4) the clusters are the positions 0, 1 and 2, 3 with queries 0
    and 2, and the positions marked are 1 and 3.  The row labelled 3 is the
    one at position 2, the query of the second cluster: it is dropped and
    the other member "goodbye moon!" is retained; of the first cluster both
    members stay. *)
Theorem remove_near_duplicates_drops_query :
  get_column frame_0_2_3_4 "text"
  = Ok [PyStr (str "hello world"); PyStr (str "hello world!");
        PyStr (str "goodbye moon"); PyStr (str "goodbye moon!")]
  /\ find_near_duplicates_trace pairs_alike
       [PyStr (str "hello world"); PyStr (str "hello world!");
        PyStr (str "goodbye moon"); PyStr (str "goodbye moon!")]
       (Qmake 95 100)
     = Ok [(0%nat, {[0%nat; 1%nat]}); (2%nat, {[2%nat; 3%nat]})]
  /\ indices_to_remove keep_first [{[0%nat; 1%nat]}; {[2%nat; 3%nat]}]
     = {[1%nat; 3%nat]}
  /\ df_rows frame_0_2_3_4 !! 2%nat
     = Some (3%Z, {["text"%string := PyStr (str "goodbye moon")]})
  /\ remove_near_duplicates pairs_alike 0%nat "text" (Qmake 95 100)
       keep_first [frame_0_2_3_4]
     = (let kept :=
          {| df_columns := ["text"%string];
             df_rows :=
               [ (0%Z, {["text"%string := PyStr (str "hello world")]});
                 (2%Z, {["text"%string := PyStr (str "hello world!")]});
                 (4%Z, {["text"%string := PyStr (str "goodbye moon!")]}) ] |}
        in [frame_0_2_3_4; kept; kept],
        Ok (2%nat, 2%nat)).
Proof. repeat split; vm_compute; reflexivity. Qed.

(** The same inside the combined pipeline, on a frame with default
    labels. *)
Example deduplicate_dataframe_drops_query :
  match deduplicate_dataframe ascii_only pairs_alike 0%nat "text"
          true true (Qmake 95 100) keep_first
          [text_frame [PyStr (str "hello world"); PyStr (str "hello world");
                       PyStr (str "hello world!");
                       PyStr (str "goodbye moon");
                       PyStr (str "goodbye moon!")]]
  with
  | (h, Ok (out, stats)) =>
      (h !! out, exact_duplicates_removed stats,
       near_duplicates_removed stats)
  | (_, Raise _) => (None, 0%nat, 0%nat)
  end
  = (Some {| df_columns := ["text"%string];
             df_rows :=
               [ (0%Z, {["text"%string := PyStr (str "hello world")]});
                 (2%Z, {["text"%string := PyStr (str "hello world!")]});
                 (4%Z, {["text"%string := PyStr (str "goodbye moon!")]}) ] |},
     1%nat, 2%nat).
Proof. vm_compute. reflexivity. Qed.

(** On two rows whose labels are in reverse order the cluster is {0, 1}
    and position 1 is marked: the row labelled 1 is the first one, the
    query, and the second row is what is left. *)
Example remove_near_duplicates_reversed_labels :
  find_near_duplicates_trace same_terms
    [PyStr (str "hello world"); PyStr (str "hello world!")] (Qmake 95 100)
  = Ok [(0%nat, {[0%nat; 1%nat]})]
  /\ remove_near_duplicates same_terms 0%nat "text" (Qmake 95 100)
       keep_first [frame_1_0]
     = (let kept :=
          {| df_columns := ["text"%string];
             df_rows :=
               [ (0%Z, {["text"%string := PyStr (str "hello world!")]}) ] |}
        in [frame_1_0; kept; kept],
        Ok (2%nat, 1%nat)).
Proof. split; vm_compute; reflexivity. Qed.

(** * The matcher on repeated character classes *)

Lemma run_after (p : char -> bool) (s : pystr) :
  run_of p s ++ after_run p s = s.
Proof.
  induction s as [|c s IH]; [done|]. simpl.
  destruct (p c); [|done]. simpl. by rewrite IH.
Qed.

Lemma after_run_length (p : char -> bool) (s : pystr) :
  (length (after_run p s) + length (run_of p s) = length s)%nat.
Proof.
  rewrite <- (run_after p s) at 3. rewrite length_app. lia.
Qed.

Lemma head_is_after_run (p : char -> bool) (s : pystr) :
  head_is p (after_run p s) = false.
Proof.
  induction s as [|c s IH]; [done|]. simpl.
  destruct (p c) eqn:Hc; [done|]. unfold head_is. simpl. exact Hc.
Qed.

Lemma run_of_nil_head (p : char -> bool) (s : pystr) :
  run_of p s = [] <-> head_is p s = false.
Proof.
  destruct s as [|c s]; [done|]. unfold head_is. simpl.
  destruct (p c); [split; discriminate|done].
Qed.

Lemma collapse_run (p : char -> bool) (emit : char -> pystr) (s : pystr) :
  forall c, p c = true ->
    exists init l,
      run_of p (c :: s) = init ++ [l]
      /\ collapse p emit (c :: s)
         = emit l ++ collapse p emit (after_run p (c :: s)).
Proof.
  induction s as [|d s IH]; intros c Hc.
  - exists [], c. simpl. rewrite Hc. done.
  - destruct (p d) eqn:Hd.
    + destruct (IH d Hd) as (init & l & Hrun & Hcol).
      exists (c :: init), l. split.
      * change (run_of p (c :: d :: s))
          with (if p c then c :: run_of p (d :: s) else []).
        by rewrite Hc, Hrun.
      * change (collapse p emit (c :: d :: s))
          with (if p c then
                  if head_is p (d :: s) then collapse p emit (d :: s)
                  else emit c ++ collapse p emit (d :: s)
                else c :: collapse p emit (d :: s)).
        change (after_run p (c :: d :: s))
          with (if p c then after_run p (d :: s) else c :: d :: s).
        rewrite Hc. unfold head_is at 1. simpl head. simpl from_option.
        by rewrite Hd.
    + exists [], c. simpl. rewrite Hc, Hd. unfold head_is. simpl.
      by rewrite Hd.
Qed.

Section MatcherLemmas.
Context (U : UCD).

Lemma exec_Rep (m : nat) (r : regex) prev (s : pystr) k :
  exec U (Rep m r) prev s k
  = rep_loop (exec U r) m k (S (length s)) 0%nat prev s.
Proof. reflexivity. Qed.

Lemma rep_loop_cls (p : char -> bool) (m : nat) (s : pystr) :
  forall fuel cnt prev,
    (length s < fuel)%nat ->
    rep_loop (exec U (Cls p)) m (fun _ rest => Some rest) fuel cnt prev s
    = if (m <=? cnt + length (run_of p s))%nat
      then Some (after_run p s) else None.
Proof.
  induction s as [|c s IH]; intros fuel cnt prev Hfuel.
  - destruct fuel as [|fuel]; [simpl in Hfuel; lia|].
    simpl. by rewrite Nat.add_0_r.
  - destruct fuel as [|fuel]; [simpl in Hfuel; lia|].
    simpl in Hfuel. simpl. destruct (p c) eqn:Hc.
    + replace (length s <? S (length s))%nat with true
        by (symmetry; apply Nat.ltb_lt; lia).
      rewrite IH by lia. simpl.
      replace (cnt + S (length (run_of p s)))%nat
        with (S (cnt + length (run_of p s))) by lia.
      destruct (m <=? S (cnt + length (run_of p s)))%nat eqn:Hm; [done|].
      apply Nat.leb_gt in Hm.
      replace (m <=? cnt)%nat with false
        by (symmetry; apply Nat.leb_gt; lia).
      done.
    + simpl. by rewrite Nat.add_0_r.
Qed.

Lemma match_at_rep_cls (p : char -> bool) (m : nat) prev (s : pystr) :
  match_at U (Rep m (Cls p)) prev s
  = if (m <=? length (run_of p s))%nat then Some (after_run p s) else None.
Proof.
  unfold match_at. rewrite exec_Rep, rep_loop_cls by lia. done.
Qed.

Lemma matched_run (p : char -> bool) (s : pystr) :
  take (length s - length (after_run p s)) s = run_of p s.
Proof.
  pose proof (after_run_length p s) as Hlen.
  replace (length s - length (after_run p s))%nat
    with (length (run_of p s)) by lia.
  pose proof (take_app_length (run_of p s) (after_run p s)) as Htake.
  by rewrite run_after in Htake.
Qed.

(** [sub] with a pattern [[class]{m,}], for [m] 1 or 2, when a run too short
    to match is its own replacement. *)
Lemma sub_from_rep_cls (p : char -> bool) (m : nat)
      (repl : pystr -> pystr) (emit : char -> pystr) :
  (1 <= m <= 2)%nat ->
  (forall c, m = 2%nat -> emit c = [c]) ->
  (forall run c, (m <= length (run ++ [c]))%nat ->
                 repl (run ++ [c]) = emit c) ->
  forall (s : pystr) fuel prev,
    (length s <= fuel)%nat ->
    sub_from U (Rep m (Cls p)) repl fuel prev s = collapse p emit s.
Proof.
  intros Hm Hemit Hrepl s fuel. revert s.
  induction fuel as [|fuel IH]; intros s prev Hfuel.
  { destruct s; [done|simpl in Hfuel; lia]. }
  destruct s as [|c s]; [done|]. simpl in Hfuel.
  cbn [sub_from]. rewrite match_at_rep_cls.
  pose proof (after_run_length p (c :: s)) as Hlen.
  destruct (m <=? length (run_of p (c :: s)))%nat eqn:Hrun.
  - cbv zeta. rewrite matched_run.
    apply Nat.leb_le in Hrun.
    assert (Hc : p c = true).
    { destruct (p c) eqn:Hc; [done|]. simpl in Hrun. rewrite Hc in Hrun.
      simpl in Hrun. lia. }
    destruct (collapse_run p emit s c Hc) as (init & l & Hinit & Hcol).
    rewrite Hcol, Hinit. rewrite Hinit in Hrun.
    pose proof (Hrepl init l Hrun) as Hr.
    assert (Hafter : (length (after_run p (c :: s)) <= fuel)%nat).
    { rewrite Hinit, length_app in Hlen. cbn [length] in Hlen, Hfuel. lia. }
    destruct init as [|i0 init]; simpl in Hr |- *; rewrite Hr; f_equal;
      by apply IH.
  - apply Nat.leb_gt in Hrun. rewrite IH by lia.
    simpl. destruct (p c) eqn:Hc; [|done].
    simpl in Hrun. rewrite Hc in Hrun. simpl in Hrun.
    assert (Hm2 : m = 2%nat) by lia.
    assert (Hnil : run_of p s = []) by (apply length_zero_iff_nil; lia).
    apply run_of_nil_head in Hnil. rewrite Hnil, Hemit by done. done.
Qed.

End MatcherLemmas.

(** ** Texts on which collapsing changes nothing *)

Section Collapse.
Context (p : char -> bool) (emit : char -> pystr).
Hypothesis emit_settles :
  forall c, p c = true -> exists e, emit c = [e] /\ p e = true /\ emit e = [e].

Lemma collapse_settled (s : pystr) :
  settled p emit s -> collapse p emit s = s.
Proof.
  induction s as [|c s IH]; [done|]. intros [Hc Hs]. simpl.
  destruct (p c); [|by rewrite IH].
  destruct (Hc eq_refl) as [-> ->]. simpl. by rewrite IH.
Qed.

Lemma head_is_collapse (s : pystr) :
  head_is p (collapse p emit s) = head_is p s.
Proof.
  induction s as [|c s IH]; [done|]. simpl.
  destruct (p c) eqn:Hc.
  - destruct (head_is p s) eqn:Hs.
    + rewrite IH. unfold head_is. simpl. by rewrite Hc.
    + destruct (emit_settles c Hc) as (e & -> & He & _).
      unfold head_is. simpl. by rewrite He, Hc.
  - unfold head_is. simpl. done.
Qed.

Lemma settled_collapse (s : pystr) : settled p emit (collapse p emit s).
Proof.
  induction s as [|c s IH]; [done|]. simpl.
  destruct (p c) eqn:Hc.
  - destruct (head_is p s) eqn:Hs; [done|].
    destruct (emit_settles c Hc) as (e & -> & He & Hee). simpl.
    split; [|done]. intros _. split; [done|].
    by rewrite head_is_collapse.
  - simpl. split; [|done]. intros Hc'. congruence.
Qed.

Lemma collapse_idempotent (s : pystr) :
  collapse p emit (collapse p emit s) = collapse p emit s.
Proof. apply collapse_settled, settled_collapse. Qed.

Lemma settled_tail c (s : pystr) : settled p emit (c :: s) -> settled p emit s.
Proof. by intros [_ Hs]. Qed.

End Collapse.

(** ** Whitespace *)

Section Whitespace.
Context (U : UCD).

Lemma lstrip_after_run (s : pystr) : lstrip U s = after_run (isspace U) s.
Proof. induction s as [|c s IH]; [done|]. simpl. by rewrite IH. Qed.

Lemma lstrip_id (s : pystr) :
  head_is (isspace U) s = false -> lstrip U s = s.
Proof.
  destruct s as [|c s]; [done|]. unfold head_is. simpl. by intros ->.
Qed.

Lemma head_is_lstrip (s : pystr) : head_is (isspace U) (lstrip U s) = false.
Proof. rewrite lstrip_after_run. apply head_is_after_run. Qed.

Lemma lstrip_all_space (s : pystr) :
  forallb (isspace U) s = true -> lstrip U s = [].
Proof.
  induction s as [|c s IH]; [done|]. simpl.
  destruct (isspace U c); [|done]. simpl. exact IH.
Qed.

Lemma lstrip_snoc (l : pystr) (c : char) :
  lstrip U (l ++ [c])
  = if forallb (isspace U) l
    then (if isspace U c then [] else [c])
    else lstrip U l ++ [c].
Proof.
  induction l as [|d l IH]; [done|]. simpl.
  destruct (isspace U d); [|done]. simpl. exact IH.
Qed.

Lemma forallb_rev (f : char -> bool) (s : pystr) :
  forallb f (rev s) = forallb f s.
Proof.
  induction s as [|c s IH]; [done|]. simpl.
  rewrite forallb_app, IH. simpl. rewrite andb_true_r. apply andb_comm.
Qed.

Lemma rstrip_cons (c : char) (s : pystr) :
  rstrip U (c :: s)
  = if forallb (isspace U) (c :: s) then [] else c :: rstrip U s.
Proof.
  unfold rstrip. simpl rev. rewrite lstrip_snoc, forallb_rev. simpl forallb.
  destruct (forallb (isspace U) s) eqn:Hs.
  - rewrite andb_true_r. destruct (isspace U c); [done|].
    rewrite lstrip_all_space by (by rewrite forallb_rev). done.
  - rewrite andb_false_r. by rewrite rev_app_distr.
Qed.

Lemma head_is_rstrip (p : char -> bool) (s : pystr) :
  head_is p s = false -> head_is p (rstrip U s) = false.
Proof.
  destruct s as [|c s]; [done|]. rewrite rstrip_cons.
  by destruct (forallb (isspace U) (c :: s)).
Qed.

Lemma settled_lstrip (p : char -> bool) emit (s : pystr) :
  settled p emit s -> settled p emit (lstrip U s).
Proof.
  induction s as [|c s IH]; [done|]. intros Hs. simpl.
  destruct (isspace U c); [|done]. apply IH. by eapply settled_tail.
Qed.

Lemma settled_rstrip (p : char -> bool) emit (s : pystr) :
  settled p emit s -> settled p emit (rstrip U s).
Proof.
  induction s as [|c s IH]; [done|]. intros [Hc Hs]. rewrite rstrip_cons.
  destruct (forallb (isspace U) (c :: s)); [done|]. split; [|by apply IH].
  intros Hpc. destruct (Hc Hpc) as [He Hh]. split; [done|].
  by apply head_is_rstrip.
Qed.

Lemma rstrip_rstrip (s : pystr) : rstrip U (rstrip U s) = rstrip U s.
Proof.
  unfold rstrip. rewrite rev_involutive.
  by rewrite (lstrip_id (lstrip U (rev s))) by apply head_is_lstrip.
Qed.

Lemma strip_strip (s : pystr) : strip U (strip U s) = strip U s.
Proof.
  unfold strip.
  rewrite (lstrip_id (rstrip U (lstrip U s)))
    by apply head_is_rstrip, head_is_lstrip.
  apply rstrip_rstrip.
Qed.

Lemma sub_multi_space (s : pystr) :
  sub U (MULTI_SPACE_PATTERN U) (fun _ => str " ") s
  = collapse (isspace U) (fun _ => [32]) s.
Proof.
  unfold sub, MULTI_SPACE_PATTERN.
  apply (sub_from_rep_cls U (isspace U) 1 (fun _ => str " ") (fun _ => [32]));
    [lia|discriminate|done|done].
Qed.

Lemma space_settles c :
  isspace U c = true ->
  exists e, [32] = [e] /\ isspace U e = true /\ [32] = [e].
Proof. intros _. by exists 32. Qed.

(** [normalize_whitespace] is idempotent, whatever the Unicode table. *)
Lemma normalize_whitespace_idempotent (t : pystr) :
  normalize_whitespace U (normalize_whitespace U t) = normalize_whitespace U t.
Proof.
  unfold normalize_whitespace. rewrite !sub_multi_space.
  rewrite (collapse_settled (isspace U) (fun _ => [32])).
  - apply strip_strip.
  - apply settled_rstrip, settled_lstrip, settled_collapse, space_settles.
Qed.

End Whitespace.

(** ** Lower case *)

Section Lower.
Context (U : UCD).
Hypothesis closed : lower_closed U.

Lemma tolower_fixed c : c <> 0x3A3 -> Forall (lower_fixed U) (tolower U c).
Proof.
  intros Hsigma. unfold tolower at 1.
  destruct (is_ascii c) eqn:Hascii; [|by apply closed].
  constructor; [|constructor].
  unfold lower_fixed, tolower, is_ascii, in_range in *.
  apply N.ltb_lt in Hascii.
  destruct (65 <=? c) eqn:H1, (c <=? 90) eqn:H2; simpl;
    try apply N.leb_le in H1; try apply N.leb_le in H2;
    try apply N.leb_gt in H1; try apply N.leb_gt in H2.
  - split; [lia|].
    replace (c + 32 <? 128) with true by (symmetry; apply N.ltb_lt; lia).
    replace (c + 32 <=? 90) with false by (symmetry; apply N.leb_gt; lia).
    by rewrite andb_false_r.
  - split; [lia|].
    replace (c <? 128) with true by (symmetry; apply N.ltb_lt; lia).
    replace (c <=? 90) with false by (symmetry; apply N.leb_gt; lia).
    by rewrite andb_false_r.
  - split; [lia|].
    replace (c <? 128) with true by (symmetry; apply N.ltb_lt; lia).
    replace (65 <=? c) with false by (symmetry; apply N.leb_gt; lia).
    done.
  - split; [lia|].
    replace (c <? 128) with true by (symmetry; apply N.ltb_lt; lia).
    replace (65 <=? c) with false by (symmetry; apply N.leb_gt; lia).
    done.
Qed.

Lemma lower_ucs4_fixed before c after :
  Forall (lower_fixed U) (lower_ucs4 U before c after).
Proof.
  unfold lower_ucs4. destruct (c =? 0x3A3) eqn:Hc.
  - destruct closed as (_ & H2 & H3).
    destruct (final_sigma U before after); (constructor; [done|constructor]).
  - apply tolower_fixed. by apply N.eqb_neq.
Qed.

Lemma lower_from_fixed before (s : pystr) :
  Forall (lower_fixed U) (lower_from U before s).
Proof.
  revert before. induction s as [|c s IH]; intros before; [constructor|].
  simpl. apply Forall_app. split; [apply lower_ucs4_fixed|apply IH].
Qed.

Lemma lower_from_id (s : pystr) :
  Forall (lower_fixed U) s -> forall before, lower_from U before s = s.
Proof.
  induction 1 as [|c s [Hc Hlow] Hs IH]; intros before; [done|].
  simpl. unfold lower_ucs4.
  replace (c =? 0x3A3) with false by (symmetry; by apply N.eqb_neq).
  rewrite Hlow. simpl. by rewrite IH.
Qed.

(** [s.lower().lower() == s.lower()] *)
Lemma lower_idempotent (s : pystr) : lower U (lower U s) = lower U s.
Proof. unfold lower. apply lower_from_id, lower_from_fixed. Qed.

End Lower.

Lemma ascii_only_lower_closed : lower_closed ascii_only.
Proof.
  split; [|split].
  - intros c Hc Hsigma. simpl. constructor; [|constructor].
    split; [done|]. unfold tolower. by rewrite Hc.
  - split; [discriminate|reflexivity].
  - split; [discriminate|reflexivity].
Qed.

(** ** Punctuation *)

Lemma startswith_absent (old s : pystr) (x : char) :
  x ∈ old -> x ∉ s -> startswith old s = false.
Proof.
  intros Hold Hs. unfold startswith. apply bool_decide_eq_false.
  intros Heq. apply Hs. rewrite <- Heq in Hold.
  by eapply subseteq_take.
Qed.

(** A pattern with a character that the text does not hold is not found. *)
Lemma replace_absent (old new s : pystr) (x : char) :
  x ∈ old -> x ∉ s -> replace old new s = s.
Proof.
  intros Hold. unfold replace.
  induction s as [|c s IH]; intros Hs; [done|].
  cbn [replace_from].
  rewrite (startswith_absent old (c :: s) x) by done.
  f_equal. apply IH. intros Hx. apply Hs. by apply list_elem_of_further.
Qed.

(** Replacing one character by another is a map. *)
Lemma replace_char (a b : char) (s : pystr) :
  replace [a] [b] s = map (fun c => if c =? a then b else c) s.
Proof.
  unfold replace. induction s as [|c s IH]; [done|].
  cbn [replace_from map]. unfold startswith. cbn [length take].
  rewrite take_0. destruct (c =? a) eqn:Hc.
  - apply N.eqb_eq in Hc as ->. rewrite bool_decide_true by done.
    simpl. by rewrite IH.
  - apply N.eqb_neq in Hc. rewrite bool_decide_false by congruence.
    by rewrite IH.
Qed.

Lemma map_absent (a b : char) (s : pystr) :
  a ∉ s -> map (fun c => if c =? a then b else c) s = s.
Proof.
  induction s as [|c s IH]; intros Hs; [done|]. simpl.
  rewrite IH by (intros Hx; apply Hs; by apply list_elem_of_further).
  destruct (c =? a) eqn:Hc; [|done].
  apply N.eqb_eq in Hc as ->. exfalso. apply Hs, list_elem_of_here.
Qed.

Lemma elem_of_map_char (a b x : char) (s : pystr) :
  x <> b -> x ∈ map (fun c => if c =? a then b else c) s -> x ∈ s /\ x <> a.
Proof.
  intros Hb. induction s as [|c s IH]; simpl; [by intros ?%elem_of_nil|].
  intros [Hx|Hx]%elem_of_cons.
  - destruct (c =? a) eqn:Hc; [congruence|]. subst x.
    apply N.eqb_neq in Hc. split; [apply list_elem_of_here|done].
  - destruct (IH Hx). split; [by apply list_elem_of_further|done].
Qed.

Lemma collapse_subseteq (p : char -> bool) (s : pystr) (x : char) :
  x ∈ collapse p (fun c => [c]) s -> x ∈ s.
Proof.
  induction s as [|c s IH]; [done|]. simpl.
  destruct (p c); [destruct (head_is p s)|].
  - intros Hx. by apply list_elem_of_further, IH.
  - simpl. intros [->|Hx]%elem_of_cons;
      [apply list_elem_of_here|by apply list_elem_of_further, IH].
  - intros [->|Hx]%elem_of_cons;
      [apply list_elem_of_here|by apply list_elem_of_further, IH].
Qed.

Lemma settled_map_char (p : char -> bool) (a b : char) (s : pystr) :
  p a = false -> p b = false ->
  settled p (fun c => [c]) s ->
  settled p (fun c => [c]) (map (fun c => if c =? a then b else c) s).
Proof.
  intros Ha Hb. induction s as [|c s IH]; [done|]. intros [Hc Hs].
  simpl. split; [|by apply IH].
  assert (Hsame : forall d, p (if d =? a then b else d) = p d).
  { intros d. destruct (d =? a) eqn:Hd; [|done].
    apply N.eqb_eq in Hd as ->. by rewrite Ha, Hb. }
  rewrite Hsame. intros Hpc. destruct (Hc Hpc) as [_ Hh]. split; [done|].
  destruct s as [|d s]; [done|]. unfold head_is in *. simpl in *.
  by rewrite Hsame.
Qed.

Section Punctuation.
Context (U : UCD).

Lemma sub_multi_punct (s : pystr) :
  sub U MULTI_PUNCT_PATTERN (fun m => drop (length m - 1) m) s
  = collapse punct_class (fun c => [c]) s.
Proof.
  unfold sub, MULTI_PUNCT_PATTERN.
  apply (sub_from_rep_cls U punct_class 2
           (fun m => drop (length m - 1) m) (fun c => [c]));
    [lia|done| |done].
  intros run c _. rewrite length_app. simpl.
  replace (length run + 1 - 1)%nat with (length run) by lia.
  by rewrite drop_app_length.
Qed.

(** On a text without double quote and without ellipsis character, the
    function collapses the punctuation runs and rewrites the dashes. *)
Lemma normalize_punctuation_plain (t : pystr) :
  34 ∉ t -> 0x2026 ∉ t ->
  normalize_punctuation U t
  = hyphenate (collapse punct_class (fun c => [c]) t).
Proof.
  intros Hquote Hell. unfold normalize_punctuation. rewrite sub_multi_punct.
  set (s1 := collapse punct_class (fun c => [c]) t).
  assert (Hq1 : 34 ∉ s1) by (intros Hx; by apply collapse_subseteq in Hx).
  assert (He1 : 0x2026 ∉ s1) by (intros Hx; by apply collapse_subseteq in Hx).
  rewrite !(replace_absent [34] [34] s1 34) by (done || apply list_elem_of_here).
  rewrite (replace_absent _ [39] s1 34);
    [|simpl; do 2 apply list_elem_of_further; apply list_elem_of_here|done].
  change (str "-") with [45].
  rewrite !replace_char. fold (hyphenate s1).
  apply (replace_absent [0x2026] _ _ 0x2026); [apply list_elem_of_here|].
  unfold hyphenate. intros Hx.
  apply elem_of_map_char in Hx as [Hx _]; [|done].
  apply elem_of_map_char in Hx as [Hx _]; [|done]. done.
Qed.

Lemma hyphenate_absent (x : char) (s : pystr) :
  x <> 45 -> x ∉ s -> x ∉ hyphenate s.
Proof.
  intros Hx Hs Hin. unfold hyphenate in Hin.
  apply elem_of_map_char in Hin as [Hin _]; [|done].
  apply elem_of_map_char in Hin as [Hin _]; [|done]. done.
Qed.

Lemma hyphenate_hyphenate (s : pystr) : hyphenate (hyphenate s) = hyphenate s.
Proof.
  unfold hyphenate at 1.
  rewrite (map_absent 0x2013).
  - apply map_absent. unfold hyphenate. intros Hx.
    by apply elem_of_map_char in Hx as [_ Hx].
  - unfold hyphenate. intros Hx.
    apply elem_of_map_char in Hx as [Hx _]; [|done].
    by apply elem_of_map_char in Hx as [_ Hx].
Qed.

Lemma settled_hyphenate (s : pystr) :
  settled punct_class (fun c => [c]) s ->
  settled punct_class (fun c => [c]) (hyphenate s).
Proof.
  intros Hs. unfold hyphenate.
  apply settled_map_char; [done|done|]. by apply settled_map_char.
Qed.

Lemma punct_settles c :
  punct_class c = true ->
  exists e, [c] = [e] /\ punct_class e = true /\ [e] = [e].
Proof. intros Hc. by exists c. Qed.

(** [normalize_punctuation] is idempotent on the texts that hold neither a
    double quote nor the ellipsis character. *)
Lemma normalize_punctuation_idempotent (t : pystr) :
  34 ∉ t -> 0x2026 ∉ t ->
  normalize_punctuation U (normalize_punctuation U t)
  = normalize_punctuation U t.
Proof.
  intros Hquote Hell. rewrite (normalize_punctuation_plain t) by done.
  set (s1 := collapse punct_class (fun c => [c]) t).
  assert (Hq1 : 34 ∉ s1) by (intros Hx; by apply collapse_subseteq in Hx).
  assert (He1 : 0x2026 ∉ s1) by (intros Hx; by apply collapse_subseteq in Hx).
  rewrite normalize_punctuation_plain by (by apply hyphenate_absent).
  rewrite (collapse_settled punct_class (fun c => [c])).
  - apply hyphenate_hyphenate.
  - apply settled_hyphenate, settled_collapse, punct_settles.
Qed.

End Punctuation.

(** ** The three steps together *)

(** C6 (counterexample). The ellipsis character becomes three full stops,
    which a second application collapses to one. *)
Lemma normalize_punctuation_ellipsis_not_idempotent :
  normalize_punctuation ascii_only [0x2026] = str "..."
  /\ normalize_punctuation ascii_only (normalize_punctuation ascii_only [0x2026])
     = str "."
  /\ normalize_punctuation ascii_only (normalize_punctuation ascii_only [0x2026])
     <> normalize_punctuation ascii_only [0x2026].
Proof. split; [|split]; vm_compute; (reflexivity || discriminate). Qed.

(** The replacement of the quote line can complete a new occurrence of its
    own pattern, which a second application then replaces. *)
Example normalize_punctuation_quote_not_idempotent :
  let P := [44; 32; 34; 39; 34; 41] ++ str ".replace(" in
  let t := [44; 32; 34] ++ P ++ [34; 41] ++ str ".replace(" in
  normalize_punctuation ascii_only t = P
  /\ normalize_punctuation ascii_only (normalize_punctuation ascii_only t)
     = [39].
Proof. split; vm_compute; reflexivity. Qed.

(** C6. [normalize_whitespace] is idempotent on every text, with nothing
    assumed.  [str.lower] is idempotent on every text as soon as the
    lower-case mapping of the Unicode table only produces characters that
    are their own lower case, which the ASCII table satisfies by itself.
    [normalize_punctuation] is idempotent on the texts that hold neither
    the ellipsis character U+2026 nor a double quote.  Each condition
    stands in front of the one step that needs it. *)
Theorem normalization_steps_idempotent (U : UCD) (t : pystr) :
  normalize_whitespace U (normalize_whitespace U t) = normalize_whitespace U t
  /\ (lower_closed U -> lower U (lower U t) = lower U t)
  /\ (34 ∉ t -> 0x2026 ∉ t ->
      normalize_punctuation U (normalize_punctuation U t)
      = normalize_punctuation U t).
Proof.
  split; [|split].
  - apply normalize_whitespace_idempotent.
  - intros Hclosed. by apply lower_idempotent.
  - intros Hquote Hell. by apply normalize_punctuation_idempotent.
Qed.

(** The three equations on one text; the first two also on a text with a
    double quote and an ellipsis character, where the third one fails. *)
Lemma normalization_steps_idempotent_witness :
  let t := str "  Really???   Yes -- no!!  " in
  let u := [32; 34; 65; 34; 32; 32; 0x2026; 32] in
  (lower_closed ascii_only /\ (34 ∉ t) /\ (0x2026 ∉ t))
  /\ (normalize_whitespace ascii_only (normalize_whitespace ascii_only t)
      = normalize_whitespace ascii_only t
      /\ lower ascii_only (lower ascii_only t) = lower ascii_only t
      /\ normalize_punctuation ascii_only (normalize_punctuation ascii_only t)
         = normalize_punctuation ascii_only t)
  /\ (normalize_whitespace ascii_only (normalize_whitespace ascii_only u)
      = normalize_whitespace ascii_only u
      /\ lower ascii_only (lower ascii_only u) = lower ascii_only u).
Proof.
  cbv zeta.
  assert (Hquote : 34 ∉ str "  Really???   Yes -- no!!  ").
  { apply (bool_decide_unpack _). vm_compute. exact I. }
  assert (Hell : 0x2026 ∉ str "  Really???   Yes -- no!!  ").
  { apply (bool_decide_unpack _). vm_compute. exact I. }
  split; [split; [exact ascii_only_lower_closed|by split]|].
  split.
  - destruct (normalization_steps_idempotent
                ascii_only (str "  Really???   Yes -- no!!  "))
      as (Hw & Hl & Hp).
    split; [exact Hw|]. split; [exact (Hl ascii_only_lower_closed)|].
    exact (Hp Hquote Hell).
  - destruct (normalization_steps_idempotent
                ascii_only [32; 34; 65; 34; 32; 32; 0x2026; 32])
      as (Hw & Hl & _).
    split; [exact Hw|exact (Hl ascii_only_lower_closed)].
Defined.

Example normalize_steps_run :
  normalize_whitespace ascii_only (str "  Really???   Yes -- no!!  ")
  = str "Really??? Yes -- no!!"
  /\ normalize_punctuation ascii_only (str "  Really???   Yes -- no!!  ")
     = str "  Really?   Yes -- no!  "
  /\ lower ascii_only (str "  Really???   Yes -- no!!  ")
     = str "  really???   yes -- no!!  ".
Proof. split; [|split]; vm_compute; reflexivity. Qed.

(** * What the counts are equal to *)

Lemma select_length {A} (mask : list bool) (xs : list A) :
  length mask = length xs -> length (select mask xs) = sum_mask mask.
Proof.
  unfold sum_mask. revert xs.
  induction mask as [|b mask IH]; intros [|x xs] Hlen; simplify_eq/=; [done|].
  rewrite filter_cons. destruct b; simpl.
  - f_equal. by apply IH.
  - by apply IH.
Qed.

Lemma sum_mask_negb (mask : list bool) :
  (sum_mask (negb <$> mask) + sum_mask mask = length mask)%nat.
Proof.
  unfold sum_mask. induction mask as [|b mask IH]; [done|].
  rewrite fmap_cons, !filter_cons. destruct b; simpl; lia.
Qed.

Lemma duplicated_first_length seen vs :
  length (duplicated_first seen vs) = length vs.
Proof. revert seen. induction vs; intros; simpl; [done|by f_equal]. Qed.

Lemma duplicated_all_length seen vs :
  length (duplicated_all seen vs) = length vs.
Proof. revert seen. induction vs; intros; simpl; [done|by f_equal]. Qed.

Lemma duplicated_length keep vs : length (duplicated keep vs) = length vs.
Proof.
  destruct keep; simpl.
  - apply duplicated_first_length.
  - by rewrite length_rev, duplicated_first_length, length_rev.
  - apply duplicated_all_length.
Qed.

(** The length equation for exact deduplication, under each [keep] policy:
    the length of the frame returned plus the count returned is the length
    of the input. *)
Lemma remove_exact_duplicates_length
      U (h : store) df d text_col keep texts hashes :
  h !! df = Some d ->
  get_column d text_col = Ok texts ->
  mapM (fun t => compute_text_hash U t (str "md5")) texts = Ok hashes ->
  exists h' out n d',
    remove_exact_duplicates U df text_col keep h = (h', Ok (out, n))
    /\ h' !! out = Some d' /\ (len d' + n = len d)%nat.
Proof.
  intros Hdf Htexts Hhashes.
  rewrite (remove_exact_duplicates_run U h df d text_col keep texts hashes)
    by done.
  eexists _, _, _, _. split; [reflexivity|]. split.
  { rewrite lookup_app_r by (rewrite length_insert; lia).
    rewrite length_insert.
    by replace (length h + 2 - length h)%nat with 2%nat by lia. }
  assert (Hlen : length hashes = len d).
  { rewrite (mapM_length _ _ _ Hhashes). by apply get_column_length in Htexts. }
  unfold len in *. simpl.
  rewrite length_fmap.
  rewrite select_length.
  - rewrite <- Hlen, <- (length_fmap PyStr hashes),
      <- (duplicated_length keep (PyStr <$> hashes)).
    apply sum_mask_negb.
  - rewrite length_fmap, duplicated_length, length_fmap, length_zip_with,
      length_fmap. lia.
Qed.

(** ** Near deduplication on a frame with the default labels *)

Lemma py_div_Ok (a b : nat) : (0 < b)%nat -> exists q, py_div a b = Ok q.
Proof. destruct b; [lia|]. simpl. eauto. Qed.

Lemma sum_mask_fmap {A} (f : A -> bool) (l : list A) :
  sum_mask (f <$> l) = length (filter (fun x => f x = true) l).
Proof.
  unfold sum_mask. induction l as [|x l IH]; [done|].
  rewrite fmap_cons, !filter_cons. destruct (f x); simpl; by rewrite IH.
Qed.

Lemma filter_partition_length {A} (P : A -> Prop) `{!forall x, Decision (P x)}
      (l : list A) :
  (length (filter P l) + length (filter (fun x => ~ P x) l) = length l)%nat.
Proof.
  induction l as [|x l IH]; [done|]. rewrite !filter_cons.
  destruct (decide (P x)).
  - rewrite decide_False by tauto. simpl. lia.
  - rewrite decide_True by done. simpl. lia.
Qed.

Lemma size_below (X : gset nat) (n : nat) :
  (forall x, x ∈ X -> (x < n)%nat) ->
  length (filter (fun i => i ∈ X) (seq 0 n)) = size X.
Proof.
  intros Hlt. unfold size, set_size. simpl. apply Permutation_length.
  apply NoDup_Permutation.
  - apply NoDup_filter, NoDup_seq.
  - apply NoDup_elements.
  - intros x. rewrite list_elem_of_filter, elem_of_seq, elem_of_elements.
    split; [tauto|]. intros Hx. split; [done|]. specialize (Hlt x Hx). lia.
Qed.

Lemma index_isin_range (d : DataFrame) (X : gset nat) :
  df_index d = range_index (len d) ->
  index_isin d X = (fun i => bool_decide (i ∈ X)) <$> seq 0 (len d).
Proof.
  intros Hidx. unfold index_isin. rewrite Hidx. unfold range_index.
  rewrite <- list_fmap_compose. apply list_fmap_ext. intros i x _. simpl.
  rewrite bool_decide_true by lia. by rewrite Nat2Z.id.
Qed.

Lemma cluster_members_below sim thr n q c x :
  (q, c) ∈ duplicate_clusters (scan sim thr n) -> x ∈ c -> (x < n)%nat.
Proof.
  intros Hin Hx.
  destruct (scan_inv_scan sim thr n) as [_ _ Hclus _].
  destruct (Hclus q c Hin) as (_ & Hq & _ & Hothers).
  destruct (decide (x = q)) as [->|Hne]; [done|]. by apply Hothers.
Qed.

Lemma find_near_duplicates_below SK texts thr clusters keep x :
  find_near_duplicates SK texts thr = Ok clusters ->
  x ∈ indices_to_remove keep clusters -> (x < length texts)%nat.
Proof.
  unfold find_near_duplicates, find_near_duplicates_trace.
  intros Hfind Hx.
  apply elem_of_indices_to_remove in Hx as (c & Hc & Hx).
  apply to_remove_subseteq in Hx.
  destruct texts as [|t0 texts]; [simplify_eq; by apply elem_of_nil in Hc|].
  destruct (tfidf_cosine SK (t0 :: texts)) as [sim|e] eqn:Hsim.
  - simplify_eq. apply list_elem_of_fmap in Hc as [[q c'] [-> Hin]].
    by eapply cluster_members_below.
  - destruct e; simplify_eq. by apply elem_of_nil in Hc.
Qed.

(** X9. The length equation for near deduplication holds when the row labels
    are the positions 0, ..., n-1 and there is at least one row. *)
Lemma remove_near_duplicates_length_range_index
      SK (h : store) df d col thr keep texts :
  h !! df = Some d ->
  get_column d col = Ok texts ->
  df_index d = range_index (len d) ->
  df_rows d <> [] ->
  (forall e, tfidf_cosine SK texts = Raise e -> exists m, e = ValueError m) ->
  exists h' out n d',
    remove_near_duplicates SK df col thr keep h = (h', Ok (out, n))
    /\ h' !! out = Some d' /\ (len d' + n = len d)%nat.
Proof.
  intros Hdf Hcol Hidx Hrows Hsk. unfold remove_near_duplicates.
  rewrite (bind_load _ _ _ _ Hdf), Hcol, bind_lift_Ok.
  assert (Hfind : exists cs, find_near_duplicates SK texts thr = Ok cs).
  { unfold find_near_duplicates, find_near_duplicates_trace.
    destruct texts as [|t0 texts']; [eauto|].
    destruct (tfidf_cosine SK (t0 :: texts')) as [sim|e] eqn:Hsim; [eauto|].
    destruct (Hsk e eq_refl) as [m ->]. eauto. }
  destruct Hfind as [cs Hcs]. rewrite Hcs, bind_lift_Ok, bind_new.
  erewrite bind_copy by apply lookup_new.
  assert (Hlen : (0 < len d)%nat).
  { unfold len. destruct (df_rows d); [done|simpl; lia]. }
  destruct (py_div_Ok (size (indices_to_remove keep cs)) (len d) Hlen)
    as [rate ->].
  rewrite bind_lift_Ok. unfold ret.
  eexists _, _, _, _. split; [reflexivity|]. split; [apply lookup_new|].
  unfold len at 1. simpl. rewrite select_length.
  2:{ rewrite length_fmap. unfold index_isin, df_index.
      by rewrite !length_fmap. }
  rewrite index_isin_range by done.
  rewrite <- list_fmap_compose, sum_mask_fmap.
  rewrite <- (size_below (indices_to_remove keep cs) (len d)).
  2:{ intros x Hx. rewrite <- (get_column_length _ _ _ Hcol).
      by eapply find_near_duplicates_below. }
  pose proof (filter_partition_length
                (fun i => i ∈ indices_to_remove keep cs) (seq 0 (len d)))
    as Hpart.
  rewrite length_seq in Hpart.
  rewrite (list_filter_iff _ (fun x => x ∉ indices_to_remove keep cs)).
  - lia.
  - intros i. simpl. by rewrite negb_true_iff, bool_decide_eq_false.
Qed.

(** * Which calls leave the caller's frame alone *)

Section Extends.
Context {A B : Type}.

Lemma extends_ret (a : A) : extends (ret a).
Proof. intros h. exists []. simpl. by rewrite app_nil_r. Qed.

Lemma extends_raise e : extends (raise (A := A) e).
Proof. intros h. exists []. simpl. by rewrite app_nil_r. Qed.

Lemma extends_lift (r : result A) : extends (lift r).
Proof. intros h. exists []. simpl. by rewrite app_nil_r. Qed.

Lemma extends_bind_from (m : M A) (k : A -> M B) (h h0 : store) :
  (exists ext, fst (m h0) = h ++ ext) ->
  (forall a, extends (k a)) ->
  exists ext, fst (bind m k h0) = h ++ ext.
Proof.
  intros [ext Hm] Hk. unfold bind.
  destruct (m h0) as [h1 [a|e]]; simpl in Hm; subst h1.
  - destruct (Hk a (h ++ ext)) as [ext' Hext]. exists (ext ++ ext').
    by rewrite Hext, app_assoc.
  - by exists ext.
Qed.

Lemma extends_bind (m : M A) (k : A -> M B) :
  extends m -> (forall a, extends (k a)) -> extends (bind m k).
Proof. intros Hm Hk h. by apply extends_bind_from. Qed.

End Extends.

Lemma extends_load l : extends (load l).
Proof.
  intros h. exists []. unfold load. rewrite app_nil_r. by destruct (h !! l).
Qed.

Lemma extends_new d : extends (new d).
Proof. intros h. by exists [d]. Qed.

Lemma extends_copy l : extends (copy l).
Proof. apply extends_bind; [apply extends_load|apply extends_new]. Qed.

Lemma extends_lookup {A} (m : M A) (h : store) (l : ref) :
  extends m -> (l < length h)%nat -> fst (m h) !! l = h !! l.
Proof.
  intros Hm Hl. destruct (Hm h) as [ext ->]. by apply lookup_app_l.
Qed.

Lemma remove_near_duplicates_extends SK df col thr keep :
  extends (remove_near_duplicates SK df col thr keep).
Proof.
  unfold remove_near_duplicates.
  apply extends_bind; [apply extends_load|intros d].
  apply extends_bind; [apply extends_lift|intros texts].
  apply extends_bind; [apply extends_lift|intros clusters].
  apply extends_bind; [apply extends_new|intros tmp].
  apply extends_bind; [apply extends_copy|intros df_dedup].
  apply extends_bind; [apply extends_lift|intros _].
  apply extends_ret.
Qed.

(** X10. [remove_near_duplicates] assigns nothing: it changes no frame of
    the store, the one it is given included, and only adds new ones. *)
Lemma remove_near_duplicates_preserves_store
      SK df col thr keep (h : store) (l : ref) :
  (l < length h)%nat ->
  fst (remove_near_duplicates SK df col thr keep h) !! l = h !! l.
Proof. apply extends_lookup, remove_near_duplicates_extends. Qed.

(** On a frame that was just created, [remove_exact_duplicates] changes
    nothing older than that frame. *)
Lemma remove_exact_duplicates_fresh U col keep (h : store) (d0 : DataFrame) :
  exists ext,
    fst (remove_exact_duplicates U (length h) col keep (h ++ [d0])) = h ++ ext.
Proof.
  destruct (get_column d0 col) as [texts|e] eqn:Htexts.
  - destruct (mapM (fun t => compute_text_hash U t (str "md5")) texts)
      as [hashes|e] eqn:Hhashes.
    + rewrite (remove_exact_duplicates_run U (h ++ [d0]) (length h) d0 col keep
                 texts hashes) by (done || apply lookup_new).
      simpl. eexists.
      replace (length h) with (length h + 0)%nat at 1 by lia.
      rewrite insert_app_r. simpl. by rewrite <- app_assoc.
    + exists [d0]. unfold remove_exact_duplicates.
      rewrite (bind_load _ d0) by apply lookup_new.
      by rewrite Htexts, bind_lift_Ok, Hhashes.
  - exists [d0]. unfold remove_exact_duplicates.
    rewrite (bind_load _ d0) by apply lookup_new.
    by rewrite Htexts.
Qed.

Lemma deduplicate_dataframe_extends U SK df col exact near thr keep :
  extends (deduplicate_dataframe U SK df col exact near thr keep).
Proof.
  intros h. unfold deduplicate_dataframe.
  destruct (h !! df) as [d|] eqn:Hdf.
  2:{ exists []. unfold bind, load. rewrite Hdf. simpl. by rewrite app_nil_r. }
  rewrite (bind_load _ _ _ _ Hdf), (bind_copy _ _ _ _ Hdf).
  apply extends_bind_from.
  { destruct exact; [apply remove_exact_duplicates_fresh|by exists [d]]. }
  intros [df_dedup n_exact].
  apply extends_bind.
  { destruct near; [apply remove_near_duplicates_extends|apply extends_ret]. }
  intros [df_dedup' n_near].
  apply extends_bind; [apply extends_load|intros d'].
  apply extends_bind; [|intros rate; apply extends_ret].
  destruct (len d); [apply extends_raise|apply extends_ret].
Qed.

(** [deduplicate_dataframe] works on a copy: it changes no frame of the
    store, the one it is given included. *)
Lemma deduplicate_dataframe_preserves_store
      U SK df col exact near thr keep (h : store) (l : ref) :
  (l < length h)%nat ->
  fst (deduplicate_dataframe U SK df col exact near thr keep h) !! l = h !! l.
Proof. apply extends_lookup, deduplicate_dataframe_extends. Qed.

(** * Degenerate collections *)

Lemma select_all {A} (xs : list A) (mask : list bool) :
  length mask = length xs -> Forall (eq true) mask -> select mask xs = xs.
Proof.
  revert xs. induction mask as [|b mask IH]; intros [|x xs] Hlen Hall;
    simplify_eq/=; [done|].
  inversion_clear Hall as [|? ? <- Hall']. f_equal. by apply IH.
Qed.

Lemma df_select_all (d : DataFrame) :
  df_select (negb <$> index_isin d ∅) d = d.
Proof.
  destruct d as [cols rows]. unfold df_select, index_isin, df_index. simpl.
  f_equal. apply select_all.
  - by rewrite !length_fmap.
  - rewrite <- !list_fmap_compose. apply Forall_fmap, Forall_forall.
    intros [l cells] _. simpl.
    rewrite (bool_decide_false (_ ∈ ∅)) by apply not_elem_of_empty.
    by rewrite andb_false_r.
Qed.

(** Without a cluster the frame is copied as it is and the count is 0. *)
Lemma remove_near_duplicates_no_cluster
      SK (h : store) df d col thr keep texts :
  h !! df = Some d -> get_column d col = Ok texts -> df_rows d <> [] ->
  find_near_duplicates SK texts thr = Ok [] ->
  remove_near_duplicates SK df col thr keep h
  = (h ++ [d; d], Ok (S (length h), 0%nat)).
Proof.
  intros Hdf Hcol Hrows Hfind. unfold remove_near_duplicates.
  rewrite (bind_load _ _ _ _ Hdf), Hcol, bind_lift_Ok, Hfind, bind_lift_Ok.
  change (indices_to_remove keep []) with (∅ : gset nat).
  rewrite df_select_all, bind_new.
  rewrite (bind_copy _ d) by apply lookup_new.
  rewrite size_empty.
  assert (Hlen : (0 < len d)%nat).
  { unfold len. destruct (df_rows d); [done|simpl; lia]. }
  destruct (py_div_Ok 0 (len d) Hlen) as [rate ->].
  rewrite bind_lift_Ok. unfold ret. rewrite <- app_assoc, length_app. simpl.
  do 3 f_equal. lia.
Qed.

(** X12. A corpus that cannot be vectorised: zero removals, the rows as they
    were. *)
Lemma remove_near_duplicates_unvectorizable
      SK (h : store) df d col thr keep texts m :
  h !! df = Some d -> get_column d col = Ok texts -> df_rows d <> [] ->
  tfidf_cosine SK texts = Raise (ValueError m) ->
  remove_near_duplicates SK df col thr keep h
  = (h ++ [d; d], Ok (S (length h), 0%nat)).
Proof.
  intros Hdf Hcol Hrows Hsk.
  eapply remove_near_duplicates_no_cluster; [done..|].
  by eapply find_near_duplicates_ValueError.
Qed.

Lemma scan_single sim thr : duplicate_clusters (scan sim thr 1) = [].
Proof.
  destruct (scan_inv_scan sim thr 1) as [_ _ Hclus _].
  destruct (duplicate_clusters (scan sim thr 1)) as [|[q c] cs]; [done|].
  destruct (Hclus q c (list_elem_of_here _ _)) as (_ & Hq & (x & Hx & Hne) & Hlt).
  destruct (Hlt x Hx Hne) as [Hx1 _]. lia.
Qed.

(** X13. A single record: zero removals in both modes. *)
Lemma single_record_no_removal
      U SK (h : store) df d col thr keep texts hashes :
  h !! df = Some d -> len d = 1%nat ->
  get_column d col = Ok texts ->
  mapM (fun t => compute_text_hash U t (str "md5")) texts = Ok hashes ->
  (forall e, tfidf_cosine SK texts = Raise e -> exists m, e = ValueError m) ->
  (exists h' out, remove_exact_duplicates U df col keep h = (h', Ok (out, 0%nat)))
  /\ remove_near_duplicates SK df col thr keep h
     = (h ++ [d; d], Ok (S (length h), 0%nat)).
Proof.
  intros Hdf Hlen Hcol Hhashes Hsk.
  assert (Htexts : length texts = 1%nat).
  { by rewrite (get_column_length _ _ _ Hcol). }
  split.
  - rewrite (remove_exact_duplicates_run U h df d col keep texts hashes)
      by done.
    eexists _, _. do 2 f_equal. f_equal.
    pose proof (mapM_length _ _ _ Hhashes) as Hh. rewrite Htexts in Hh.
    destruct hashes as [|x [|? ?]]; simplify_eq/=.
    by destruct keep.
  - apply (remove_near_duplicates_no_cluster SK h df d col thr keep texts);
      [done|done| |].
    { unfold len in Hlen. by destruct (df_rows d). }
    destruct (tfidf_cosine SK texts) as [sim|e] eqn:Hsim.
    + destruct (find_near_duplicates_trace_Ok SK texts thr sim Hsim)
        as [_ ->].
      by rewrite Htexts, scan_single.
    + destruct (Hsk e eq_refl) as [m ->].
      by eapply find_near_duplicates_ValueError.
Qed.

Example single_record_run :
  snd (deduplicate_dataframe ascii_only same_terms 0%nat "text" true true
         (Qmake 95 100) keep_first [text_frame [PyStr (str "hello world")]])
  = Ok (6%nat,
        {| original_size := 1; exact_duplicates_removed := 0;
           near_duplicates_removed := 0; final_size := 1;
           total_removed := 0; dedup_rate := Qmake 0 1 |}).
Proof. vm_compute. reflexivity. Qed.

(** * The dictionary step, token by token *)

Lemma run_of_all (p : char -> bool) (s : pystr) :
  Forall (fun c => p c = true) s -> run_of p s = s /\ after_run p s = [].
Proof.
  induction 1 as [|c s Hc Hs [IH1 IH2]]; [done|]. simpl.
  by rewrite Hc, IH1, IH2.
Qed.

Section DictionaryStep.
Context (U : UCD).

(** On a miss the token is kept. *)
Lemma normalize_word_miss (word_dict : gmap pystr pystr) (word : pystr) :
  word_dict !! sub U (Cls (fun c => negb (isword U c))) (fun _ => [])
                   (lower U word) = None ->
  normalize_word U word_dict word = word.
Proof. intros Hmiss. unfold normalize_word. by rewrite Hmiss. Qed.

Lemma findall_trailing (w tail : pystr) :
  Forall (fun c => isword U c = true) w ->
  Forall (fun c => isword U c = false) tail ->
  forall fuel prev,
    (length (w ++ tail) <= fuel)%nat ->
    findall_from U (Rep 1 (Cls (fun c => negb (isword U c)))) fuel prev
                 (w ++ tail)
    = match tail with [] => [] | _ => [tail] end.
Proof.
  intros Hw Htail. induction Hw as [|c w Hc Hw IH]; intros fuel prev Hfuel.
  - simpl. destruct tail as [|c tail]; [by destruct fuel|].
    destruct fuel as [|fuel]; [simpl in Hfuel; lia|].
    cbn [findall_from]. rewrite match_at_rep_cls.
    destruct (run_of_all (fun c => negb (isword U c)) (c :: tail)) as [Hr Ha].
    { eapply Forall_impl; [exact Htail|]. simpl. by intros ? ->. }
    rewrite Hr, Ha. cbn [length Nat.leb Nat.sub take].
    rewrite firstn_all. destruct fuel; reflexivity.
  - destruct fuel as [|fuel]; [simpl in Hfuel; lia|].
    simpl in Hfuel. change ((c :: w) ++ tail) with (c :: (w ++ tail)).
    cbn [findall_from]. rewrite match_at_rep_cls.
    cbn [run_of]. rewrite Hc. simpl. apply IH. lia.
Qed.

(** On a hit, a token made of word characters followed by punctuation gets
    the canonical spelling, capitalised if the token started with an
    upper-case letter, followed by that punctuation. *)
Lemma normalize_word_trailing
      (word_dict : gmap pystr pystr) (w tail v : pystr) :
  w <> [] ->
  Forall (fun c => isword U c = true) w ->
  Forall (fun c => isword U c = false) tail ->
  word_dict !! sub U (Cls (fun c => negb (isword U c))) (fun _ => [])
                   (lower U (w ++ tail)) = Some v ->
  normalize_word U word_dict (w ++ tail)
  = (if from_option (isupper U) false (head w) then capitalize U v else v)
      ++ tail.
Proof.
  intros Hne Hw Htail Hhit. unfold normalize_word. rewrite Hhit.
  unfold findall. rewrite findall_trailing by done.
  destruct w as [|c w]; [done|]. simpl head.
  destruct tail; [rewrite ?app_nil_r|]; reflexivity.
Qed.

End DictionaryStep.

Example normalize_romanized_hindi_trailing (U : UCD) :
  normalize_romanized_hindi U (str "Kia  nahin  samjho, bhaii???") None
  = str "Kya nahi samajho, bhai???".
Proof. vm_compute. reflexivity. Qed.

(** * Further properties of [src/utils/deduplication.py] *)

(** ** The text that is hashed *)

Lemma elem_of_rev {A} (x : A) (l : list A) : x ∈ rev l <-> x ∈ l.
Proof. rewrite !list_elem_of_In. symmetry. apply in_rev. Qed.

Section SplitJoin.
Context (U : UCD).

Lemma split_from_word (w acc rest : pystr) :
  Forall (fun c => isspace U c = false) w ->
  split_from U acc (w ++ rest) = split_from U (rev w ++ acc) rest.
Proof.
  intros Hw. revert acc. induction Hw as [|c w Hc Hw IH]; intros acc; [done|].
  simpl. rewrite Hc, IH. by rewrite <- app_assoc.
Qed.

Lemma split_from_wordy (s acc : pystr) :
  Forall (fun c => isspace U c = false) acc ->
  Forall (wordy U) (split_from U acc s).
Proof.
  revert acc. induction s as [|c s IH]; intros acc Hacc; simpl.
  - destruct acc as [|a acc]; [constructor|].
    constructor; [|constructor]. split.
    + simpl. by destruct (rev acc).
    + by apply Forall_rev.
  - destruct (isspace U c) eqn:Hc.
    + destruct acc as [|a acc]; [by apply IH|].
      constructor; [|by apply IH]. split.
      * simpl. by destruct (rev acc).
      * by apply Forall_rev.
    + apply IH. by constructor.
Qed.

Lemma split_wordy (s : pystr) : Forall (wordy U) (split U s).
Proof. by apply split_from_wordy. Qed.

(** [' '.join(ws).split() == ws] for words without whitespace. *)
Lemma split_join (ws : list pystr) :
  Forall (wordy U) ws -> split U (join (str " ") ws) = ws.
Proof.
  unfold split. induction 1 as [|w ws [Hne Hw] Hws IH]; [done|].
  destruct ws as [|w' ws].
  - change (join (str " ") [w]) with w.
    rewrite <- (app_nil_r w) at 1. rewrite split_from_word by done.
    rewrite app_nil_r. simpl.
    destruct (rev w) eqn:Hrev.
    { by rewrite <- (rev_involutive w), Hrev in Hne. }
    by rewrite <- Hrev, rev_involutive.
  - change (join (str " ") (w :: w' :: ws))
      with (w ++ 32 :: join (str " ") (w' :: ws)).
    rewrite split_from_word by done. rewrite app_nil_r.
    cbn [split_from].
    replace (isspace U 32) with true by (by vm_compute).
    destruct (rev w) eqn:Hrev.
    { by rewrite <- (rev_involutive w), Hrev in Hne. }
    rewrite <- Hrev, rev_involutive. by rewrite IH.
Qed.

Lemma join_chars (ws : list pystr) (c : char) :
  c ∈ join (str " ") ws -> c = 32 \/ exists w, w ∈ ws /\ c ∈ w.
Proof.
  induction ws as [|w ws IH]; [by intros ?%elem_of_nil|].
  destruct ws as [|w' ws].
  - simpl. intros Hc. right. exists w. split; [apply list_elem_of_here|done].
  - change (join (str " ") (w :: w' :: ws))
      with (w ++ 32 :: join (str " ") (w' :: ws)).
    rewrite elem_of_app, elem_of_cons. intros [Hc|[->|Hc]].
    + right. exists w. split; [apply list_elem_of_here|done].
    + by left.
    + destruct (IH Hc) as [->|(x & Hx & Hcx)]; [by left|].
      right. exists x. split; [by apply list_elem_of_further|done].
Qed.

Lemma split_from_chars (s acc : pystr) (w : pystr) (c : char) :
  w ∈ split_from U acc s -> c ∈ w -> c ∈ acc \/ c ∈ s.
Proof.
  revert acc. induction s as [|d s IH]; intros acc; simpl.
  - destruct acc as [|a acc]; [by intros ?%elem_of_nil|].
    rewrite list_elem_of_singleton. intros -> Hc. left.
    by apply (elem_of_rev c (a :: acc)).
  - destruct (isspace U d).
    + destruct acc as [|a acc].
      * intros Hw Hc. destruct (IH [] Hw Hc) as [Hn|Hs];
          [by apply elem_of_nil in Hn|].
        right. by apply list_elem_of_further.
      * rewrite elem_of_cons. intros [->|Hw] Hc.
        -- left. by apply (elem_of_rev c (a :: acc)).
        -- destruct (IH [] Hw Hc) as [Hn|Hs]; [by apply elem_of_nil in Hn|].
           right. by apply list_elem_of_further.
    + intros Hw Hc. destruct (IH (d :: acc) Hw Hc) as [Ha|Hs].
      * apply elem_of_cons in Ha as [->|Ha]; [right; apply list_elem_of_here|by left].
      * right. by apply list_elem_of_further.
Qed.

End SplitJoin.

Section HashedText.
Context (U : UCD).
Hypothesis closed : lower_closed U.

Lemma space_lower_fixed : lower_fixed U 32.
Proof. split; [discriminate|reflexivity]. Qed.

Lemma hashed_text_fixed (t : pystr) :
  Forall (lower_fixed U) (join (str " ") (split U (lower U t))).
Proof.
  apply Forall_forall. intros c Hc.
  apply join_chars in Hc as [->|(w & Hw & Hc)]; [apply space_lower_fixed|].
  destruct (split_from_chars U _ _ _ _ Hw Hc) as [Hn|Hl];
    [by apply elem_of_nil in Hn|].
  pose proof (lower_from_fixed U closed [] t) as Hall.
  rewrite Forall_forall in Hall. by apply Hall.
Qed.

Lemma hashed_text_again (t : pystr) :
  let n := join (str " ") (split U (lower U t)) in
  join (str " ") (split U (lower U n)) = n.
Proof.
  intros n. unfold lower.
  rewrite (lower_from_id U n (hashed_text_fixed t)).
  unfold n. by rewrite split_join by apply split_wordy.
Qed.

End HashedText.

(** X1. The hash does not see case or spacing: a text, its lower-case form
    and the text that is actually hashed (lower-cased, split at whitespace
    and joined by single spaces) all have the same hash, under either
    algorithm and with the same outcome for an unknown one. *)
Theorem compute_text_hash_normal_form U (t alg : pystr) :
  lower_closed U ->
  compute_text_hash U (PyStr (join (str " ") (split U (lower U t)))) alg
  = compute_text_hash U (PyStr t) alg
  /\ compute_text_hash U (PyStr (lower U t)) alg
     = compute_text_hash U (PyStr t) alg.
Proof.
  intros closed. unfold compute_text_hash. split.
  - by rewrite (hashed_text_again U closed t).
  - by rewrite (lower_idempotent U closed t).
Qed.

Lemma compute_text_hash_normal_form_witness :
  lower_closed ascii_only
  /\ compute_text_hash ascii_only
       (PyStr (join (str " ")
                 (split ascii_only (lower ascii_only (str "  Same   TEXT ")))))
       (str "md5")
     = compute_text_hash ascii_only (PyStr (str "  Same   TEXT ")) (str "md5")
  /\ compute_text_hash ascii_only
       (PyStr (lower ascii_only (str "  Same   TEXT "))) (str "md5")
     = compute_text_hash ascii_only (PyStr (str "  Same   TEXT ")) (str "md5").
Proof.
  split; [exact ascii_only_lower_closed|].
  exact (compute_text_hash_normal_form ascii_only (str "  Same   TEXT ")
           (str "md5") ascii_only_lower_closed).
Defined.

(** ** The shape of a digest *)

Lemma encode_utf8_Raise (s : pystr) e :
  encode_utf8 s = Raise e -> e = UnicodeEncodeError.
Proof.
  induction s as [|c s IH]; [done|]. simpl.
  destruct (utf8_char c); [|by intros [= <-]].
  destruct (encode_utf8 s); [done|]. intros [= <-]. by apply IH.
Qed.

Lemma le_bytes_length k x : length (Hashlib.le_bytes k x) = k.
Proof. unfold Hashlib.le_bytes. by rewrite length_map, length_seq. Qed.

Lemma land_255 x : N.land x 0xFF < 256.
Proof.
  change 0xFF with (N.ones 8). rewrite N.land_ones.
  apply N.mod_lt. discriminate.
Qed.

Lemma le_bytes_bound k x : Forall (fun b => b < 256) (Hashlib.le_bytes k x).
Proof.
  unfold Hashlib.le_bytes. apply Forall_forall. intros b Hb.
  apply list_elem_of_In, in_map_iff in Hb as (i & <- & _). apply land_255.
Qed.

Lemma hex_digit_is_hex d : d < 16 -> is_hex (Hashlib.hex_digit d) = true.
Proof.
  intros Hd. unfold Hashlib.hex_digit, is_hex, in_range.
  destruct (d <? 10) eqn:H10.
  - apply N.ltb_lt in H10. apply orb_true_iff. left.
    apply andb_true_iff. split; apply N.leb_le; lia.
  - apply N.ltb_ge in H10. apply orb_true_iff. right.
    apply andb_true_iff. split; apply N.leb_le; lia.
Qed.

Lemma hexlify_format (bs : list N) :
  Forall (fun b => b < 256) bs ->
  length (Hashlib.hexlify bs) = (2 * length bs)%nat
  /\ Forall (fun c => is_hex c = true) (Hashlib.hexlify bs).
Proof.
  unfold Hashlib.hexlify. induction 1 as [|b bs Hb Hbs [IHl IHf]]; [done|].
  simpl. split; [lia|].
  constructor; [|constructor; [|exact IHf]]; apply hex_digit_is_hex.
  - rewrite N.shiftr_div_pow2. apply N.Div0.div_lt_upper_bound.
    change (2 ^ 4 * 16) with 256. exact Hb.
  - change 0xF with (N.ones 4). rewrite N.land_ones.
    apply N.mod_lt. discriminate.
Qed.

Lemma md5_digest_bytes (msg : list N) :
  length (Hashlib.md5_digest msg) = 16%nat
  /\ Forall (fun b => b < 256) (Hashlib.md5_digest msg).
Proof.
  unfold Hashlib.md5_digest. cbv zeta.
  destruct (foldl Hashlib.md5_block _ _) as [[[a b] c] d].
  split.
  - by rewrite !length_app, !le_bytes_length.
  - rewrite !Forall_app. repeat split; apply le_bytes_bound.
Qed.

Lemma sha256_round_length W v t :
  length (Hashlib.sha256_round W v t) = length v.
Proof.
  unfold Hashlib.sha256_round.
  destruct v as [|a [|b [|c [|d [|e [|f [|g [|h [|i v]]]]]]]]]; reflexivity.
Qed.

Lemma sha256_block_length H block :
  length (Hashlib.sha256_block H block) = length H.
Proof.
  unfold Hashlib.sha256_block. cbv zeta. rewrite length_zip_with.
  generalize (foldl Hashlib.sha256_extend
                (map Hashlib.be_word (Hashlib.chunks 4 16 block)) (seq 16 48)).
  intros W.
  assert (Hl : forall ts v, length (foldl (Hashlib.sha256_round W) v ts)
                            = length v).
  { induction ts as [|t ts IH]; intros v; [done|]. simpl.
    by rewrite IH, sha256_round_length. }
  rewrite Hl. lia.
Qed.

Lemma sha256_digest_bytes (msg : list N) :
  length (Hashlib.sha256_digest msg) = 32%nat
  /\ Forall (fun b => b < 256) (Hashlib.sha256_digest msg).
Proof.
  unfold Hashlib.sha256_digest. cbv zeta.
  generalize (Hashlib.chunks 64 (length (Hashlib.pad Hashlib.be_bytes msg))
                (Hashlib.pad Hashlib.be_bytes msg)).
  intros blocks.
  assert (Hl : forall bs H, length (foldl Hashlib.sha256_block H bs)
                            = length H).
  { induction bs as [|b bs IH]; intros H; [done|]. simpl.
    by rewrite IH, sha256_block_length. }
  specialize (Hl blocks Hashlib.sha256_H0).
  change (length Hashlib.sha256_H0) with 8%nat in Hl.
  destruct (foldl Hashlib.sha256_block Hashlib.sha256_H0 blocks)
    as [|a [|b [|c [|d [|e [|f [|g [|h [|i v]]]]]]]]]; try discriminate Hl.
  split; [reflexivity|].
  cbn [flat_map]. rewrite !Forall_app. unfold Hashlib.be_bytes.
  repeat split; first [apply Forall_rev, le_bytes_bound | constructor].
Qed.

(** X2. On every string [compute_text_hash] either returns a digest in
    lower-case hexadecimal, of 32 characters for md5 and 64 for sha256, or
    lets the [UnicodeEncodeError] of [encode('utf-8')] escape; it raises
    nothing else. *)
Theorem compute_text_hash_digest_format U (t : pystr) :
  match compute_text_hash U (PyStr t) (str "md5") with
  | Ok h => length h = 32%nat /\ Forall (fun c => is_hex c = true) h
  | Raise e => e = UnicodeEncodeError
  end
  /\ match compute_text_hash U (PyStr t) (str "sha256") with
     | Ok h => length h = 64%nat /\ Forall (fun c => is_hex c = true) h
     | Raise e => e = UnicodeEncodeError
     end.
Proof.
  unfold compute_text_hash.
  rewrite (bool_decide_true (str "md5" = str "md5")) by done.
  rewrite (bool_decide_false (str "sha256" = str "md5")) by discriminate.
  rewrite (bool_decide_true (str "sha256" = str "sha256")) by done.
  destruct (encode_utf8 _) as [bytes|e] eqn:Henc.
  - split.
    + destruct (md5_digest_bytes bytes) as [Hl Hb].
      destruct (hexlify_format _ Hb) as [Hl' Hf].
      unfold Hashlib.md5_hexdigest. split; [rewrite Hl', Hl; reflexivity|done].
    + destruct (sha256_digest_bytes bytes) as [Hl Hb].
      destruct (hexlify_format _ Hb) as [Hl' Hf].
      unfold Hashlib.sha256_hexdigest.
      split; [rewrite Hl', Hl; reflexivity|done].
  - apply encode_utf8_Raise in Henc. by split.
Qed.

(** ** What exact deduplication retains *)

Lemma select_fmap {A B} (f : A -> B) (mask : list bool) (xs : list A) :
  select mask (f <$> xs) = f <$> select mask xs.
Proof.
  revert xs. induction mask as [|b mask IH]; intros [|x xs]; try done.
  simpl. destruct b; simpl; by rewrite IH.
Qed.

Lemma select_sublist {A} (mask : list bool) (xs : list A) :
  select mask xs `sublist_of` xs.
Proof.
  revert xs. induction mask as [|b mask IH]; intros [|x xs]; simpl;
    try apply sublist_nil_l.
  destruct b; [by apply sublist_skip|by apply sublist_cons].
Qed.

Lemma select_snoc {A} (mask : list bool) (xs : list A) b x :
  length mask = length xs ->
  select (mask ++ [b]) (xs ++ [x]) = select mask xs ++ (if b then [x] else []).
Proof.
  revert xs. induction mask as [|c mask IH]; intros [|y xs] Hlen;
    simplify_eq/=; [by destruct b|].
  rewrite IH by done. by destruct c.
Qed.

Lemma select_rev {A} (mask : list bool) (xs : list A) :
  length mask = length xs ->
  select (rev mask) (rev xs) = rev (select mask xs).
Proof.
  revert xs. induction mask as [|b mask IH]; intros [|x xs] Hlen;
    simplify_eq/=; [done|].
  rewrite select_snoc by (by rewrite !length_rev).
  rewrite IH by done. destruct b; simpl; [done|by rewrite app_nil_r].
Qed.

Lemma mapM_select {A B} (f : A -> result B) (mask : list bool) xs ys :
  mapM f xs = Ok ys -> mapM f (select mask xs) = Ok (select mask ys).
Proof.
  revert mask ys. induction xs as [|x xs IH]; intros mask ys; simpl.
  - intros [= <-]. by destruct mask.
  - destruct (f x) as [y|] eqn:Hy; [|done].
    destruct (mapM f xs) as [ys'|] eqn:Hys; [|done]. intros [= <-].
    destruct mask as [|[] mask]; simpl; [done| |by apply IH].
    by rewrite Hy, (IH mask ys').
Qed.

Lemma fmap_rev {A B} (f : A -> B) (l : list A) : f <$> rev l = rev (f <$> l).
Proof.
  induction l as [|x l IH]; [done|]. simpl. by rewrite fmap_app, IH.
Qed.

(** The values that [duplicated(keep='first')] leaves unmarked: one copy of
    every value that was not seen before. *)
Lemma retained_first (seen vs : list pyval) :
  NoDup (select (negb <$> duplicated_first seen vs) vs)
  /\ forall x, x ∈ select (negb <$> duplicated_first seen vs) vs
               <-> x ∈ vs /\ x ∉ seen.
Proof.
  revert seen. induction vs as [|v vs IH]; intros seen.
  { split; [constructor|]. intros x. simpl. split; [by intros ?%elem_of_nil|].
    by intros [?%elem_of_nil _]. }
  destruct (IH (v :: seen)) as [Hnd Hin]. simpl.
  case_bool_decide as Hv; simpl.
  - split; [done|]. intros x. rewrite Hin, !elem_of_cons. split.
    + intros [Hx Hn]. split; [by right|]. intros Hs. apply Hn. by right.
    + intros [[->|Hx] Hn]; [done|]. split; [done|].
      intros [->|Hs]; done.
  - split.
    + constructor; [|done]. rewrite Hin. intros [_ Hn]. apply Hn.
      apply list_elem_of_here.
    + intros x. rewrite !elem_of_cons, Hin, elem_of_cons. split.
      * intros [->|[Hx Hn]]; [by split; [left|]|].
        split; [by right|]. intros Hs. apply Hn. by right.
      * intros [[->|Hx] Hn]; [by left|].
        destruct (decide (x = v)) as [->|Hne]; [by left|].
        right. split; [done|]. by intros [?|?].
Qed.

Lemma retained_all (seen vs : list pyval) :
  NoDup (select (negb <$> duplicated_all seen vs) vs).
Proof.
  revert seen. induction vs as [|v vs IH]; intros seen; [constructor|].
  simpl. case_bool_decide as Hv; simpl; [apply IH|].
  constructor; [|apply IH]. intros Hin. apply Hv. right.
  eapply elem_of_sublist; [exact Hin|apply select_sublist].
Qed.

(** Under each policy no value is retained twice; under 'first' and 'last'
    every value is retained. *)
Lemma retained_values (keep : Keep) (vs : list pyval) :
  NoDup (select (negb <$> duplicated keep vs) vs)
  /\ (keep <> keep_False ->
      forall x, x ∈ vs -> x ∈ select (negb <$> duplicated keep vs) vs).
Proof.
  destruct keep; simpl.
  - destruct (retained_first [] vs) as [Hnd Hin]. split; [done|].
    intros _ x Hx. apply Hin. split; [done|apply not_elem_of_nil].
  - destruct (retained_first [] (rev vs)) as [Hnd Hin].
    assert (Heq : select (negb <$> rev (duplicated_first [] (rev vs))) vs
                  = rev (select (negb <$> duplicated_first [] (rev vs))
                                (rev vs))).
    { rewrite <- select_rev
        by (by rewrite length_fmap, duplicated_first_length).
      by rewrite rev_involutive, fmap_rev. }
    rewrite Heq. split.
    + apply NoDup_ListNoDup, List.NoDup_rev, NoDup_ListNoDup, Hnd.
    + intros _ x Hx. apply elem_of_rev, Hin.
      split; [by apply elem_of_rev|apply not_elem_of_nil].
  - split; [apply retained_all|done].
Qed.

(** The text column of the frame that [remove_exact_duplicates] returns, in
    terms of the mask *)
Lemma get_column_retained (d : DataFrame) (hc col : string)
      (vs texts : list pyval) (mask : list bool) :
  col <> hc -> length vs = len d ->
  get_column d col = Ok texts ->
  get_column (drop_column (df_select mask (set_column d hc vs)) hc) col
  = Ok (select mask texts).
Proof.
  intros Hne Hlen. unfold get_column. simpl.
  case_bool_decide as Hcol; [|done]. intros [= <-].
  rewrite bool_decide_true.
  2:{ apply list_elem_of_filter. split; [done|].
      case_bool_decide; [done|]. apply elem_of_app. by left. }
  f_equal. rewrite <- !select_fmap. f_equal. unfold len in Hlen.
  revert vs Hlen. induction (df_rows d) as [|r rows IH]; intros [|v vs] Hlen;
    simplify_eq/=; [done|].
  rewrite lookup_delete_ne, lookup_insert_ne by done. f_equal. by apply IH.
Qed.

Lemma rows_retained (d : DataFrame) (hc : string) (vs : list pyval)
      (mask : list bool) :
  length vs = len d ->
  df_rows (drop_column (df_select mask (set_column d hc vs)) hc)
  = select mask ((fun r => (r.1, delete hc r.2)) <$> df_rows d).
Proof.
  intros Hlen. simpl. rewrite <- select_fmap. f_equal. unfold len in Hlen.
  revert vs Hlen. induction (df_rows d) as [|r rows IH]; intros [|v vs] Hlen;
    simplify_eq/=; [done|].
  rewrite delete_insert_eq. f_equal. by apply IH.
Qed.

Lemma exact_out_lookup (h : store) df (d1 a b c : DataFrame) :
  (<[df := d1]> h ++ [a; b; c]) !! (length h + 2)%nat = Some c.
Proof.
  rewrite lookup_app_r by (rewrite length_insert; lia).
  rewrite length_insert.
  by replace (length h + 2 - length h)%nat with 2%nat by lia.
Qed.

Lemma hashes_length U (d : DataFrame) col texts hashes :
  get_column d col = Ok texts ->
  mapM (fun t => compute_text_hash U t (str "md5")) texts = Ok hashes ->
  length (PyStr <$> hashes) = len d.
Proof.
  intros Htexts Hhashes.
  rewrite length_fmap, (mapM_length _ _ _ Hhashes).
  by apply get_column_length in Htexts.
Qed.

(** X3. After [remove_exact_duplicates] no two records of the result have
    the same text hash, whatever the policy; under 'first' and 'last' every
    hash of the input is still the hash of a record of the result. *)
Theorem remove_exact_duplicates_no_shared_hash
        U (h : store) df d text_col keep texts hashes :
  h !! df = Some d ->
  get_column d text_col = Ok texts ->
  mapM (fun t => compute_text_hash U t (str "md5")) texts = Ok hashes ->
  text_col <> "_text_hash"%string ->
  exists h' out n d' texts' hashes',
    remove_exact_duplicates U df text_col keep h = (h', Ok (out, n))
    /\ h' !! out = Some d'
    /\ get_column d' text_col = Ok texts'
    /\ mapM (fun t => compute_text_hash U t (str "md5")) texts' = Ok hashes'
    /\ NoDup hashes'
    /\ (keep <> keep_False -> forall x, x ∈ hashes -> x ∈ hashes').
Proof.
  intros Hdf Htexts Hhashes Hcol.
  rewrite (remove_exact_duplicates_run U h df d text_col keep texts hashes)
    by done.
  set (mask := negb <$> duplicated keep (PyStr <$> hashes)).
  exists (<[df := set_column d "_text_hash" (PyStr <$> hashes)]> h
            ++ [df_select mask (set_column d "_text_hash" (PyStr <$> hashes));
                df_select mask (set_column d "_text_hash" (PyStr <$> hashes));
                drop_column
                  (df_select mask
                     (set_column d "_text_hash" (PyStr <$> hashes)))
                  "_text_hash"]).
  eexists _, _, _, (select mask texts), (select mask hashes).
  split; [reflexivity|]. split; [apply exact_out_lookup|].
  split; [apply get_column_retained; eauto using hashes_length|].
  split; [by apply mapM_select|].
  destruct (retained_values keep (PyStr <$> hashes)) as [Hnd Hall].
  fold mask in Hnd, Hall. rewrite select_fmap in Hnd, Hall.
  split.
  - eapply NoDup_fmap_1, Hnd.
  - intros Hkeep x Hx.
    assert (Hin : PyStr x ∈ PyStr <$> select mask hashes).
    { apply Hall; [done|]. by apply list_elem_of_fmap_2. }
    apply list_elem_of_fmap in Hin as (y & [= ->] & Hy). done.
Qed.

Lemma remove_exact_duplicates_no_shared_hash_witness :
  exists h' out n d' texts' hashes',
    remove_exact_duplicates ascii_only 0%nat "text" keep_last
      [text_frame sample_texts] = (h', Ok (out, n))
    /\ h' !! out = Some d'
    /\ get_column d' "text" = Ok texts'
    /\ mapM (fun t => compute_text_hash ascii_only t (str "md5")) texts'
       = Ok hashes'
    /\ NoDup hashes'
    /\ (keep_last <> keep_False ->
        forall x, x ∈ sample_hashes -> x ∈ hashes').
Proof.
  apply (remove_exact_duplicates_no_shared_hash ascii_only
           [text_frame sample_texts] 0%nat (text_frame sample_texts)
           "text" keep_last sample_texts sample_hashes).
  - reflexivity.
  - reflexivity.
  - vm_compute. reflexivity.
  - discriminate.
Defined.

(** X4. The records that [remove_exact_duplicates] returns are records of
    the input, with their labels and in their order; the columns are those
    of the input, a [_text_hash] column excepted, which the result never
    has. *)
Theorem remove_exact_duplicates_keeps_order
        U (h : store) df d text_col keep texts hashes :
  h !! df = Some d ->
  get_column d text_col = Ok texts ->
  mapM (fun t => compute_text_hash U t (str "md5")) texts = Ok hashes ->
  exists h' out n d',
    remove_exact_duplicates U df text_col keep h = (h', Ok (out, n))
    /\ h' !! out = Some d'
    /\ df_rows d' `sublist_of`
         ((fun r => (r.1, delete "_text_hash"%string r.2)) <$> df_rows d)
    /\ df_index d' `sublist_of` df_index d
    /\ df_columns d'
       = filter (fun c => c <> "_text_hash"%string) (df_columns d).
Proof.
  intros Hdf Htexts Hhashes.
  rewrite (remove_exact_duplicates_run U h df d text_col keep texts hashes)
    by done.
  eexists _, _, _, _. split; [reflexivity|].
  split; [apply exact_out_lookup|].
  assert (Hrows := rows_retained d "_text_hash" (PyStr <$> hashes)
                     (negb <$> duplicated keep (PyStr <$> hashes))
                     (hashes_length U d text_col texts hashes Htexts Hhashes)).
  split; [|split].
  - rewrite Hrows. apply select_sublist.
  - unfold df_index. rewrite Hrows, <- select_fmap.
    rewrite <- list_fmap_compose.
    erewrite (list_fmap_ext _ fst); [apply select_sublist|].
    by intros i [l cells] _.
  - simpl. case_bool_decide as Hc; [done|].
    rewrite filter_app, filter_cons_False by (intros Hne; by apply Hne).
    by rewrite filter_nil, app_nil_r.
Qed.

Lemma remove_exact_duplicates_keeps_order_witness :
  exists h' out n d',
    remove_exact_duplicates ascii_only 0%nat "text" keep_first
      [text_frame sample_texts] = (h', Ok (out, n))
    /\ h' !! out = Some d'
    /\ df_rows d' `sublist_of`
         ((fun r => (r.1, delete "_text_hash"%string r.2))
            <$> df_rows (text_frame sample_texts))
    /\ df_index d' `sublist_of` df_index (text_frame sample_texts)
    /\ df_columns d'
       = filter (fun c => c <> "_text_hash"%string)
                (df_columns (text_frame sample_texts)).
Proof.
  apply (remove_exact_duplicates_keeps_order ascii_only
           [text_frame sample_texts] 0%nat (text_frame sample_texts)
           "text" keep_first sample_texts sample_hashes).
  - reflexivity.
  - reflexivity.
  - vm_compute. reflexivity.
Defined.

(** X5. The count that [remove_exact_duplicates] returns is the number of
    records it has dropped: the length of the result plus the count is the
    length of the input, under each policy.  Under 'first' and 'last' a
    frame with a record keeps at least one. *)
Theorem remove_exact_duplicates_accounting
        U (h : store) df d text_col keep texts hashes :
  h !! df = Some d ->
  get_column d text_col = Ok texts ->
  mapM (fun t => compute_text_hash U t (str "md5")) texts = Ok hashes ->
  exists h' out n d',
    remove_exact_duplicates U df text_col keep h = (h', Ok (out, n))
    /\ h' !! out = Some d'
    /\ (len d' + n = len d)%nat
    /\ (keep <> keep_False -> (0 < len d)%nat -> (0 < len d')%nat).
Proof.
  intros Hdf Htexts Hhashes.
  destruct (remove_exact_duplicates_length U h df d text_col keep texts hashes
              Hdf Htexts Hhashes) as (h' & out & n & d' & Hrun & Hout & Hlen).
  exists h', out, n, d'. split; [done|]. split; [done|]. split; [done|].
  intros Hkeep Hpos.
  rewrite (remove_exact_duplicates_run U h df d text_col keep texts hashes)
    in Hrun by done.
  injection Hrun as <- <- <-. rewrite exact_out_lookup in Hout.
  injection Hout as <-.
  pose proof (hashes_length U d text_col texts hashes Htexts Hhashes) as Hvs.
  unfold len at 1.
  rewrite (rows_retained d "_text_hash" (PyStr <$> hashes)) by done.
  rewrite select_length
    by (by rewrite !length_fmap, duplicated_length, length_fmap in *).
  rewrite <- (select_length _ (PyStr <$> hashes))
    by (by rewrite length_fmap, duplicated_length).
  destruct (retained_values keep (PyStr <$> hashes)) as [_ Hall].
  destruct (PyStr <$> hashes) as [|v vs] eqn:Hv; [simpl in Hvs; lia|].
  specialize (Hall Hkeep v (list_elem_of_here _ _)).
  destruct (select _ (v :: vs)); [by apply elem_of_nil in Hall|simpl; lia].
Qed.

Lemma remove_exact_duplicates_accounting_witness :
  exists h' out n d',
    remove_exact_duplicates ascii_only 0%nat "text" keep_last
      [text_frame sample_texts] = (h', Ok (out, n))
    /\ h' !! out = Some d'
    /\ (len d' + n = len (text_frame sample_texts))%nat
    /\ (keep_last <> keep_False -> (0 < len (text_frame sample_texts))%nat ->
        (0 < len d')%nat).
Proof.
  apply (remove_exact_duplicates_accounting ascii_only
           [text_frame sample_texts] 0%nat (text_frame sample_texts)
           "text" keep_last sample_texts sample_hashes).
  - reflexivity.
  - reflexivity.
  - vm_compute. reflexivity.
Defined.

(** ** A second pass *)

Lemma duplicated_first_NoDup (seen vs : list pyval) :
  NoDup vs -> (forall x, x ∈ vs -> x ∉ seen) ->
  Forall (eq false) (duplicated_first seen vs).
Proof.
  intros Hnd. revert seen.
  induction Hnd as [|v vs Hv Hnd IH]; intros seen Hdisj; simpl; [constructor|].
  constructor.
  - symmetry. apply bool_decide_eq_false, Hdisj, list_elem_of_here.
  - apply IH. intros x Hx. rewrite not_elem_of_cons. split.
    + intros ->. done.
    + by apply Hdisj, list_elem_of_further.
Qed.

Lemma duplicated_all_NoDup (seen vs : list pyval) :
  NoDup vs -> (forall x, x ∈ vs -> x ∉ seen) ->
  Forall (eq false) (duplicated_all seen vs).
Proof.
  intros Hnd. revert seen.
  induction Hnd as [|v vs Hv Hnd IH]; intros seen Hdisj; simpl; [constructor|].
  constructor.
  - symmetry. apply bool_decide_eq_false. intros [Hs|Hs]; [|done].
    by apply (Hdisj v (list_elem_of_here _ _)).
  - apply IH. intros x Hx. rewrite not_elem_of_cons. split.
    + intros ->. done.
    + by apply Hdisj, list_elem_of_further.
Qed.

(** Values that are all different: nothing is marked. *)
Lemma duplicated_NoDup (keep : Keep) (vs : list pyval) :
  NoDup vs -> Forall (eq false) (duplicated keep vs).
Proof.
  intros Hnd. destruct keep; simpl.
  - apply duplicated_first_NoDup; [done|]. intros x _. apply not_elem_of_nil.
  - apply Forall_rev, duplicated_first_NoDup.
    + by apply NoDup_ListNoDup, List.NoDup_rev, NoDup_ListNoDup.
    + intros x _. apply not_elem_of_nil.
  - apply duplicated_all_NoDup; [done|]. intros x _. apply not_elem_of_nil.
Qed.

Lemma sum_mask_none (mask : list bool) :
  Forall (eq false) mask -> sum_mask mask = 0%nat.
Proof.
  unfold sum_mask. induction 1 as [|b mask <- _ IH]; [done|].
  by rewrite filter_cons_False by discriminate.
Qed.

Lemma drop_set_column (d : DataFrame) (hc : string) (vs : list pyval) :
  length vs = len d ->
  hc ∉ df_columns d ->
  Forall (fun r => r.2 !! hc = None) (df_rows d) ->
  drop_column (set_column d hc vs) hc = d.
Proof.
  intros Hlen Hc Hrows. destruct d as [cols rows]. unfold len in Hlen.
  unfold drop_column, set_column. simpl in *. f_equal.
  - rewrite bool_decide_false by done.
    rewrite filter_app, filter_cons_False by (intros Hne; by apply Hne).
    rewrite filter_nil, app_nil_r.
    clear -Hc. induction cols as [|c cols IH]; [done|].
    apply not_elem_of_cons in Hc as [Hne Hc].
    rewrite filter_cons_True by done. f_equal. by apply IH.
  - revert vs Hlen. induction Hrows as [|[l cells] rows Hr Hrows IH];
      intros [|v vs] Hlen; simplify_eq/=; [done|].
    rewrite delete_insert_eq, delete_id by done. f_equal. by apply IH.
Qed.

(** X6. Exact deduplication is idempotent: applied to the frame it has
    returned, [remove_exact_duplicates] removes nothing and returns a frame
    with the same columns and rows. *)
Theorem remove_exact_duplicates_idempotent
        U (h : store) df d text_col keep texts hashes :
  h !! df = Some d ->
  get_column d text_col = Ok texts ->
  mapM (fun t => compute_text_hash U t (str "md5")) texts = Ok hashes ->
  text_col <> "_text_hash"%string ->
  exists h1 out n d1 h2 out2,
    remove_exact_duplicates U df text_col keep h = (h1, Ok (out, n))
    /\ h1 !! out = Some d1
    /\ remove_exact_duplicates U out text_col keep h1 = (h2, Ok (out2, 0%nat))
    /\ h2 !! out2 = Some d1.
Proof.
  intros Hdf Htexts Hhashes Hcol.
  rewrite (remove_exact_duplicates_run U h df d text_col keep texts hashes)
    by done.
  set (d0 := set_column d "_text_hash" (PyStr <$> hashes)).
  set (mask := negb <$> duplicated keep (PyStr <$> hashes)).
  set (d1 := drop_column (df_select mask d0) "_text_hash").
  set (h1 := <[df := d0]> h ++ [df_select mask d0; df_select mask d0; d1]).
  assert (Hout : h1 !! (length h + 2)%nat = Some d1)
    by apply exact_out_lookup.
  assert (Htexts1 : get_column d1 text_col = Ok (select mask texts)).
  { apply get_column_retained; eauto using hashes_length. }
  assert (Hhashes1 :
            mapM (fun t => compute_text_hash U t (str "md5"))
                 (select mask texts) = Ok (select mask hashes))
    by by apply mapM_select.
  exists h1, (length h + 2)%nat, (sum_mask (duplicated keep (PyStr <$> hashes))),
    d1.
  rewrite (remove_exact_duplicates_run U h1 (length h + 2)%nat d1 text_col keep
             (select mask texts) (select mask hashes)) by done.
  set (vs1 := PyStr <$> select mask hashes).
  assert (Hnone : Forall (eq false) (duplicated keep vs1)).
  { apply duplicated_NoDup. unfold vs1. rewrite <- select_fmap.
    apply retained_values. }
  assert (Hlen1 : length vs1 = len d1)
    by (eapply hashes_length; eauto).
  assert (Hall : df_select (negb <$> duplicated keep vs1)
                           (set_column d1 "_text_hash" vs1)
                 = set_column d1 "_text_hash" vs1).
  { unfold df_select. destruct (set_column d1 "_text_hash" vs1) as [cols rows]
      eqn:Hset. simpl. f_equal. apply select_all.
    - rewrite length_fmap, duplicated_length.
      apply (f_equal (fun x => length (df_rows x))) in Hset.
      cbn [set_column df_rows] in Hset.
      rewrite length_zip_with in Hset. unfold len in Hlen1. lia.
    - apply Forall_fmap. eapply Forall_impl; [exact Hnone|].
      by intros b <-. }
  rewrite Hall, (sum_mask_none _ Hnone).
  eexists _, _. split; [reflexivity|]. split; [done|].
  split; [reflexivity|].
  rewrite exact_out_lookup. f_equal.
  apply drop_set_column; [done| |].
  - unfold d1. simpl. rewrite list_elem_of_filter. by intros [Hne _].
  - unfold d1. simpl. apply Forall_fmap, Forall_forall. intros r _. simpl.
    apply lookup_delete_eq.
Qed.

Lemma remove_exact_duplicates_idempotent_witness :
  exists h1 out n d1 h2 out2,
    remove_exact_duplicates ascii_only 0%nat "text" keep_first
      [text_frame sample_texts] = (h1, Ok (out, n))
    /\ h1 !! out = Some d1
    /\ remove_exact_duplicates ascii_only out "text" keep_first h1
       = (h2, Ok (out2, 0%nat))
    /\ h2 !! out2 = Some d1.
Proof.
  apply (remove_exact_duplicates_idempotent ascii_only
           [text_frame sample_texts] 0%nat (text_frame sample_texts)
           "text" keep_first sample_texts sample_hashes).
  - reflexivity.
  - reflexivity.
  - vm_compute. reflexivity.
  - discriminate.
Defined.

(** ** Calls that fail *)

Lemma get_column_missing (d : DataFrame) (col : string) :
  col ∉ df_columns d -> get_column d col = Raise (KeyError col).
Proof. intros Hc. unfold get_column. by rewrite bool_decide_false. Qed.

Lemma get_column_Raise (d : DataFrame) (col : string) e :
  get_column d col = Raise e -> e = KeyError col /\ col ∉ df_columns d.
Proof. unfold get_column. case_bool_decide; [done|]. by intros [= <-]. Qed.

(** X7. A text column that the frame does not have: each of the three
    entry points raises [KeyError] for it, and the caller's frame is as it
    was ([deduplicate_dataframe] has made its copy by then). *)
Theorem missing_column_raises_KeyError
        U SK (h : store) df d col keep thr near :
  h !! df = Some d -> col ∉ df_columns d ->
  remove_exact_duplicates U df col keep h = (h, Raise (KeyError col))
  /\ remove_near_duplicates SK df col thr keep h = (h, Raise (KeyError col))
  /\ deduplicate_dataframe U SK df col true near thr keep h
     = (h ++ [d], Raise (KeyError col))
  /\ deduplicate_dataframe U SK df col false true thr keep h
     = (h ++ [d], Raise (KeyError col)).
Proof.
  intros Hdf Hcol. pose proof (get_column_missing d col Hcol) as Hget.
  assert (Hexact : forall h0 l, h0 !! l = Some d ->
            remove_exact_duplicates U l col keep h0
            = (h0, Raise (KeyError col))).
  { intros h0 l Hl. unfold remove_exact_duplicates.
    by rewrite (bind_load _ _ _ _ Hl), Hget, bind_lift_Raise. }
  assert (Hnear : forall h0 l, h0 !! l = Some d ->
            remove_near_duplicates SK l col thr keep h0
            = (h0, Raise (KeyError col))).
  { intros h0 l Hl. unfold remove_near_duplicates.
    by rewrite (bind_load _ _ _ _ Hl), Hget, bind_lift_Raise. }
  split; [by apply Hexact|]. split; [by apply Hnear|].
  unfold deduplicate_dataframe.
  rewrite !(bind_load _ _ _ _ Hdf), !(bind_copy _ _ _ _ Hdf).
  split.
  - unfold bind at 1. by rewrite (Hexact _ _ (lookup_new h d)).
  - rewrite bind_ret. unfold bind at 1.
    by rewrite (Hnear _ _ (lookup_new h d)).
Qed.

Lemma missing_column_raises_KeyError_witness :
  let h := [text_frame sample_texts] in
  remove_exact_duplicates ascii_only 0%nat "body" keep_first h
  = (h, Raise (KeyError "body"))
  /\ remove_near_duplicates same_terms 0%nat "body" (Qmake 95 100) keep_first h
     = (h, Raise (KeyError "body"))
  /\ deduplicate_dataframe ascii_only same_terms 0%nat "body" true false
       (Qmake 95 100) keep_first h
     = (h ++ [text_frame sample_texts], Raise (KeyError "body"))
  /\ deduplicate_dataframe ascii_only same_terms 0%nat "body" false true
       (Qmake 95 100) keep_first h
     = (h ++ [text_frame sample_texts], Raise (KeyError "body")).
Proof.
  apply (missing_column_raises_KeyError ascii_only same_terms
           [text_frame sample_texts] 0%nat (text_frame sample_texts)
           "body" keep_first (Qmake 95 100) false).
  - reflexivity.
  - simpl. rewrite list_elem_of_singleton. discriminate.
Defined.

Lemma compute_text_hash_md5_Raise U (v : pyval) e :
  compute_text_hash U v (str "md5") = Raise e -> e = UnicodeEncodeError.
Proof.
  destruct v as [t| | |z]; try discriminate. unfold compute_text_hash.
  rewrite (bool_decide_true (str "md5" = str "md5")) by done.
  destruct (encode_utf8 _) as [bytes|e'] eqn:Henc; [done|].
  intros [= <-]. by apply encode_utf8_Raise in Henc.
Qed.

Lemma mapM_Raise {A B} (f : A -> result B) (xs : list A) e :
  mapM f xs = Raise e -> exists x, x ∈ xs /\ f x = Raise e.
Proof.
  induction xs as [|x xs IH]; [done|]. simpl.
  destruct (f x) as [y|e'] eqn:Hx.
  - destruct (mapM f xs) as [ys|e'] eqn:Hxs; [done|]. intros [= ->].
    destruct (IH eq_refl) as (x' & Hin & Hx'). exists x'.
    split; [by apply list_elem_of_further|done].
  - intros [= ->]. exists x. split; [apply list_elem_of_here|done].
Qed.

(** X8. A call of [remove_exact_duplicates] that raises has changed
    nothing: the hash column is only written once every text has been
    hashed.  What it raises is [KeyError] for a missing text column or the
    [UnicodeEncodeError] of a text that cannot be encoded. *)
Theorem remove_exact_duplicates_failure
        U (h h' : store) df d text_col keep e :
  h !! df = Some d ->
  remove_exact_duplicates U df text_col keep h = (h', Raise e) ->
  h' = h
  /\ (e = KeyError text_col /\ text_col ∉ df_columns d
      \/ e = UnicodeEncodeError
         /\ exists texts t,
              get_column d text_col = Ok texts /\ t ∈ texts
              /\ compute_text_hash U t (str "md5") = Raise UnicodeEncodeError).
Proof.
  intros Hdf.
  destruct (get_column d text_col) as [texts|e0] eqn:Htexts.
  - destruct (mapM (fun t => compute_text_hash U t (str "md5")) texts)
      as [hashes|e0] eqn:Hhashes.
    + rewrite (remove_exact_duplicates_run U h df d text_col keep texts hashes)
        by done. discriminate.
    + unfold remove_exact_duplicates.
      rewrite (bind_load _ _ _ _ Hdf), Htexts, bind_lift_Ok, Hhashes,
        bind_lift_Raise.
      intros [= <- <-]. split; [done|]. right.
      apply mapM_Raise in Hhashes as (t & Hin & Ht).
      pose proof (compute_text_hash_md5_Raise U t e0 Ht) as ->.
      split; [done|]. by exists texts, t.
  - unfold remove_exact_duplicates.
    rewrite (bind_load _ _ _ _ Hdf), Htexts, bind_lift_Raise.
    intros [= <- <-]. split; [done|]. left. by apply get_column_Raise.
Qed.

Lemma remove_exact_duplicates_failure_witness :
  let d := text_frame [PyStr (str "a"); PyStr [0xD800]] in
  remove_exact_duplicates ascii_only 0%nat "text" keep_first [d]
  = ([d], Raise UnicodeEncodeError)
  /\ [d] = [d]
  /\ (UnicodeEncodeError = KeyError "text" /\ "text"%string ∉ df_columns d
      \/ UnicodeEncodeError = UnicodeEncodeError
         /\ exists texts t,
              get_column d "text" = Ok texts /\ t ∈ texts
              /\ compute_text_hash ascii_only t (str "md5")
                 = Raise UnicodeEncodeError).
Proof.
  split; [vm_compute; reflexivity|].
  apply (remove_exact_duplicates_failure ascii_only
           [text_frame [PyStr (str "a"); PyStr [0xD800]]]
           [text_frame [PyStr (str "a"); PyStr [0xD800]]] 0%nat
           (text_frame [PyStr (str "a"); PyStr [0xD800]]) "text" keep_first
           UnicodeEncodeError).
  - reflexivity.
  - vm_compute. reflexivity.
Defined.

(** * Near-duplicate removal *)

Lemma remove_near_duplicates_length_range_index_witness :
  exists h' out n d',
    remove_near_duplicates two_alike 0%nat "text" (Qmake 9 10) keep_last
      [text_frame sample_texts] = (h', Ok (out, n))
    /\ h' !! out = Some d'
    /\ (len d' + n = len (text_frame sample_texts))%nat.
Proof.
  apply (remove_near_duplicates_length_range_index two_alike
           [text_frame sample_texts] 0%nat (text_frame sample_texts)
           "text" (Qmake 9 10) keep_last sample_texts).
  - reflexivity.
  - reflexivity.
  - reflexivity.
  - discriminate.
  - intros e. discriminate.
Defined.

Lemma remove_near_duplicates_preserves_store_witness :
  (0 < length [text_frame sample_texts])%nat
  /\ fst (remove_near_duplicates two_alike 0%nat "text" (Qmake 9 10)
            keep_first [text_frame sample_texts]) !! 0%nat
     = [text_frame sample_texts] !! 0%nat.
Proof.
  split; [simpl; lia|].
  apply (remove_near_duplicates_preserves_store two_alike 0%nat "text"
           (Qmake 9 10) keep_first [text_frame sample_texts] 0%nat).
  simpl. lia.
Defined.

Lemma remove_near_duplicates_unvectorizable_witness :
  remove_near_duplicates empty_vocabulary 0%nat "text" (Qmake 95 100)
    keep_first [text_frame sample_texts]
  = ([text_frame sample_texts] ++ [text_frame sample_texts;
                                   text_frame sample_texts],
     Ok (2%nat, 0%nat)).
Proof.
  apply (remove_near_duplicates_unvectorizable empty_vocabulary
           [text_frame sample_texts] 0%nat (text_frame sample_texts)
           "text" (Qmake 95 100) keep_first sample_texts
           (str "empty vocabulary; perhaps the documents only contain stop words")).
  - reflexivity.
  - reflexivity.
  - discriminate.
  - reflexivity.
Defined.

Lemma single_record_no_removal_witness :
  let d := text_frame [PyStr (str "a")] in
  (exists h' out,
     remove_exact_duplicates ascii_only 0%nat "text" keep_first [d]
     = (h', Ok (out, 0%nat)))
  /\ remove_near_duplicates same_terms 0%nat "text" (Qmake 95 100)
       keep_first [d]
     = ([d] ++ [d; d], Ok (2%nat, 0%nat)).
Proof.
  apply (single_record_no_removal ascii_only same_terms
           [text_frame [PyStr (str "a")]] 0%nat
           (text_frame [PyStr (str "a")]) "text" (Qmake 95 100) keep_first
           [PyStr (str "a")] [str "0cc175b9c0f1b6a831c399e269772661"]).
  - reflexivity.
  - reflexivity.
  - reflexivity.
  - vm_compute. reflexivity.
  - intros e. discriminate.
Defined.

(** ** What the scan leaves behind *)

Section ScanCovers.
Context (sim : nat -> nat -> Q) (thr : Q) (n : nat).

Lemma query_covers_step k st :
  scan_inv sim thr n k st -> query_covers sim thr n st ->
  query_covers sim thr n (visit_at sim thr n st k).
Proof.
  intros [Hproc _ Hclus _] Hcov. rewrite visit_at_cases.
  destruct (decide (k ∈ processed st)) as [|Hkp]; [done|].
  destruct (candidates sim thr n st k) as [|x0 xs] eqn:Hcand; [done|].
  rewrite <- Hcand. intros q c x Hin Hx Hne Hab. simpl in Hin |- *.
  apply elem_of_app in Hin as [Hin|Hin].
  - destruct (Hcov q c x Hin Hx Hne Hab) as (q' & c' & Hin' & Hxc & Hle).
    exists q', c'. split; [|done]. apply elem_of_app. by left.
  - apply list_elem_of_singleton in Hin. simplify_eq.
    destruct (decide (x ∈ processed st)) as [Hxp|Hxp].
    + apply Hproc in Hxp as (q' & c' & Hin' & Hxc).
      exists q', c'. split; [apply elem_of_app; by left|]. split; [done|].
      destruct (Hclus q' c' Hin') as (_ & Hlt & _). lia.
    + eexists _, _. split; [apply elem_of_app; right;
                             by apply list_elem_of_singleton|].
      split; [|done].
      rewrite elem_of_union, elem_of_list_to_set. right.
      by apply elem_of_candidates.
Qed.

Lemma query_covers_prefix k :
  query_covers sim thr n
    (foldl (visit_at sim thr n)
       {| duplicate_clusters := []; processed := ∅; n_comparisons := 0 |}
       (seq 0 k)).
Proof.
  induction k as [|k IH].
  - intros q c x Hin. simpl in Hin. by apply elem_of_nil in Hin.
  - rewrite seq_S, foldl_snoc. simpl.
    apply query_covers_step; [apply scan_inv_prefix|apply IH].
Qed.

Lemma query_covers_scan : query_covers sim thr n (scan sim thr n).
Proof. rewrite scan_flat. apply query_covers_prefix. Qed.

Hypothesis sim_sym : forall i j, (sim i j == sim j i)%Q.

(** A member of a cluster that is not marked under 'first' is its query. *)
Lemma kept_member_is_query q c x :
  (q, c) ∈ duplicate_clusters (scan sim thr n) -> x ∈ c ->
  x ∉ indices_to_remove keep_first (snd <$> duplicate_clusters (scan sim thr n)) ->
  x = q.
Proof.
  intros Hin Hx Hkept.
  destruct (scan_inv_scan sim thr n) as [_ _ Hclus _].
  destruct (Hclus q c Hin) as (Hq & _).
  pose proof (query_is_min_scan sim thr n sim_sym) as Hmin.
  destruct (sorted_min c q Hq) as (rest & Hsorted & _ & Hrest).
  { intros y Hy. by eapply Hmin. }
  destruct (decide (x = q)) as [|Hne]; [done|]. exfalso. apply Hkept.
  apply elem_of_indices_to_remove. exists c. split.
  - apply list_elem_of_fmap. by exists (q, c).
  - unfold to_remove. rewrite Hsorted. simpl. rewrite drop_0. by apply Hrest.
Qed.

(** Two rows that are both kept under 'first' are below the threshold. *)
Lemma kept_rows_apart i j :
  (i < n)%nat -> (j < n)%nat -> i <> j ->
  i ∉ indices_to_remove keep_first (snd <$> duplicate_clusters (scan sim thr n)) ->
  j ∉ indices_to_remove keep_first (snd <$> duplicate_clusters (scan sim thr n)) ->
  (sim i j < thr)%Q.
Proof.
  intros Hi Hj Hne Hki Hkj. apply Qnot_le_lt. intros Hab.
  assert (Hba : (thr <= sim j i)%Q) by by rewrite sim_sym.
  destruct (scan_inv_scan sim thr n) as [Hproc _ _ Hvis].
  pose proof query_covers_scan as Hcov.
  assert (Hquery : forall a b,
             (a < n)%nat -> (b < n)%nat -> a <> b -> (thr <= sim a b)%Q ->
             b ∉ indices_to_remove keep_first
                   (snd <$> duplicate_clusters (scan sim thr n)) ->
             (exists c, (a, c) ∈ duplicate_clusters (scan sim thr n)) ->
             (b <= a)%nat
             /\ exists c, (b, c) ∈ duplicate_clusters (scan sim thr n)).
  { intros a b Ha Hb Hab' Habove Hkb [c Hc].
    destruct (Hcov a c b Hc Hb (not_eq_sym Hab') Habove)
      as (q' & c' & Hin' & Hbc & Hle).
    pose proof (kept_member_is_query q' c' b Hin' Hbc Hkb) as ->.
    split; [done|by exists c']. }
  assert (Hstatus : forall a,
             a ∉ indices_to_remove keep_first
                   (snd <$> duplicate_clusters (scan sim thr n)) ->
             a ∈ processed (scan sim thr n) ->
             exists c, (a, c) ∈ duplicate_clusters (scan sim thr n)).
  { intros a Hka Hpa. apply Hproc in Hpa as (q & c & Hin & Hac).
    pose proof (kept_member_is_query q c a Hin Hac Hka) as ->. by exists c. }
  destruct (decide (i ∈ processed (scan sim thr n))) as [Hpi|Hpi].
  - destruct (Hquery i j Hi Hj Hne Hab Hkj (Hstatus i Hki Hpi))
      as [Hle Hqj].
    destruct (Hquery j i Hj Hi (not_eq_sym Hne) Hba Hki Hqj) as [Hle' _].
    lia.
  - destruct (decide (j ∈ processed (scan sim thr n))) as [Hpj|Hpj].
    + destruct (Hquery j i Hj Hi (not_eq_sym Hne) Hba Hki (Hstatus j Hkj Hpj))
        as [_ [c Hc]].
      apply Hpi, Hproc. exists i, c. split; [done|].
      destruct (scan_inv_scan sim thr n) as [_ _ Hclus _].
      by destruct (Hclus i c Hc).
    + destruct (Hvis i Hi) as [|Hall]; [done|].
      apply Hpj, Hall; [done|by apply not_eq_sym|done].
Qed.

End ScanCovers.

Lemma select_fmap_filter {A} (f : A -> bool) (l : list A) :
  select (f <$> l) l = filter (fun x => f x = true) l.
Proof.
  induction l as [|x l IH]; [done|]. rewrite fmap_cons, filter_cons.
  cbn [select]. rewrite IH. by destruct (f x).
Qed.

(** The labels left by [df[~df.index.isin(removed)]] on a frame with the
    default labels *)
Lemma kept_labels (d : DataFrame) (removed : gset nat) (i : nat) :
  df_index d = range_index (len d) ->
  Z.of_nat i ∈ df_index (df_select (negb <$> index_isin d removed) d) ->
  (i < len d)%nat /\ i ∉ removed.
Proof.
  intros Hidx. unfold df_index at 1. simpl. rewrite <- select_fmap.
  fold (df_index d). rewrite index_isin_range by done. rewrite Hidx.
  unfold range_index. rewrite <- list_fmap_compose, select_fmap.
  rewrite select_fmap_filter.
  intros Hin. apply list_elem_of_fmap in Hin as (k & Hk & Hin).
  apply Nat2Z.inj in Hk as <-.
  apply list_elem_of_filter in Hin as [Hrem Hseq]. simpl in Hrem.
  apply negb_true_iff, bool_decide_eq_false in Hrem.
  apply elem_of_seq in Hseq. split; [lia|done].
Qed.

(** X14. Near-duplicate removal with [keep='first'] leaves no pair of
    similar records: on a frame with the default labels, any two records of
    the result have a similarity below the threshold.  The similarity matrix
    is taken symmetric, as a matrix of cosine similarities is. *)
Theorem remove_near_duplicates_none_left
        SK (h : store) df d col thr texts (sim : nat -> nat -> Q) :
  h !! df = Some d ->
  get_column d col = Ok texts ->
  df_index d = range_index (len d) ->
  df_rows d <> [] ->
  tfidf_cosine SK texts = Ok sim ->
  (forall i j, (sim i j == sim j i)%Q) ->
  exists h' out n d',
    remove_near_duplicates SK df col thr keep_first h = (h', Ok (out, n))
    /\ h' !! out = Some d'
    /\ forall i j : nat,
         Z.of_nat i ∈ df_index d' -> Z.of_nat j ∈ df_index d' -> i <> j ->
         (sim i j < thr)%Q.
Proof.
  intros Hdf Hcol Hidx Hrows Hsim Hsym. unfold remove_near_duplicates.
  rewrite (bind_load _ _ _ _ Hdf), Hcol, bind_lift_Ok.
  destruct (find_near_duplicates_trace_Ok SK texts thr sim Hsim) as [_ ->].
  rewrite bind_lift_Ok, bind_new.
  erewrite bind_copy by apply lookup_new.
  assert (Hlen : (0 < len d)%nat).
  { unfold len. destruct (df_rows d); [done|simpl; lia]. }
  destruct (py_div_Ok
              (size (indices_to_remove keep_first
                       (snd <$> duplicate_clusters
                                  (scan sim thr (length texts)))))
              (len d) Hlen) as [rate ->].
  rewrite bind_lift_Ok. unfold ret.
  eexists _, _, _, _. split; [reflexivity|]. split; [apply lookup_new|].
  intros i j Hi Hj Hne.
  apply (kept_labels d _ i Hidx) in Hi as [Hi Hki].
  apply (kept_labels d _ j Hidx) in Hj as [Hj Hkj].
  rewrite <- (get_column_length _ _ _ Hcol) in Hi, Hj.
  by apply (kept_rows_apart sim thr (length texts) Hsym i j).
Qed.

Lemma remove_near_duplicates_none_left_witness :
  let sim := fun i j : nat =>
               if bool_decide (i = j) then Qmake 1 1
               else if bool_decide ((i < 2)%nat /\ (j < 2)%nat)
                    then Qmake 1 1 else Qmake 0 1 in
  exists h' out n d',
    remove_near_duplicates two_alike 0%nat "text" (Qmake 9 10) keep_first
      [text_frame sample_texts] = (h', Ok (out, n))
    /\ h' !! out = Some d'
    /\ forall i j : nat,
         Z.of_nat i ∈ df_index d' -> Z.of_nat j ∈ df_index d' -> i <> j ->
         (sim i j < Qmake 9 10)%Q.
Proof.
  intros sim.
  apply (remove_near_duplicates_none_left two_alike
           [text_frame sample_texts] 0%nat (text_frame sample_texts)
           "text" (Qmake 9 10) sample_texts sim).
  - reflexivity.
  - reflexivity.
  - reflexivity.
  - discriminate.
  - reflexivity.
  - intros i j. unfold sim.
    repeat case_bool_decide; first [reflexivity | exfalso; lia].
Defined.

(** ** The policy that is neither 'first' nor 'last' *)

Lemma indices_to_remove_keep_False (cs : list (gset nat)) :
  indices_to_remove keep_False cs = ∅.
Proof.
  apply set_eq. intros x. rewrite elem_of_indices_to_remove.
  split; [|by intros ?%not_elem_of_empty].
  intros (c & _ & Hx). by apply elem_of_nil in Hx.
Qed.

(** X15. [remove_near_duplicates] only knows 'first' and 'last': under
    [keep=False], which [remove_exact_duplicates] takes as "drop every
    copy", it finds the clusters and then removes nothing. *)
Theorem remove_near_duplicates_keep_False
        SK (h : store) df d col thr texts :
  h !! df = Some d -> get_column d col = Ok texts -> df_rows d <> [] ->
  (forall e, tfidf_cosine SK texts = Raise e -> exists m, e = ValueError m) ->
  remove_near_duplicates SK df col thr keep_False h
  = (h ++ [d; d], Ok (S (length h), 0%nat)).
Proof.
  intros Hdf Hcol Hrows Hsk. unfold remove_near_duplicates.
  rewrite (bind_load _ _ _ _ Hdf), Hcol, bind_lift_Ok.
  assert (Hfind : exists cs, find_near_duplicates SK texts thr = Ok cs).
  { unfold find_near_duplicates, find_near_duplicates_trace.
    destruct texts as [|t0 texts']; [eauto|].
    destruct (tfidf_cosine SK (t0 :: texts')) as [sim|e] eqn:Hsim; [eauto|].
    destruct (Hsk e eq_refl) as [m ->]. eauto. }
  destruct Hfind as [cs ->]. rewrite bind_lift_Ok.
  rewrite indices_to_remove_keep_False.
  rewrite df_select_all, bind_new.
  rewrite (bind_copy _ d) by apply lookup_new.
  rewrite size_empty.
  assert (Hlen : (0 < len d)%nat).
  { unfold len. destruct (df_rows d); [done|simpl; lia]. }
  destruct (py_div_Ok 0 (len d) Hlen) as [rate ->].
  rewrite bind_lift_Ok. unfold ret. rewrite <- app_assoc, length_app. simpl.
  do 3 f_equal. lia.
Qed.

Lemma remove_near_duplicates_keep_False_witness :
  find_near_duplicates two_alike sample_texts (Qmake 9 10)
  = Ok [{[0%nat; 1%nat]}]
  /\ remove_near_duplicates two_alike 0%nat "text" (Qmake 9 10) keep_False
       [text_frame sample_texts]
     = ([text_frame sample_texts]
          ++ [text_frame sample_texts; text_frame sample_texts],
        Ok (2%nat, 0%nat)).
Proof.
  split; [vm_compute; reflexivity|].
  apply (remove_near_duplicates_keep_False two_alike
           [text_frame sample_texts] 0%nat (text_frame sample_texts)
           "text" (Qmake 9 10) sample_texts).
  - reflexivity.
  - reflexivity.
  - discriminate.
  - intros e. discriminate.
Defined.

(** ** The clusters as sets of positions *)

Lemma disjoint_clusters_size (cs : list (gset nat)) :
  pairwise_disjoint cs ->
  (forall c, c ∈ cs -> (2 <= size c)%nat) ->
  (2 * length cs <= size (⋃ cs))%nat.
Proof.
  induction cs as [|c cs IH]; [simpl; lia|].
  intros [Hc Hcs] Hsize. simpl.
  rewrite size_union.
  - pose proof (Hsize c (list_elem_of_here _ _)) as Hc2.
    specialize (IH Hcs (fun c' Hc' =>
                          Hsize c' (list_elem_of_further _ _ _ Hc'))).
    lia.
  - apply elem_of_disjoint. intros x Hx Hu.
    apply elem_of_union_list in Hu as (c' & Hc' & Hx').
    rewrite Forall_forall in Hc. specialize (Hc c' Hc').
    by apply (elem_of_disjoint c c') with x.
Qed.

(** X16. The clusters of [find_near_duplicates] are sets of positions of
    the list of texts, and, being disjoint sets of two or more positions,
    there are at most half as many of them as there are texts. *)
Theorem find_near_duplicates_in_range SK (texts : list pyval) thr clusters :
  find_near_duplicates SK texts thr = Ok clusters ->
  (forall c x, c ∈ clusters -> x ∈ c -> (x < length texts)%nat)
  /\ (2 * length clusters <= length texts)%nat.
Proof.
  unfold find_near_duplicates, find_near_duplicates_trace. intros Hfind.
  assert (Hnone : clusters = [] ->
            (forall c x, c ∈ clusters -> x ∈ c -> (x < length texts)%nat)
            /\ (2 * length clusters <= length texts)%nat).
  { intros ->. split; [by intros c x ?%elem_of_nil|simpl; lia]. }
  destruct texts as [|t0 texts];
    [simpl in Hfind; simplify_eq; by apply Hnone|].
  destruct (tfidf_cosine SK (t0 :: texts)) as [sim|e] eqn:Hsim.
  2:{ destruct e; simplify_eq. by apply Hnone. }
  simplify_eq. set (n := length (t0 :: texts)).
  destruct (scan_inv_scan sim thr n) as [_ Hdisj Hclus _].
  assert (Hbelow : forall c x,
            c ∈ snd <$> duplicate_clusters (scan sim thr n) -> x ∈ c ->
            (x < n)%nat).
  { intros c x Hc Hx. apply list_elem_of_fmap in Hc as [[q c'] [-> Hin]].
    by eapply cluster_members_below. }
  split; [exact Hbelow|].
  etrans; [apply disjoint_clusters_size; [exact Hdisj|]|].
  - intros c Hc. apply list_elem_of_fmap in Hc as [[q c'] [-> Hin]].
    destruct (Hclus q c' Hin) as (Hq & _ & (y & Hy & Hne) & _).
    by apply (two_le_size c' q y).
  - rewrite <- (size_set_seq (C := gset nat) 0 n).
    apply subseteq_size. intros x Hx.
    apply elem_of_union_list in Hx as (c & Hc & Hx).
    apply elem_of_set_seq. split; [lia|]. simpl. by eapply Hbelow.
Qed.

Lemma find_near_duplicates_in_range_witness :
  (forall c x, c ∈ [({[0%nat; 1%nat]} : gset nat)] -> x ∈ c ->
               (x < length sample_texts)%nat)
  /\ (2 * length [({[0%nat; 1%nat]} : gset nat)] <= length sample_texts)%nat.
Proof.
  apply (find_near_duplicates_in_range two_alike sample_texts (Qmake 9 10)
           [{[0%nat; 1%nat]}]).
  vm_compute. reflexivity.
Defined.

(** * The pipeline *)

Lemma remove_exact_duplicates_Ok_ref U l col keep (h0 h1 : store) out n :
  remove_exact_duplicates U l col keep h0 = (h1, Ok (out, n)) ->
  (length h0 <= out < length h1)%nat.
Proof.
  destruct (h0 !! l) as [d0|] eqn:Hl.
  2:{ unfold remove_exact_duplicates, bind at 1, load. by rewrite Hl. }
  destruct (get_column d0 col) as [texts|e] eqn:Htexts.
  2:{ unfold remove_exact_duplicates.
      by rewrite (bind_load _ _ _ _ Hl), Htexts, bind_lift_Raise. }
  destruct (mapM (fun t => compute_text_hash U t (str "md5")) texts)
    as [hashes|e] eqn:Hhashes.
  2:{ unfold remove_exact_duplicates.
      by rewrite (bind_load _ _ _ _ Hl), Htexts, bind_lift_Ok, Hhashes,
        bind_lift_Raise. }
  rewrite (remove_exact_duplicates_run U h0 l d0 col keep texts hashes)
    by done.
  intros [= <- <- _]. rewrite length_app, length_insert. simpl. lia.
Qed.

Lemma remove_near_duplicates_Ok_ref SK l col thr keep (h0 h1 : store) out n :
  remove_near_duplicates SK l col thr keep h0 = (h1, Ok (out, n)) ->
  (length h0 <= out < length h1)%nat.
Proof.
  unfold remove_near_duplicates.
  destruct (h0 !! l) as [d0|] eqn:Hl.
  2:{ unfold bind at 1, load. by rewrite Hl. }
  rewrite (bind_load _ _ _ _ Hl).
  destruct (get_column d0 col) as [texts|e]; [|by rewrite bind_lift_Raise].
  rewrite bind_lift_Ok.
  destruct (find_near_duplicates SK texts thr) as [cs|e];
    [|by rewrite bind_lift_Raise].
  rewrite bind_lift_Ok, bind_new.
  erewrite bind_copy by apply lookup_new.
  destruct (py_div _ _); [|by rewrite bind_lift_Raise].
  rewrite bind_lift_Ok. unfold ret.
  intros [= <- <- _]. rewrite !length_app. simpl. lia.
Qed.

(** X11. [deduplicate_dataframe] hands back a frame of its own: the frame
    returned did not exist before the call, and every frame that did, the
    argument among them, is what it was. *)
Theorem deduplicate_dataframe_fresh_result
        U SK df col exact near thr keep (h h' : store) out stats :
  deduplicate_dataframe U SK df col exact near thr keep h
  = (h', Ok (out, stats)) ->
  (length h <= out)%nat
  /\ is_Some (h' !! out)
  /\ forall l, (l < length h)%nat -> h' !! l = h !! l.
Proof.
  intros Hrun.
  assert (Hold : forall l, (l < length h)%nat -> h' !! l = h !! l).
  { intros l Hl.
    pose proof (extends_lookup _ h l
                  (deduplicate_dataframe_extends U SK df col exact near thr keep)
                  Hl) as Hext.
    by rewrite Hrun in Hext. }
  enough (Hout : (length h <= out < length h')%nat).
  { split; [lia|]. split; [apply lookup_lt_is_Some; lia|exact Hold]. }
  revert Hrun. unfold deduplicate_dataframe.
  destruct (h !! df) as [d|] eqn:Hdf;
    [|unfold bind at 1, load; by rewrite Hdf].
  rewrite (bind_load _ _ _ _ Hdf), (bind_copy _ _ _ _ Hdf).
  unfold bind at 1.
  destruct (if exact then _ else _) as [h1 [[r1 n1]|e]] eqn:Hexact; [|done].
  unfold bind at 1.
  destruct (if near then _ else _) as [h2 [[r2 n2]|e]] eqn:Hnear; [|done].
  unfold bind at 1, load.
  destruct (h2 !! r2) as [d2|]; [|done].
  destruct (len d); [done|]. rewrite bind_ret. unfold ret.
  intros [= <- <- _].
  assert (Hr1 : (length h <= r1 < length h1)%nat).
  { destruct exact.
    - apply remove_exact_duplicates_Ok_ref in Hexact.
      rewrite length_app in Hexact. simpl in Hexact. lia.
    - unfold ret in Hexact. simplify_eq. rewrite length_app. simpl. lia. }
  destruct near.
  - apply remove_near_duplicates_Ok_ref in Hnear. lia.
  - unfold ret in Hnear. by simplify_eq.
Qed.

Lemma deduplicate_dataframe_fresh_result_witness :
  let h := [text_frame sample_texts] in
  exists h' out stats,
    deduplicate_dataframe ascii_only two_alike 0%nat "text" true true
      (Qmake 9 10) keep_first h = (h', Ok (out, stats))
    /\ (length h <= out)%nat
    /\ is_Some (h' !! out)
    /\ forall l, (l < length h)%nat -> h' !! l = h !! l.
Proof.
  intros h. eexists _, _, _. split; [vm_compute; reflexivity|].
  eapply (deduplicate_dataframe_fresh_result ascii_only two_alike 0%nat "text"
            true true (Qmake 9 10) keep_first h).
  vm_compute. reflexivity.
Defined.



(** * Further properties of [src/utils/text_normalization.py] *)

(** ** The accuracy that [validate_normalizations] reports *)

Lemma filter_length_all {A} (P : A -> Prop) `{!forall x, Decision (P x)}
      (l : list A) :
  length (filter P l) = length l <-> Forall P l.
Proof.
  induction l as [|x l IH]; [by split; [constructor|]|].
  rewrite filter_cons. pose proof (length_filter P l) as Hle.
  destruct (decide (P x)) as [Hx|Hx]; simpl.
  - rewrite Forall_cons. split.
    + intros [= Hl]. split; [done|by apply IH].
    + intros [_ Hl]. f_equal. by apply IH.
  - split; [lia|]. intros Hall. by apply Forall_cons in Hall as [? _].
Qed.

(** X18. On a gold list with at least one entry [validate_normalizations]
    returns a percentage between 0 and 100, which is 100 exactly when
    [normalize_text] maps every entry to its expected text; on an empty list
    the division of [correct] by [total] raises [ZeroDivisionError]. *)
Theorem validate_normalizations_range U (gold_list : list (pystr * pystr)) :
  match gold_list with
  | [] => validate_normalizations U (Some gold_list) = Raise ZeroDivisionError
  | _ =>
      exists accuracy,
        validate_normalizations U (Some gold_list) = Ok accuracy
        /\ (0 <= accuracy <= 100)%Q
        /\ ((accuracy == 100)%Q
            <-> Forall (fun io => normalize_text U (PyStr io.1) default_config
                                  = io.2) gold_list)
  end.
Proof.
  destruct gold_list as [|io gold]; [reflexivity|].
  unfold validate_normalizations. cbv zeta.
  set (l := io :: gold).
  set (P := fun io : pystr * pystr =>
              normalize_text U (PyStr io.1) default_config = io.2).
  change (default default_gold_list (Some l)) with l.
  pose proof (length_filter P l) as Hle.
  pose proof (filter_length_all P l) as Hall.
  assert (Hpos : (0 < length l)%nat) by (simpl; lia).
  destruct (length l) as [|t] eqn:Ht; [lia|].
  cbn [py_div]. eexists. split; [reflexivity|].
  set (c := length (filter P l)) in *.
  assert (Hc : (Z.of_nat c <= Z.pos (Pos.of_nat (S t)))%Z) by lia.
  split; [split|].
  - unfold Qle, Qmult. simpl. lia.
  - unfold Qle, Qmult. simpl. lia.
  - rewrite <- Hall. unfold Qeq, Qmult. simpl. lia.
Qed.

(** ** Presets *)

(** X19. [get_normalizer] never fails on the preset name: a name that is
    not one of the four presets gives the default normalizer, which is
    [normalize_text] with its default arguments; 'code_mixed' is that same
    function, and every normalizer returns the empty string on a value that
    is not a string. *)
Theorem get_normalizer_fallback U (preset : pystr) :
  preset ∉ [str "default"; str "strict"; str "minimal"; str "code_mixed"] ->
  get_normalizer U preset
  = Ok (fun text => normalize_text U text default_config)
  /\ get_normalizer U (str "default") = get_normalizer U preset
  /\ get_normalizer U (str "code_mixed") = get_normalizer U preset
  /\ forall name, exists normalizer,
       get_normalizer U name = Ok normalizer
       /\ forall v, isinstance_str v = false -> normalizer v = [].
Proof.
  intros Hnot.
  assert (Hdef : presets !! str "default" = Some default_config)
    by (vm_compute; reflexivity).
  assert (Hmiss : presets !! preset = None).
  { unfold presets. rewrite !not_elem_of_cons in Hnot.
    destruct Hnot as (H1 & H2 & H3 & H4 & _).
    by rewrite !lookup_insert_ne, lookup_empty by done. }
  assert (Hfall : get_normalizer U preset
                  = Ok (fun text => normalize_text U text default_config)).
  { unfold get_normalizer. by rewrite Hdef, Hmiss. }
  split; [exact Hfall|]. rewrite Hfall.
  split; [unfold get_normalizer; by rewrite !Hdef|].
  split.
  { unfold get_normalizer. rewrite Hdef.
    assert (presets !! str "code_mixed" = Some default_config) as ->
      by (vm_compute; reflexivity).
    done. }
  intros name. unfold get_normalizer. rewrite Hdef. eexists.
  split; [reflexivity|]. by intros [].
Qed.

Lemma get_normalizer_fallback_witness :
  get_normalizer ascii_only (str "fast")
  = Ok (fun text => normalize_text ascii_only text default_config)
  /\ get_normalizer ascii_only (str "default")
     = get_normalizer ascii_only (str "fast")
  /\ get_normalizer ascii_only (str "code_mixed")
     = get_normalizer ascii_only (str "fast")
  /\ forall name, exists normalizer,
       get_normalizer ascii_only name = Ok normalizer
       /\ forall v, isinstance_str v = false -> normalizer v = [].
Proof.
  apply (get_normalizer_fallback ascii_only (str "fast")).
  rewrite !not_elem_of_cons.
  split_and!; first [discriminate | apply not_elem_of_nil].
Defined.

(** ** Removing emoji *)

Lemma collapse_erase (p : char -> bool) (s : pystr) :
  collapse p (fun _ => []) s = filter (fun c => p c = false) s.
Proof.
  induction s as [|c s IH]; [done|]. cbn [collapse]. rewrite IH.
  destruct (p c) eqn:Hc.
  - rewrite (filter_cons_False (fun c => p c = false)) by congruence.
    by destruct (head_is p s).
  - by rewrite (filter_cons_True (fun c => p c = false)).
Qed.

(** [re.sub('[class]+', '', s)] deletes the characters of the class. *)
Lemma sub_erase_class U (p : char -> bool) (s : pystr) :
  sub U (Rep 1 (Cls p)) (fun _ => []) s = filter (fun c => p c = false) s.
Proof.
  unfold sub.
  rewrite (sub_from_rep_cls U p 1 (fun _ => []) (fun _ => []));
    [apply collapse_erase|lia|discriminate|done|done].
Qed.

(** X20. With [keep=True] [normalize_emoji] returns the text as it is; with
    [keep=False] it deletes exactly the characters of the pattern's ranges
    and keeps the others in order.  The ranges are the four emoji blocks
    from U+1F300 on and the interval from U+24C2 to U+1F251, so every
    character of that interval goes, the CJK ideographs among them. *)
Theorem normalize_emoji_deletes_ranges U (text : pystr) :
  normalize_emoji U text true = text
  /\ normalize_emoji U text false
     = filter (fun c => emoji_class c = false) text
  /\ (forall c, emoji_class c = true
                <-> 0x24C2 <= c <= 0x1F251 \/ 0x1F300 <= c <= 0x1F5FF
                    \/ 0x1F600 <= c <= 0x1F64F \/ 0x1F680 <= c <= 0x1F6FF)
  /\ forall c, 0x4E00 <= c <= 0x9FFF -> c ∉ normalize_emoji U text false.
Proof.
  assert (Hclass : forall c, emoji_class c = true
                <-> 0x24C2 <= c <= 0x1F251 \/ 0x1F300 <= c <= 0x1F5FF
                    \/ 0x1F600 <= c <= 0x1F64F \/ 0x1F680 <= c <= 0x1F6FF).
  { intros c. unfold emoji_class, in_range.
    rewrite !orb_true_iff, !andb_true_iff, !N.leb_le. lia. }
  assert (Herase : normalize_emoji U text false
                   = filter (fun c => emoji_class c = false) text).
  { unfold normalize_emoji. apply sub_erase_class. }
  split; [reflexivity|]. split; [exact Herase|]. split; [exact Hclass|].
  intros c Hc. rewrite Herase, list_elem_of_filter. intros [Hno _].
  assert (Hyes : emoji_class c = true) by (apply Hclass; lia).
  congruence.
Qed.

(** ** Whitespace, by tokens *)

Section Tokens.
Context (U : UCD).

Lemma split_from_space (acc : pystr) (c : char) (s : pystr) :
  isspace U c = true ->
  split_from U acc (c :: s) = split_from U acc [] ++ split_from U [] s.
Proof. intros Hc. simpl. rewrite Hc. by destruct acc. Qed.

Lemma split_from_all_space (acc s : pystr) :
  forallb (isspace U) s = true -> split_from U acc s = split_from U acc [].
Proof.
  revert acc. induction s as [|c s IH]; intros acc; [done|].
  intros [Hc Hs]%andb_true_iff. rewrite split_from_space by done.
  rewrite (IH [] Hs). simpl. by rewrite app_nil_r.
Qed.

Lemma split_from_collapse (acc s : pystr) :
  split_from U acc (collapse (isspace U) (fun _ => [32]) s)
  = split_from U acc s.
Proof.
  revert acc. induction s as [|c s IH]; intros acc; [done|].
  cbn [collapse]. destruct (isspace U c) eqn:Hc.
  - rewrite (split_from_space acc c s) by done.
    destruct (head_is (isspace U) s) eqn:Hs.
    + rewrite IH. destruct s as [|d s]; [done|].
      unfold head_is in Hs. simpl in Hs.
      rewrite (split_from_space acc d s), (split_from_space [] d s) by done.
      done.
    + change ([32] ++ ?x) with (32 :: x).
      rewrite (split_from_space acc 32) by done. by rewrite IH.
  - simpl. rewrite Hc. apply IH.
Qed.

Lemma split_lstrip (s : pystr) :
  split_from U [] (lstrip U s) = split_from U [] s.
Proof.
  induction s as [|c s IH]; [done|]. simpl.
  destruct (isspace U c) eqn:Hc; [done|]. simpl. by rewrite Hc.
Qed.

Lemma split_from_rstrip (acc s : pystr) :
  split_from U acc (rstrip U s) = split_from U acc s.
Proof.
  revert acc. induction s as [|c s IH]; intros acc; [done|].
  rewrite rstrip_cons.
  destruct (forallb (isspace U) (c :: s)) eqn:Hall.
  - by rewrite (split_from_all_space acc (c :: s)).
  - simpl. destruct (isspace U c); by rewrite IH.
Qed.

Lemma split_from_nonempty (acc s : pystr) :
  acc <> [] -> split_from U acc s <> [].
Proof.
  revert acc. induction s as [|c s IH]; intros acc Hacc; simpl.
  - by destruct acc.
  - destruct (isspace U c); [by destruct acc|]. by apply IH.
Qed.

Lemma join_cons (w : pystr) (ws : list pystr) :
  ws <> [] -> join (str " ") (w :: ws) = w ++ 32 :: join (str " ") ws.
Proof. by destruct ws. Qed.

(** A text whose whitespace is single spaces between words is the join of
    its tokens. *)
Lemma settled_join_split (t acc : pystr) :
  settled (isspace U) (fun _ => [32]) t ->
  rstrip U t = t ->
  (acc = [] -> head_is (isspace U) t = false) ->
  rev acc ++ t = join (str " ") (split_from U acc t).
Proof.
  revert acc. induction t as [|c t IH]; intros acc Hset Hr Hhead.
  { simpl. rewrite app_nil_r. by destruct acc. }
  destruct Hset as [Hc Hset]. rewrite rstrip_cons in Hr.
  destruct (forallb (isspace U) (c :: t)) eqn:Hall; [done|].
  injection Hr as Hr.
  destruct (isspace U c) eqn:Hsp.
  - destruct (Hc eq_refl) as [[= <-] Hnext].
    assert (Hacc : acc <> []).
    { intros ->. specialize (Hhead eq_refl). unfold head_is in Hhead.
      simpl in Hhead. congruence. }
    simpl in Hall. change (isspace U 32) with true in Hall. simpl in Hall.
    destruct t as [|d t]; [done|].
    unfold head_is in Hnext. simpl in Hnext.
    rewrite split_from_space by done.
    assert (Hflush : split_from U acc [] = [rev acc]) by by destruct acc.
    rewrite Hflush. cbn [app].
    assert (Hne : split_from U [] (d :: t) <> []).
    { simpl. rewrite Hnext. by apply split_from_nonempty. }
    rewrite join_cons by done. do 2 f_equal.
    rewrite <- (IH [] Hset Hr); [done|].
    intros _. unfold head_is. simpl. exact Hnext.
  - simpl. rewrite Hsp.
    rewrite <- (IH (c :: acc) Hset Hr) by done.
    simpl. by rewrite <- app_assoc.
Qed.

(** [MULTI_SPACE_PATTERN.sub(' ', t).strip()] is [' '.join(t.split())]. *)
Lemma normalize_whitespace_join_split (t : pystr) :
  normalize_whitespace U t = join (str " ") (split U t).
Proof.
  unfold normalize_whitespace. rewrite sub_multi_space.
  set (s := collapse (isspace U) (fun _ => [32]) t).
  assert (Hsplit : split U (strip U s) = split U t).
  { unfold split, strip. rewrite split_from_rstrip, split_lstrip.
    apply split_from_collapse. }
  rewrite <- Hsplit. unfold split.
  rewrite <- (settled_join_split (strip U s) []); [done| | |].
  - apply settled_rstrip, settled_lstrip, settled_collapse, space_settles.
  - unfold strip. apply rstrip_rstrip.
  - intros _. unfold strip. apply head_is_rstrip, head_is_lstrip.
Qed.

End Tokens.

(** X21. [normalize_whitespace] returns the tokens of the text joined by
    single spaces, as [' '.join(t.split())] does in [compute_text_hash]: the
    result has the tokens of the input, none of them empty or with
    whitespace inside. *)
Theorem normalize_whitespace_tokens U (t : pystr) :
  normalize_whitespace U t = join (str " ") (split U t)
  /\ split U (normalize_whitespace U t) = split U t
  /\ Forall (wordy U) (split U t).
Proof.
  pose proof (split_wordy U t) as Hw.
  split; [apply normalize_whitespace_join_split|]. split; [|exact Hw].
  rewrite normalize_whitespace_join_split. by apply split_join.
Qed.

(** ** The dictionary step, on whole texts *)

Lemma dict_of_lookup (entries : list (string * string)) (k v : pystr) :
  dict_of entries !! k = Some v -> exists e, e ∈ entries /\ v = str e.2.
Proof.
  unfold dict_of.
  enough (Hgen : forall m : gmap pystr pystr,
             foldl (fun m kv => <[str kv.1 := str kv.2]> m) m entries !! k
             = Some v ->
             m !! k = Some v \/ exists e, e ∈ entries /\ v = str e.2).
  { intros Hk. destruct (Hgen ∅ Hk) as [Hm|He]; [|done].
    by rewrite lookup_empty in Hm. }
  induction entries as [|e entries IH]; intros m; simpl; [by left|].
  intros Hk. destruct (IH _ Hk) as [Hm|(e' & He' & Hv)].
  - destruct (decide (str e.1 = k)) as [<-|Hne].
    + rewrite lookup_insert_eq in Hm. injection Hm as <-.
      right. exists e. split; [apply list_elem_of_here|done].
    + rewrite lookup_insert_ne in Hm by done. by left.
  - right. exists e'. split; [by apply list_elem_of_further|done].
Qed.

Section DictionaryTokens.
Context (U : UCD).

Lemma wordy_app (a b : pystr) :
  wordy U a -> Forall (fun c => isspace U c = false) b -> wordy U (a ++ b).
Proof.
  intros [Hne Ha] Hb. split; [by destruct a|]. by apply Forall_app.
Qed.

(** The canonical spellings are words, and so are their capitalised forms. *)
Lemma canonical_wordy (k v : pystr) :
  HINDI_ROMANIZED_NORMALIZATIONS !! k = Some v ->
  wordy U v /\ wordy U (capitalize U v).
Proof.
  intros Hk. apply dict_of_lookup in Hk as (e & He & ->).
  assert (Hall : forallb
            (fun e : string * string =>
               let v := str e.2 in
               match v with [] => false | _ => true end
               && forallb (fun c => negb (isspace U c)) v
               && match capitalize U v with [] => false | _ => true end
               && forallb (fun c => negb (isspace U c)) (capitalize U v))
            HINDI_ROMANIZED_entries = true) by (vm_compute; reflexivity).
  rewrite forallb_forall in Hall.
  specialize (Hall e (proj1 (list_elem_of_In _ _) He)). cbv zeta in Hall.
  rewrite !andb_true_iff in Hall. destruct Hall as [[[H1 H2] H3] H4].
  assert (Hconv : forall s : pystr,
            forallb (fun c => negb (isspace U c)) s = true ->
            Forall (fun c => isspace U c = false) s).
  { intros s Hs. rewrite forallb_forall in Hs. apply Forall_forall.
    intros c Hc. apply negb_true_iff, Hs. by apply list_elem_of_In. }
  split; (split; [|by apply Hconv]).
  - by destruct (str e.2).
  - by destruct (capitalize U (str e.2)).
Qed.

Lemma run_of_chars (p : char -> bool) (s : pystr) (c : char) :
  c ∈ run_of p s -> c ∈ s.
Proof.
  intros Hc. rewrite <- (run_after p s). apply elem_of_app. by left.
Qed.

Lemma after_run_chars (p : char -> bool) (s : pystr) (c : char) :
  c ∈ after_run p s -> c ∈ s.
Proof.
  intros Hc. rewrite <- (run_after p s). apply elem_of_app. by right.
Qed.

(** What [findall] returns for a class pattern is made of characters of
    the text. *)
Lemma findall_from_chars (p : char -> bool) fuel prev (s m : pystr) (c : char) :
  m ∈ findall_from U (Rep 1 (Cls p)) fuel prev s -> c ∈ m -> c ∈ s.
Proof.
  revert prev s. induction fuel as [|fuel IH]; intros prev s;
    [by intros ?%elem_of_nil|].
  destruct s as [|d s]; [by intros ?%elem_of_nil|].
  cbn [findall_from]. rewrite match_at_rep_cls.
  destruct (1 <=? length (run_of p (d :: s)))%nat.
  - cbv zeta. rewrite matched_run.
    destruct (run_of p (d :: s)) as [|r rs] eqn:Hrun.
    + intros Hm Hc. apply list_elem_of_further. by eapply IH.
    + rewrite elem_of_cons. intros [->|Hm] Hc.
      * apply (run_of_chars p). by rewrite Hrun.
      * apply (after_run_chars p). by eapply IH.
  - intros Hm Hc. apply list_elem_of_further. by eapply IH.
Qed.

(** A token stays a token. *)
Lemma normalize_word_wordy (word : pystr) :
  wordy U word -> wordy U (normalize_word U HINDI_ROMANIZED_NORMALIZATIONS word).
Proof.
  intros Hword. unfold normalize_word.
  destruct (HINDI_ROMANIZED_NORMALIZATIONS !! _) as [v|] eqn:Hk; [|done].
  destruct (canonical_wordy _ v Hk) as [Hv Hcap]. cbv zeta.
  assert (Hn : wordy U (if from_option (isupper U) false (head word)
                        then capitalize U v else v))
    by by destruct (from_option _ _ _).
  destruct (findall U _ word) as [|p0 ps] eqn:Hp; [done|].
  apply wordy_app; [done|]. apply Forall_forall. intros c Hc.
  destruct Hword as [_ Hchars]. rewrite Forall_forall in Hchars.
  apply Hchars. unfold findall in Hp.
  eapply findall_from_chars; [|exact Hc]. rewrite Hp. apply list_elem_of_here.
Qed.

End DictionaryTokens.

Lemma normalize_romanized_hindi_words U (text : pystr) :
  Forall (wordy U)
    (map (normalize_word U HINDI_ROMANIZED_NORMALIZATIONS) (split U text)).
Proof.
  pose proof (split_wordy U text) as Hs.
  induction Hs as [|w ws Hw Hws IH]; [constructor|].
  simpl. constructor; [by apply normalize_word_wordy|exact IH].
Qed.

(** The tokens of the result are the normalised tokens of the text. *)
Lemma normalize_romanized_hindi_split U (text : pystr) :
  split U (normalize_romanized_hindi U text None)
  = map (normalize_word U HINDI_ROMANIZED_NORMALIZATIONS) (split U text).
Proof.
  unfold normalize_romanized_hindi. cbn [default].
  apply split_join, normalize_romanized_hindi_words.
Qed.

(** After the dictionary step the whitespace step has nothing to do. *)
Lemma normalize_romanized_hindi_normal U (text : pystr) :
  normalize_whitespace U (normalize_romanized_hindi U text None)
  = normalize_romanized_hindi U text None.
Proof.
  unfold normalize_romanized_hindi. cbn [default].
  rewrite normalize_whitespace_join_split.
  by rewrite split_join by apply normalize_romanized_hindi_words.
Qed.

(** X22. [normalize_romanized_hindi] works token by token: the tokens of
    its result are the normalised tokens of the text, one for one.  The
    result is the join of these tokens by single spaces, so whitespace is
    normalised on the way, also in a text without any dictionary word, and
    [normalize_whitespace] leaves the result as it is. *)
Theorem normalize_romanized_hindi_tokens U (text : pystr) :
  split U (normalize_romanized_hindi U text None)
  = map (normalize_word U HINDI_ROMANIZED_NORMALIZATIONS) (split U text)
  /\ normalize_romanized_hindi U text None
     = join (str " ")
         (map (normalize_word U HINDI_ROMANIZED_NORMALIZATIONS) (split U text))
  /\ normalize_whitespace U (normalize_romanized_hindi U text None)
     = normalize_romanized_hindi U text None.
Proof.
  split; [apply normalize_romanized_hindi_split|].
  split; [reflexivity|apply normalize_romanized_hindi_normal].
Qed.

(** ** What the pipeline returns *)

(** X23. Whenever the whitespace step is on and the lower-case step is
    off, as in the default configuration, the text that [normalize_text]
    returns has normalised whitespace: it is the join of its tokens by
    single spaces, it neither starts nor ends with whitespace, and
    [normalize_whitespace] maps it to itself.  This holds for every input
    value and every setting of the other steps. *)
Theorem normalize_text_whitespace_normal
        U (text : pyval) (cfg : NormalizationConfig) :
  normalize_ws cfg = true -> lowercase cfg = false ->
  normalize_whitespace U (normalize_text U text cfg) = normalize_text U text cfg
  /\ join (str " ") (split U (normalize_text U text cfg))
     = normalize_text U text cfg
  /\ head_is (isspace U) (normalize_text U text cfg) = false
  /\ rstrip U (normalize_text U text cfg) = normalize_text U text cfg.
Proof.
  intros Hws Hlower.
  assert (Hshape : exists t, normalize_text U text cfg
                             = normalize_whitespace U t).
  { destruct text as [t| | |z]; try (by exists []).
    unfold normalize_text. rewrite Hws, Hlower. cbn [step]. eauto. }
  destruct Hshape as [t ->].
  split; [apply normalize_whitespace_idempotent|].
  split; [by rewrite <- normalize_whitespace_join_split,
            normalize_whitespace_idempotent|].
  unfold normalize_whitespace, strip.
  split; [apply head_is_rstrip, head_is_lstrip|apply rstrip_rstrip].
Qed.

Lemma normalize_text_whitespace_normal_witness :
  let out := normalize_text ascii_only
               (PyStr (str "  Kia   haal  hai ,  bhaii ?? ")) default_config in
  out = str "Kya haal hai , bhai ?"
  /\ normalize_whitespace ascii_only out = out
  /\ join (str " ") (split ascii_only out) = out
  /\ head_is (isspace ascii_only) out = false
  /\ rstrip ascii_only out = out.
Proof.
  split; [vm_compute; reflexivity|].
  apply (normalize_text_whitespace_normal ascii_only
           (PyStr (str "  Kia   haal  hai ,  bhaii ?? ")) default_config);
    reflexivity.
Defined.

(** ** Texts without markup *)

Section NoMatch.
Context (U : UCD).



Lemma exec_Cat (r1 r2 : regex) prev (s : pystr) k :
  exec U (Cat r1 r2) prev s k
  = exec U r1 prev s (fun prev' s' => exec U r2 prev' s' k).
Proof. reflexivity. Qed.








End NoMatch.




(** X25. The dictionary step on one token.  A token whose cleaned
    lower-case form is not a key is kept as it is.  On a hit, a token made
    of word characters followed by punctuation becomes the canonical
    spelling, capitalised if the token started with an upper-case letter,
    followed by that punctuation. *)
Theorem normalize_word_cases
        (U : UCD) (word_dict : gmap pystr pystr) (word w tail v : pystr) :
  word_dict !! sub U (Cls (fun c => negb (isword U c))) (fun _ => [])
                   (lower U word) = None ->
  w <> [] ->
  Forall (fun c => isword U c = true) w ->
  Forall (fun c => isword U c = false) tail ->
  word_dict !! sub U (Cls (fun c => negb (isword U c))) (fun _ => [])
                   (lower U (w ++ tail)) = Some v ->
  normalize_word U word_dict word = word
  /\ normalize_word U word_dict (w ++ tail)
     = (if from_option (isupper U) false (head w) then capitalize U v else v)
         ++ tail.
Proof.
  intros Hmiss Hne Hw Htail Hhit.
  split; [by apply normalize_word_miss|by apply normalize_word_trailing].
Qed.

Lemma normalize_word_cases_witness :
  normalize_word ascii_only HINDI_ROMANIZED_NORMALIZATIONS (str "Baat!") 
  = str "Baat!"
  /\ normalize_word ascii_only HINDI_ROMANIZED_NORMALIZATIONS
       (str "Bhaii" ++ str "!?")
     = (if from_option (isupper ascii_only) false (head (str "Bhaii"))
        then capitalize ascii_only (str "bhai") else str "bhai") ++ str "!?".
Proof.
  apply (normalize_word_cases ascii_only HINDI_ROMANIZED_NORMALIZATIONS
           (str "Baat!") (str "Bhaii") (str "!?") (str "bhai")).
  - vm_compute. reflexivity.
  - discriminate.
  - repeat constructor.
  - repeat constructor.
  - vm_compute. reflexivity.
Defined.

(** ** Runs of punctuation *)

Lemma collapse_skip (p : char -> bool) (emit : char -> pystr) (w s : pystr) :
  Forall (fun x => p x = false) w ->
  collapse p emit (w ++ s) = w ++ collapse p emit s.
Proof.
  induction 1 as [|x w Hx Hw IH]; [done|]. simpl. by rewrite Hx, IH.
Qed.

Lemma collapse_run_last (p : char -> bool) (run : pystr) (c : char) :
  Forall (fun x => p x = true) run -> p c = true ->
  collapse p (fun x => [x]) (run ++ [c]) = [c].
Proof.
  intros Hrun Hc. induction Hrun as [|x run Hx Hrun IH].
  - simpl. by rewrite Hc.
  - simpl. rewrite Hx.
    replace (head_is p (run ++ [c])) with true; [exact IH|].
    destruct Hrun as [|y run Hy _]; unfold head_is; simpl; congruence.
Qed.

(** X26. [normalize_punctuation] replaces a run of two or more of the
    marks [! ? . ; ,] by the last mark of the run, not the first, and keeps
    a single mark: on a text without double quote and without ellipsis
    character it collapses every run in this way and turns the two dashes
    into hyphens, and a word followed by a run ends in the last mark. *)
Theorem normalize_punctuation_keeps_last_mark
        U (t w run : pystr) (c : char) :
  34 ∉ t -> 0x2026 ∉ t ->
  Forall (fun x => punct_class x = false
                   /\ (x ∉ [34; 0x2026; 0x2013; 0x2014])) w ->
  Forall (fun x => punct_class x = true) run -> punct_class c = true ->
  normalize_punctuation U t
  = hyphenate (collapse punct_class (fun x => [x]) t)
  /\ normalize_punctuation U (w ++ run ++ [c]) = w ++ [c].
Proof.
  intros Hquote Hell Hw Hrun Hc.
  split; [by apply normalize_punctuation_plain|].
  assert (Hfree : forall x, x ∈ [34; 0x2026; 0x2013; 0x2014] ->
                            (x ∉ w ++ run ++ [c]) /\ (x ∉ w ++ [c])).
  { intros x Hx.
    assert (Hnp : punct_class x = false).
    { repeat (apply elem_of_cons in Hx as [->|Hx]; [reflexivity|]).
      by apply elem_of_nil in Hx. }
    assert (Hxw : x ∉ w).
    { intros Hin. rewrite Forall_forall in Hw. by destruct (Hw x Hin). }
    assert (Hxr : x ∉ run).
    { intros Hin. rewrite Forall_forall in Hrun.
      specialize (Hrun x Hin). congruence. }
    assert (Hxc : x <> c) by congruence.
    rewrite !elem_of_app, !list_elem_of_singleton. tauto. }
  rewrite normalize_punctuation_plain.
  2:{ apply (Hfree 34). apply list_elem_of_here. }
  2:{ apply (Hfree 0x2026). do 1 apply list_elem_of_further.
      apply list_elem_of_here. }
  rewrite collapse_skip by (eapply Forall_impl; [exact Hw|]; by intros ? [? _]).
  rewrite collapse_run_last by done.
  unfold hyphenate. rewrite !map_absent; [done| |].
  - apply (Hfree 0x2013). do 2 apply list_elem_of_further.
    apply list_elem_of_here.
  - rewrite map_absent.
    + apply (Hfree 0x2014). do 3 apply list_elem_of_further.
      apply list_elem_of_here.
    + apply (Hfree 0x2013). do 2 apply list_elem_of_further.
      apply list_elem_of_here.
Qed.

Lemma normalize_punctuation_keeps_last_mark_witness :
  normalize_punctuation ascii_only (str "so -- what?!")
  = hyphenate (collapse punct_class (fun x => [x]) (str "so -- what?!"))
  /\ normalize_punctuation ascii_only (str "what" ++ str "?!?" ++ [33])
     = str "what" ++ [33].
Proof.
  apply (normalize_punctuation_keeps_last_mark ascii_only
           (str "so -- what?!") (str "what") (str "?!?") 33).
  - apply (bool_decide_unpack _). vm_compute. exact I.
  - apply (bool_decide_unpack _). vm_compute. exact I.
  - repeat constructor; apply (bool_decide_unpack _); vm_compute; exact I.
  - repeat constructor.
  - reflexivity.
Defined.

(** ** Mentions and hashtags *)

Section Tags.
Context (U : UCD).

(** The pattern [a\w+] for a character [a] *)
Lemma match_at_tag (a : char) prev (s : pystr) :
  match_at U (Cat (Lit_chars [a]) (Rep 1 (Cls (isword U)))) prev s
  = match s with
    | c :: s' =>
        if (a =? c) && (1 <=? length (run_of (isword U) s'))%nat
        then Some (after_run (isword U) s') else None
    | [] => None
    end.
Proof.
  unfold match_at. rewrite exec_Cat. cbn [Lit_chars exec].
  destruct s as [|c s]; [done|].
  destruct (a =? c); [|done]. cbn [andb].
  apply (match_at_rep_cls U (isword U) 1 (Some c) s).
Qed.





End Tags.



(** ** The dictionary step, applied twice *)

Section DictionaryTwice.
Context (U : UCD).

Lemma sub_from_cls_erase (p : char -> bool) :
  forall fuel prev (s : pystr),
    (length s <= fuel)%nat ->
    sub_from U (Cls p) (fun _ => []) fuel prev s
    = filter (fun c => p c = false) s.
Proof.
  induction fuel as [|fuel IH]; intros prev s Hfuel.
  { destruct s; [done|simpl in Hfuel; lia]. }
  destruct s as [|c s]; [done|]. simpl in Hfuel.
  cbn [sub_from]. unfold match_at. cbn [exec].
  destruct (p c) eqn:Hc.
  - cbv zeta.
    replace (length (c :: s) - length s)%nat with 1%nat by (simpl; lia).
    cbn [take]. rewrite take_0. cbn [app].
    rewrite IH by lia.
    by rewrite (filter_cons_False (fun c => p c = false)) by congruence.
  - rewrite IH by lia.
    by rewrite (filter_cons_True (fun c => p c = false)).
Qed.

Lemma sub_cls_erase (p : char -> bool) (s : pystr) :
  sub U (Cls p) (fun _ => []) s = filter (fun c => p c = false) s.
Proof. unfold sub. by apply sub_from_cls_erase. Qed.

Lemma lower_from_ascii (s : pystr) :
  Forall (fun c => is_ascii c = true) s ->
  forall before, lower_from U before s = map ascii_lower s.
Proof.
  induction 1 as [|c s Hc Hs IH]; intros before; [done|].
  simpl. rewrite IH. unfold lower_ucs4, tolower. rewrite Hc.
  replace (c =? 0x3A3) with false; [done|].
  symmetry. apply N.eqb_neq. unfold is_ascii in Hc. apply N.ltb_lt in Hc. lia.
Qed.

Lemma lower_ascii (s : pystr) :
  Forall (fun c => is_ascii c = true) s -> lower U s = map ascii_lower s.
Proof. intros Hs. by apply lower_from_ascii. Qed.

Lemma run_of_Forall (p : char -> bool) (s : pystr) :
  Forall (fun c => p c = true) (run_of p s).
Proof.
  induction s as [|c s IH]; [constructor|]. simpl.
  destruct (p c) eqn:Hc; [by constructor|constructor].
Qed.

Lemma findall_from_class (p : char -> bool) fuel prev (s m : pystr) :
  m ∈ findall_from U (Rep 1 (Cls p)) fuel prev s ->
  Forall (fun c => p c = true) m.
Proof.
  revert prev s. induction fuel as [|fuel IH]; intros prev s;
    [by intros ?%elem_of_nil|].
  destruct s as [|d s]; [by intros ?%elem_of_nil|].
  cbn [findall_from]. rewrite match_at_rep_cls.
  destruct (1 <=? length (run_of p (d :: s)))%nat.
  - cbv zeta. rewrite matched_run.
    pose proof (run_of_Forall p (d :: s)) as Hrun.
    destruct (run_of p (d :: s)) as [|r rs] eqn:Hr.
    + apply IH.
    + rewrite elem_of_cons. intros [->|Hm]; [done|]. by eapply IH.
  - apply IH.
Qed.

(** What is used of the dictionary: a canonical spelling is a non-empty
    word of lower-case ASCII letters, and it is either not a key or its own
    canonical spelling. *)
Lemma canonical_spelling (k v : pystr) :
  HINDI_ROMANIZED_NORMALIZATIONS !! k = Some v ->
  (v <> []
   /\ Forall (fun c => isword U c = true) v
   /\ map ascii_lower v = v
   /\ from_option (isupper U) false (head v) = false)
  /\ (capitalize U v <> []
      /\ Forall (fun c => isword U c = true) (capitalize U v)
      /\ Forall (fun c => is_ascii c = true) (capitalize U v)
      /\ map ascii_lower (capitalize U v) = v
      /\ from_option (isupper U) false (head (capitalize U v)) = true)
  /\ Forall (fun c => is_ascii c = true) v
  /\ (HINDI_ROMANIZED_NORMALIZATIONS !! v = None
      \/ HINDI_ROMANIZED_NORMALIZATIONS !! v = Some v).
Proof.
  intros Hk. apply dict_of_lookup in Hk as (e & He & ->).
  assert (Hall : forallb
            (fun e : string * string =>
               let v := str e.2 in
               let cv := capitalize U v in
               match v with [] => false | _ => true end
               && forallb (isword U) v
               && bool_decide (map ascii_lower v = v)
               && negb (from_option (isupper U) false (head v))
               && match cv with [] => false | _ => true end
               && forallb (isword U) cv
               && forallb is_ascii cv
               && bool_decide (map ascii_lower cv = v)
               && from_option (isupper U) false (head cv)
               && forallb is_ascii v
               && match HINDI_ROMANIZED_NORMALIZATIONS !! v with
                  | None => true
                  | Some v' => bool_decide (v' = v)
                  end)
            HINDI_ROMANIZED_entries = true) by (vm_compute; reflexivity).
  rewrite forallb_forall in Hall.
  specialize (Hall e (proj1 (list_elem_of_In _ _) He)). cbv zeta in Hall.
  rewrite !andb_true_iff in Hall.
  destruct Hall as [[[[[[[[[[H1 H2] H3] H4] H5] H6] H7] H8] H9] H10] H11].
  assert (Hconv : forall (f : char -> bool) (s : pystr),
            forallb f s = true -> Forall (fun c => f c = true) s).
  { intros f s Hs. rewrite forallb_forall in Hs. apply Forall_forall.
    intros c Hc. apply Hs. by apply list_elem_of_In. }
  split; [|split; [|split]].
  - split; [by destruct (str e.2)|]. split; [by apply Hconv|].
    split; [by apply bool_decide_eq_true in H3|by apply negb_true_iff].
  - split; [by destruct (capitalize U (str e.2))|].
    split; [by apply Hconv|]. split; [by apply Hconv|].
    split; [by apply bool_decide_eq_true in H8|done].
  - by apply Hconv.
  - destruct (HINDI_ROMANIZED_NORMALIZATIONS !! str e.2) as [v'|];
      [|by left].
    apply bool_decide_eq_true in H11 as ->. by right.
Qed.

Lemma filter_words (s : pystr) :
  Forall (fun c => isword U c = true) s ->
  filter (fun c => negb (isword U c) = false) s = s.
Proof.
  induction 1 as [|c s Hc Hs IH]; [done|].
  rewrite (filter_cons_True (fun c => negb (isword U c) = false))
    by (by rewrite Hc).
  f_equal. exact IH.
Qed.

Lemma filter_nonwords (s : pystr) :
  Forall (fun c => isword U c = false) s ->
  filter (fun c => negb (isword U c) = false) s = [].
Proof.
  induction 1 as [|c s Hc Hs IH]; [done|].
  rewrite (filter_cons_False (fun c => negb (isword U c) = false))
    by (by rewrite Hc).
  exact IH.
Qed.

Lemma nonword_ascii_lower (s : pystr) :
  Forall (fun c => isword U c = false) s ->
  Forall (fun c => is_ascii c = true) s ->
  map ascii_lower s = s.
Proof.
  induction 1 as [|c s Hc Hs IH]; intros Hascii; [done|].
  apply Forall_cons in Hascii as [Hac Hascii]. simpl. rewrite IH by done.
  f_equal. unfold ascii_lower.
  destruct (in_range 65 90 c) eqn:Hup; [|done].
  unfold isword, isalnum in Hc. rewrite Hac, Hup in Hc.
  by rewrite orb_true_r in Hc.
Qed.

(** A canonical spelling, capitalised or not, followed by punctuation is a
    token that the step gives back. *)
Lemma normalize_word_fixed (k v n tail : pystr) :
  HINDI_ROMANIZED_NORMALIZATIONS !! k = Some v ->
  n = v \/ n = capitalize U v ->
  Forall (fun c => isword U c = false) tail ->
  Forall (fun c => is_ascii c = true) tail ->
  normalize_word U HINDI_ROMANIZED_NORMALIZATIONS (n ++ tail) = n ++ tail.
Proof.
  intros Hk Hn Htail Hascii.
  destruct (canonical_spelling k v Hk)
    as ((Hv1 & Hv2 & Hv3 & Hv4) & (Hc1 & Hc2 & Hc3 & Hc4 & Hc5) & Hva & Hkey).
  assert (Hn' : n <> [] /\ Forall (fun c => isword U c = true) n
                /\ Forall (fun c => is_ascii c = true) n
                /\ map ascii_lower n = v
                /\ (if from_option (isupper U) false (head n)
                    then capitalize U v else v) = n).
  { destruct Hn as [->| ->].
    - by rewrite Hv4.
    - by rewrite Hc5. }
  destruct Hn' as (Hn1 & Hn2 & Hn3 & Hn4 & Hn5).
  assert (Hclean : sub U (Cls (fun c => negb (isword U c))) (fun _ => [])
                       (lower U (n ++ tail)) = v).
  { rewrite sub_cls_erase, lower_ascii by (by apply Forall_app).
    rewrite map_app, Hn4, (nonword_ascii_lower tail) by done.
    rewrite (filter_app (fun c => negb (isword U c) = false)).
    rewrite filter_words, filter_nonwords by done.
    apply app_nil_r. }
  destruct Hkey as [Hmiss|Hhit].
  - apply normalize_word_miss. by rewrite Hclean.
  - rewrite (normalize_word_trailing U _ n tail v);
      [f_equal; exact Hn5|done|done|done|by rewrite Hclean].
Qed.

(** One token: a second application changes nothing. *)
Lemma normalize_word_twice (word : pystr) :
  Forall (fun c => is_ascii c = true) word ->
  normalize_word U HINDI_ROMANIZED_NORMALIZATIONS
    (normalize_word U HINDI_ROMANIZED_NORMALIZATIONS word)
  = normalize_word U HINDI_ROMANIZED_NORMALIZATIONS word.
Proof.
  intros Hascii.
  destruct (HINDI_ROMANIZED_NORMALIZATIONS
              !! sub U (Cls (fun c => negb (isword U c))) (fun _ => [])
                     (lower U word)) as [v|] eqn:Hk.
  2:{ by rewrite !(normalize_word_miss U _ word Hk). }
  assert (Hshape : exists n tail,
            normalize_word U HINDI_ROMANIZED_NORMALIZATIONS word = n ++ tail
            /\ (n = v \/ n = capitalize U v)
            /\ Forall (fun c => isword U c = false) tail
            /\ Forall (fun c => is_ascii c = true) tail).
  { unfold normalize_word. rewrite Hk. cbv zeta.
    exists (if from_option (isupper U) false (head word)
            then capitalize U v else v).
    destruct (findall U _ word) as [|p0 ps] eqn:Hp.
    - exists []. rewrite app_nil_r. split; [done|].
      split; [destruct (from_option _ _ _); [by right|by left]|].
      by split.
    - exists p0. split; [done|].
      split; [destruct (from_option _ _ _); [by right|by left]|].
      assert (Hin : p0 ∈ findall_from U
                (Rep 1 (Cls (fun c => negb (isword U c))))
                (length word) None word).
      { unfold findall in Hp. rewrite Hp. apply list_elem_of_here. }
      split.
      + apply findall_from_class in Hin.
        eapply Forall_impl; [exact Hin|]. intros c Hc. simpl in Hc.
        by apply negb_true_iff.
      + apply Forall_forall. intros c Hc.
        rewrite Forall_forall in Hascii. apply Hascii.
        by eapply findall_from_chars. }
  destruct Hshape as (n & tail & -> & Hn & Htail & Hta).
  by eapply (normalize_word_fixed _ v).
Qed.

End DictionaryTwice.

(** X28. On ASCII text the dictionary step is idempotent: applying
    [normalize_romanized_hindi] to its own result changes nothing.  A
    canonical spelling is either no key of the dictionary or its own
    canonical spelling, and the punctuation that the first pass has moved
    behind the word stays there. *)
Theorem normalize_romanized_hindi_idempotent U (text : pystr) :
  Forall (fun c => is_ascii c = true) text ->
  normalize_romanized_hindi U (normalize_romanized_hindi U text None) None
  = normalize_romanized_hindi U text None.
Proof.
  intros Hascii.
  pose proof (normalize_romanized_hindi_split U text) as Hsplit.
  unfold normalize_romanized_hindi at 1. cbn [default]. rewrite Hsplit.
  unfold normalize_romanized_hindi. cbn [default]. f_equal.
  rewrite map_map. apply map_ext_in. intros w Hw.
  apply normalize_word_twice. apply Forall_forall. intros c Hc.
  rewrite Forall_forall in Hascii. apply Hascii.
  apply list_elem_of_In in Hw.
  destruct (split_from_chars U _ _ _ _ Hw Hc) as [Hn|Ht];
    [by apply elem_of_nil in Hn|done].
Qed.

Lemma normalize_romanized_hindi_idempotent_witness :
  let text := str "!Yar,  kia  HAAL hai ?? b.h.a.i" in
  normalize_romanized_hindi ascii_only text None
  = str "yaar! kya HAAL hai ?? bhai."
  /\ normalize_romanized_hindi ascii_only
       (normalize_romanized_hindi ascii_only text None) None
     = normalize_romanized_hindi ascii_only text None.
Proof.
  split; [vm_compute; reflexivity|].
  apply (normalize_romanized_hindi_idempotent ascii_only
           (str "!Yar,  kia  HAAL hai ?? b.h.a.i")).
  repeat constructor.
Defined.

(** ** Hashtags that keep their text *)

Section HashMarks.
Context (U : UCD).

Lemma head_is_run (p : char -> bool) (s : pystr) :
  head_is p s = (1 <=? length (run_of p s))%nat.
Proof.
  destruct s as [|c s]; [done|]. unfold head_is. simpl.
  by destruct (p c).
Qed.

Lemma strip_hash_marks_words (w r : pystr) :
  Forall (fun c => isword U c = true) w ->
  strip_hash_marks U (w ++ r) = w ++ strip_hash_marks U r.
Proof.
  induction 1 as [|c w Hc Hw IH]; [done|]. simpl.
  destruct (N.eqb_spec c 35) as [->|_]; [discriminate Hc|].
  simpl. by rewrite IH.
Qed.

Lemma sub_from_hash_marks :
  forall fuel prev (s : pystr),
    (length s <= fuel)%nat ->
    sub_from U (HASHTAG_PATTERN U) (drop 1) fuel prev s
    = strip_hash_marks U s.
Proof.
  unfold HASHTAG_PATTERN.
  change (Lit "#") with (Lit_chars [35]).
  induction fuel as [|fuel IH]; intros prev s Hfuel.
  { destruct s; [done|simpl in Hfuel; lia]. }
  destruct s as [|c s]; [done|]. simpl in Hfuel.
  cbn [sub_from strip_hash_marks]. rewrite match_at_tag.
  rewrite (N.eqb_sym c 35), (head_is_run (isword U) s).
  destruct ((35 =? c) && (1 <=? length (run_of (isword U) s))%nat) eqn:Hm.
  - cbv zeta.
    pose proof (after_run_length (isword U) s) as Hlen.
    replace (length (c :: s) - length (after_run (isword U) s))%nat
      with (S (length s - length (after_run (isword U) s)))
      by (simpl; lia).
    cbn [take]. rewrite matched_run. cbn [drop]. rewrite IH by lia.
    rewrite <- (run_after (isword U) s) at 3.
    symmetry. apply strip_hash_marks_words, run_of_Forall.
  - by rewrite IH by lia.
Qed.

Lemma strip_hash_marks_others (s : pystr) :
  filter (fun c => c <> 35) (strip_hash_marks U s)
  = filter (fun c => c <> 35) s.
Proof.
  induction s as [|c s IH]; [done|]. cbn [strip_hash_marks].
  destruct (N.eqb_spec c 35) as [->|Hne]; cbn [andb].
  - rewrite (filter_cons_False (fun c => c <> 35) 35 s) by (by intros ?).
    destruct (head_is (isword U) s); [exact IH|].
    by rewrite (filter_cons_False (fun c => c <> 35)) by (by intros ?).
  - rewrite !(filter_cons_True (fun c => c <> 35)) by done.
    f_equal. exact IH.
Qed.

End HashMarks.

(** X29. With [keep_text=True] [remove_hashtags] deletes the '#'
    characters that stand directly before a word character and nothing
    else: a '#' before another '#', before punctuation or at the end stays,
    and every other character is kept in its place. *)
Theorem remove_hashtags_strips_marks U (text : pystr) :
  remove_hashtags U text true = strip_hash_marks U text
  /\ filter (fun c => c <> 35) (remove_hashtags U text true)
     = filter (fun c => c <> 35) text.
Proof.
  assert (Heq : remove_hashtags U text true = strip_hash_marks U text).
  { unfold remove_hashtags, sub. by apply sub_from_hash_marks. }
  split; [exact Heq|]. rewrite Heq. apply strip_hash_marks_others.
Qed.

Example remove_hashtags_run :
  remove_hashtags ascii_only (str "##top #1_news# is #!") true
  = str "#top 1_news# is #!".
Proof. vm_compute. reflexivity. Qed.
